(** * The feature forest of create-cinnamon-project

    A shallow embedding of [src/struct/generic/feature_tree.mts] (the generic
    [FeatureNode] / [FeatureForest] classes) and of the reference catalog
    built by [createCinnamonFeatureForest] in [src/struct/project.mts].

    Modelling conventions.
    - A [FeatureNode] object is a rose-tree node: metadata, the array of
      children it owns and the mutable [enabled] flag.  Ownership is that of
      a strict tree (no node object is stored twice), so the identity of a
      node object is its position in the topology: a reference ([NodeRef])
      is the list of child indices leading from the roots to the node.
    - A thrown [Error] or [TypeError] is a [Throw] result; methods that
      mutate the forest are state-passing functions returning the outcome
      together with the forest as it is left behind.
    - [level] arguments are integers ([Z]).  Identifiers are any type with a
      decidable equality (strings or non-NaN numbers in the source). *)

From Equations Require Import Equations.
From Stdlib Require Import List Arith ZArith Bool String Lia Sorted.
Import ListNotations.

Set Implicit Arguments.
Set Warnings "-register-all".

(** * The model *)

Section Model.

Context {T : Type} `{EqDec T}.

(** ** Data *)

(** [FeatureNodeMetadata<T>] *)
Record FeatureNodeMetadata := feature {
  id : T;
  name : string;
  description : string
}.

(** [FeatureNode<T>]: [metadata], the private [_children] and [enabled]. *)
Inductive FeatureNode := mkFeatureNode {
  metadata : FeatureNodeMetadata;
  _children : list FeatureNode;
  enabled : bool
}.

(** The getter [children] returns a copy of the array with the same node
    objects in the same order. *)
Definition children (self : FeatureNode) : list FeatureNode := _children self.

(** ** Exceptions *)

(** What a [throw] (or a failing property access) raises. *)
Inductive Exception :=
| DuplicateFeatureIds                (* "Duplicate feature IDs found ..." *)
| DuplicateFeatureId (dup : T)       (* "Duplicate feature ID: ${id} ..." *)
| TypeError.                         (* property access on [undefined] *)

Inductive result (A : Type) :=
| Ok (a : A)
| Throw (e : Exception).
Arguments Ok {A} a.
Arguments Throw {A} e.

Definition bind {A B} (r : result A) (k : A -> result B) : result B :=
  match r with
  | Ok a => k a
  | Throw e => Throw e
  end.

Notation "x <- c ;; k" := (bind c (fun x => k))
  (at level 61, c at next level, right associativity).

(** [for (const x of xs) body(x)], aborted by the first exception. *)
Definition for_of {A} (body : A -> result unit) : list A -> result unit :=
  fix loop (xs : list A) : result unit :=
    match xs with
    | [] => Ok tt
    | x :: rest => _ <- body x ;; loop rest
    end.

(** [a === b] on identifiers, [ids.includes(x)] and [new Set(ids).size]. *)
Definition strict_eq (a b : T) : bool :=
  if eq_dec a b then true else false.

Definition includes (ids : list T) (x : T) : bool :=
  existsb (strict_eq x) ids.

Definition Set_size (ids : list T) : nat :=
  List.length (nodup eq_dec ids).

(** ** FeatureNode.checkChildren *)

Fixpoint checkChildren (self : FeatureNode) (parentIds : list T) {struct self}
  : result unit :=
  (* First check that no two siblings have the same ID. *)
  let ids := map (fun child => id (metadata child)) (_children self) in
  if negb (Set_size ids =? List.length ids) then Throw DuplicateFeatureIds
  else
    (* Then recursively check each of the children. *)
    for_of (fun child =>
              if includes parentIds (id (metadata child))
              then Throw (DuplicateFeatureId (id (metadata child)))
              else checkChildren child (parentIds ++ [id (metadata child)]))
           (_children self).

(** ** FeatureForest *)

Record FeatureForest := mkFeatureForest {
  _topology : list FeatureNode
}.

(** The constructor: the object exists only when no check throws. *)
Definition FeatureForest_new (topology : list FeatureNode) : result FeatureForest :=
  let this := mkFeatureForest topology in
  (* Check that no two siblings have the same ID. *)
  let ids := map (fun child => id (metadata child)) (_topology this) in
  if negb (Set_size ids =? List.length ids) then Throw DuplicateFeatureIds
  else
    (* Check each of the children. *)
    _ <- for_of (fun node =>
                   checkChildren node
                     (map (fun node => id (metadata node)) (_topology this)))
                (_topology this) ;;
    Ok this.

(** ** References to node objects *)

(** A reference to a node object: the indices to follow from the roots. *)
Definition NodeRef := list nat.

(** The node object a reference points to. *)
Fixpoint deref (topology : list FeatureNode) (ref : NodeRef) : option FeatureNode :=
  match ref with
  | [] => None
  | i :: rest =>
      match nth_error topology i with
      | None => None
      | Some node =>
          match rest with
          | [] => Some node
          | _ :: _ => deref (_children node) rest
          end
      end
  end.

(** [xs] with [f] applied to the element at index [i], if there is one. *)
Definition update_nth {A} (f : A -> A) : nat -> list A -> list A :=
  fix go (i : nat) (xs : list A) {struct xs} : list A :=
    match xs, i with
    | [], _ => []
    | x :: rest, O => f x :: rest
    | x :: rest, S j => x :: go j rest
    end.

(** The assignment [node.enabled = value] through a reference: only the
    flag of the referenced object changes. *)
Fixpoint assign_enabled (ref : NodeRef) (value : bool) (topology : list FeatureNode)
  : list FeatureNode :=
  match ref with
  | [] => topology
  | i :: rest =>
      update_nth
        (fun node =>
           match rest with
           | [] => mkFeatureNode (metadata node) (_children node) value
           | _ :: _ =>
               mkFeatureNode (metadata node)
                 (assign_enabled rest value (_children node)) (enabled node)
           end)
        i topology
  end.

(** What is stored in a node object itself: its metadata and its flag. *)
Definition stored (l : list FeatureNode) (ref : NodeRef)
  : option (FeatureNodeMetadata * bool) :=
  option_map (fun n => (metadata n, enabled n)) (deref l ref).

(** [xs.find(p)], as the index of the element it returns. *)
Definition find_index {A} (p : A -> bool) : list A -> option nat :=
  fix go (xs : list A) : option nat :=
    match xs with
    | [] => None
    | x :: rest => if p x then Some 0 else option_map S (go rest)
    end.

(** [for (const x of xs) { const r = body(x); if (r) return r; }] followed
    by the implicit [return undefined]; [i] is the index of the head. *)
Definition for_return {A B} (body : nat -> A -> result (option B))
  : nat -> list A -> result (option B) :=
  fix loop (i : nat) (xs : list A) : result (option B) :=
    match xs with
    | [] => Ok None
    | x :: rest =>
        r <- body i x ;;
        match r with
        | Some found => Ok (Some found)
        | None => loop (S i) rest
        end
    end.

(** ** FeatureForest.findNodeInTopology *)

(** The search below one node, that is
    [new FeatureForest(node.children).findNodeInTopology(id)]: the
    sub-forest is constructed (and so validated) first; the reference
    returned is relative to [node.children]. *)
Fixpoint findNodeInChildren (node : FeatureNode) (wanted : T) {struct node}
  : result (option NodeRef) :=
  _ <- FeatureForest_new (children node) ;;
  match find_index (fun n => strict_eq (id (metadata n)) wanted) (_children node) with
  | Some i => Ok (Some [i])
  | None =>
      for_return
        (fun i n => r <- findNodeInChildren n wanted ;; Ok (option_map (cons i) r))
        0 (_children node)
  end.

Definition findNodeInTopology (this : FeatureForest) (wanted : T)
  : result (option NodeRef) :=
  match find_index (fun node => strict_eq (id (metadata node)) wanted) (_topology this) with
  | Some i => Ok (Some [i])
  | None =>
      for_return
        (fun i node => r <- findNodeInChildren node wanted ;; Ok (option_map (cons i) r))
        0 (_topology this)
  end.

(** ** Level queries *)

Fixpoint node_size (node : FeatureNode) : nat :=
  S (list_sum (map node_size (_children node))).

Definition forest_size (nodes : list FeatureNode) : nat :=
  list_sum (map node_size nodes).

Lemma forest_size_app (xs ys : list FeatureNode) :
  forest_size (xs ++ ys) = forest_size xs + forest_size ys.
Proof.
  unfold forest_size. rewrite map_app, list_sum_app. reflexivity.
Qed.

Lemma forest_size_cons (n : FeatureNode) (nodes : list FeatureNode) :
  forest_size (n :: nodes) = S (forest_size (children n)) + forest_size nodes.
Proof. destruct n; reflexivity. Qed.

(** [nodes.filter(node => node.enabled).flatMap(node => node.children)] *)
Definition nextNodes (nodes : list FeatureNode) : list FeatureNode :=
  flat_map children (filter enabled nodes).

Lemma forest_size_children_enabled (nodes : list FeatureNode) :
  forest_size (flat_map children (filter enabled nodes)) <= forest_size nodes.
Proof.
  induction nodes as [|n nodes IH]; simpl; [lia|].
  rewrite forest_size_cons.
  destruct (enabled n); simpl; [rewrite forest_size_app|]; lia.
Qed.

Lemma forest_size_filter (p : FeatureNode -> bool) (nodes : list FeatureNode) :
  forest_size (filter p nodes) <= forest_size nodes.
Proof.
  induction nodes as [|n nodes IH]; simpl; [lia|].
  rewrite forest_size_cons. destruct (p n); [rewrite forest_size_cons|]; lia.
Qed.

Lemma forest_size_enabled_children (nodes : list FeatureNode) :
  forest_size (flat_map (fun node => filter enabled (children node)) nodes)
  <= forest_size nodes.
Proof.
  induction nodes as [|n nodes IH]; simpl; [lia|].
  rewrite forest_size_cons, forest_size_app.
  pose proof (forest_size_filter enabled (children n)). lia.
Qed.

Lemma forest_size_next_level (nodes : list FeatureNode) :
  flat_map children (filter enabled nodes) <> [] ->
  forest_size (flat_map children (filter enabled nodes)) < forest_size nodes.
Proof.
  induction nodes as [|n nodes IH]; simpl; [congruence|].
  rewrite forest_size_cons.
  destruct (enabled n); simpl; intros Hne.
  - rewrite forest_size_app.
    pose proof (forest_size_children_enabled nodes). lia.
  - specialize (IH Hne). lia.
Qed.

(** A value together with the equation that names it, so that a recursive
    call can remember which expression it was computed from. *)
Definition inspect {A} (a : A) : {b : A | a = b} := exist _ a eq_refl.

Equations? _computeFeaturesForLevel (level : Z) (nodes : list FeatureNode)
  (currentLevel : Z) : list FeatureNodeMetadata by wf (forest_size nodes) lt :=
  _computeFeaturesForLevel level nodes currentLevel with Z.eqb currentLevel level := {
    (* If the current level is the level we're looking for, return the
       metadata for all features at this level. *)
    | true => map metadata nodes
    (* Otherwise, return all features at the given level where the parent
       feature is enabled. *)
    | false with inspect (List.length (nextNodes nodes) =? 0) := {
        (* If there are no more nodes, return an empty array. *)
        | exist _ true _ => []
        | exist _ false Hlength =>
            _computeFeaturesForLevel level (nextNodes nodes) (currentLevel + 1) } }.
Proof.
  apply forest_size_next_level. intros Hnil. fold (nextNodes nodes) in Hnil.
  rewrite Hnil in Hlength. discriminate.
Qed.

Definition getFeaturesForLevel (this : FeatureForest) (level : Z)
  : list FeatureNodeMetadata :=
  (* If the level is 0, return all top-level features, regardless of
     whether they are enabled or not. *)
  if (level =? 0)%Z then map metadata (_topology this)
  else _computeFeaturesForLevel level (_topology this) 0.

(** ** Parent, stored flag and the bulk query *)

(** A [feature] argument is an identifier or a metadata object
    ([typeof(feature) === 'object'] selects the latter, whose [id] is used). *)
Inductive FeatureArg :=
| ById (i : T)
| ByMetadata (m : FeatureNodeMetadata).

Definition feature_id (feature : FeatureArg) : T :=
  match feature with
  | ById i => i
  | ByMetadata m => id m
  end.

(** [currentNode.children.includes(node)] for the root [currentNode] at
    index [i]: [includes] compares object identities, so it holds exactly
    when [node] refers to one of the children stored in that root. *)
Definition children_include (i : nat) (currentNode : FeatureNode)
  (node : option NodeRef) : bool :=
  match node with
  | Some [i'; j] => (i' =? i) && (j <? List.length (children currentNode))
  | _ => false
  end.

(** [xs.find(p)] where [p] may look at the position of the element. *)
Definition find_at {A} (p : nat -> A -> bool) : nat -> list A -> option A :=
  fix go (i : nat) (xs : list A) : option A :=
    match xs with
    | [] => None
    | x :: rest => if p i x then Some x else go (S i) rest
    end.

(** Declared to return [FeatureNodeMetadata<T> | undefined]; [parent!.metadata]
    on an [undefined] parent is a [TypeError]. *)
Definition getParentOf (this : FeatureForest) (feature : FeatureArg)
  : result (option FeatureNodeMetadata) :=
  let feature := feature_id feature in
  node <- findNodeInTopology this feature ;;
  let parent :=
    find_at (fun i currentNode => children_include i currentNode node)
            0 (_topology this) in
  match parent with
  | Some parent => Ok (Some (metadata parent))
  | None => Throw TypeError
  end.

(** [this.findNodeInTopology(feature)?.enabled ?? false] *)
Definition get (this : FeatureForest) (feature : FeatureArg) : result bool :=
  let feature := feature_id feature in
  node <- findNodeInTopology this feature ;;
  match node with
  | Some ref =>
      match deref (_topology this) ref with
      | Some node => Ok (enabled node)
      | None => Ok false
      end
  | None => Ok false
  end.

(** The [while (search.length > 0)] loop of [getAllEnabled]. *)
Equations? getAllEnabled_while (search : list FeatureNode)
  (enabled_ : list FeatureNodeMetadata) : list FeatureNodeMetadata
  by wf (forest_size search) lt :=
  getAllEnabled_while [] enabled_ := enabled_;
  getAllEnabled_while (node :: rest) enabled_ :=
    getAllEnabled_while
      (* Then, search the children of all enabled features. *)
      (flat_map (fun node => filter enabled (children node)) (node :: rest))
      (* Add all enabled features from the search list to the list. *)
      (enabled_ ++ map metadata (node :: rest)).
Proof.
  rewrite forest_size_cons, forest_size_app.
  pose proof (forest_size_filter enabled (children node)).
  pose proof (forest_size_enabled_children rest).
  lia.
Qed.

Definition getAllEnabled (this : FeatureForest) : list FeatureNodeMetadata :=
  (* Start with the top level features that are enabled. *)
  getAllEnabled_while (filter enabled (_topology this)) [].

(** ** Mutation *)

(** A method that may assign to node objects: its outcome and the forest
    afterwards.  An exception leaves the assignments made so far in place. *)
Definition Mutation (A : Type) : Type := result A * FeatureForest.

(** [this.findNodeInTopology(feature)!.enabled = enabled]: assigning through
    [undefined] is a [TypeError]. *)
Definition set (this : FeatureForest) (feature : FeatureArg) (value : bool)
  : Mutation unit :=
  let feature := feature_id feature in
  match findNodeInTopology this feature with
  | Throw e => (Throw e, this)
  | Ok None => (Throw TypeError, this)
  | Ok (Some ref) =>
      (Ok tt, mkFeatureForest (assign_enabled ref value (_topology this)))
  end.

Definition enable (this : FeatureForest) (feature : FeatureArg) : Mutation unit :=
  set this feature true.

Definition disable (this : FeatureForest) (feature : FeatureArg) : Mutation unit :=
  set this feature false.

(** [xs.forEach(x => method(x))] for a mutating method. *)
Definition forEach {A} (method : FeatureForest -> A -> Mutation unit)
  : list A -> FeatureForest -> Mutation unit :=
  fix loop (xs : list A) (this : FeatureForest) : Mutation unit :=
    match xs with
    | [] => (Ok tt, this)
    | x :: rest =>
        match method this x with
        | (Ok _, this') => loop rest this'
        | (Throw e, this') => (Throw e, this')
        end
    end.

Definition enableAll (this : FeatureForest) (features : list FeatureArg)
  : Mutation unit :=
  forEach enable features this.

Definition disableAll (this : FeatureForest) (features : list FeatureArg)
  : Mutation unit :=
  forEach disable features this.

(** ** Identifiers of a topology *)

(** Every identifier registered below (and at) a node, in document order. *)
Fixpoint node_ids (self : FeatureNode) : list T :=
  id (metadata self) :: flat_map node_ids (_children self).

Definition forest_ids (topology : list FeatureNode) : list T :=
  flat_map node_ids topology.

(** The invariant of the data model: identifiers are globally unique, that
    is no two nodes anywhere in the forest share one.  Such a topology
    passes every check of the constructor ([FeatureForest_new_unique]). *)
Definition valid (this : FeatureForest) : Prop :=
  NoDup (forest_ids (_topology this)).

(** ** Depths *)

(** The number of nodes on the longest chain of enabled nodes that starts
    at [self] and follows parent-to-child links ([0] when [self] is
    disabled). *)
Fixpoint node_enabled_depth (self : FeatureNode) : nat :=
  if enabled self
  then S (list_max (map node_enabled_depth (_children self)))
  else 0.

(** The depth of the longest chain of enabled nodes starting at a root. *)
Definition enabled_depth (nodes : list FeatureNode) : nat :=
  list_max (map node_enabled_depth nodes).

Fixpoint node_height (self : FeatureNode) : nat :=
  S (list_max (map node_height (_children self))).

(** The number of levels of a topology: its deepest node sits at level
    [forest_height - 1], the roots being level 0. *)
Definition forest_height (nodes : list FeatureNode) : nat :=
  list_max (map node_height nodes).

(** ** Chains of enabled nodes *)

(** The stored flag of the referenced node and of each of its ancestors is
    true. *)
Fixpoint chain_enabled (topology : list FeatureNode) (ref : NodeRef) : bool :=
  match ref with
  | [] => false
  | i :: rest =>
      match nth_error topology i with
      | None => false
      | Some node =>
          enabled node &&
          match rest with
          | [] => true
          | _ :: _ => chain_enabled (_children node) rest
          end
      end
  end.

(** The nodes the loop of [getAllEnabled] visits from a search list: the
    list itself, then whatever is visited from the enabled children of one
    of its elements. *)
#[local] Unset Implicit Arguments.
Inductive Visited : list FeatureNode -> FeatureNode -> Prop :=
| Visited_here (search : list FeatureNode) (n : FeatureNode) :
    In n search -> Visited search n
| Visited_below (search : list FeatureNode) (r n : FeatureNode) :
    In r search -> Visited (filter enabled (children r)) n -> Visited search n.
#[local] Set Implicit Arguments.

(** ** Sequences of calls *)

Inductive Call :=
| CallSet (feature : FeatureArg) (value : bool)
| CallEnable (feature : FeatureArg)
| CallDisable (feature : FeatureArg)
| CallEnableAll (features : list FeatureArg)
| CallDisableAll (features : list FeatureArg).

Definition perform (this : FeatureForest) (call : Call) : Mutation unit :=
  match call with
  | CallSet target value => set this target value
  | CallEnable target => enable this target
  | CallDisable target => disable this target
  | CallEnableAll features => enableAll this features
  | CallDisableAll features => disableAll this features
  end.

(** The forest after a sequence of calls, each of which returned or threw. *)
Definition after_calls (calls : list Call) (this : FeatureForest) : FeatureForest :=
  fold_left (fun this call => snd (perform this call)) calls this.

(** [node(metadata, children?, options?)] *)
Definition node (metadata : FeatureNodeMetadata)
  (children : option (list FeatureNode)) (options : option (option bool))
  : FeatureNode :=
  mkFeatureNode metadata
    (match children with Some cs => cs | None => [] end)
    (match options with Some (Some e) => e | _ => false end).

(** [forest(topology)] *)
Definition forest (topology : list FeatureNode) : result FeatureForest :=
  FeatureForest_new topology.

End Model.

Arguments Ok {T A} a.
Arguments Throw {T A} e.
Arguments TypeError {T}.
Arguments DuplicateFeatureIds {T}.

(** ** The reference catalog ([src/struct/project.mts]) *)

Inductive CinnamonProjectFeatureType :=
| VALIDATOR
| DATABASE
| AUTHENTICATION
| PUSH_TOKENS
| ASSET
| AVATAR
| ASL_PROTOCOL
| ASL_ERRORS
| WEBSERVER_SETTINGS_PLUGIN.

Derive NoConfusion EqDec for CinnamonProjectFeatureType.

Definition CinnamonProjectFeature (type : CinnamonProjectFeatureType)
  : FeatureNodeMetadata (T := CinnamonProjectFeatureType) :=
  match type with
  | VALIDATOR =>
      feature VALIDATOR "Cinnamon Validator"
        "Provides data validation with human-readable error messages."
  | DATABASE =>
      feature DATABASE "Cinnamon Database (powered by MikroORM)"
        "Connect to a database and manage data with MikroORM."
  | AUTHENTICATION =>
      feature AUTHENTICATION "Authentication"
        "Manage user accounts and authenticate users."
  | PUSH_TOKENS =>
      feature PUSH_TOKENS "Push Tokens"
        "Support for associating push tokens for mobile devices with a user session."
  | ASSET =>
      feature ASSET "Assets"
        "Support for storing assets (e.g., profile avatars/pictures) for users."
  | AVATAR =>
      feature AVATAR "Avatars"
        "Support for storing profile pictures for users."
  | ASL_PROTOCOL =>
      feature ASL_PROTOCOL "Apollo Software Limited (ASL) Protocol"
        "Installs the asl-protocol plugin. Adds ASL's request-response middlewares and several convenience features to Cinnamon."
  | ASL_ERRORS =>
      feature ASL_ERRORS "ASL Errors"
        "Adds project/domain-specific error codes and handling to your project. Useful for API projects."
  | WEBSERVER_SETTINGS_PLUGIN =>
      feature WEBSERVER_SETTINGS_PLUGIN "Webserver Settings Plugin"
        "Adds a plugin to your project that allows configuring the proxy mode of the webserver. Useful as a starting point for your own plugins."
  end.

Definition cinnamonTopology : list (FeatureNode (T := CinnamonProjectFeatureType)) :=
  [ node (CinnamonProjectFeature VALIDATOR) None None;
    node (CinnamonProjectFeature DATABASE) (Some [
      node (CinnamonProjectFeature AUTHENTICATION) (Some [
        node (CinnamonProjectFeature PUSH_TOKENS) None None
      ]) None;
      node (CinnamonProjectFeature ASSET) (Some [
        node (CinnamonProjectFeature AVATAR) None None
      ]) None
    ]) None;
    node (CinnamonProjectFeature ASL_PROTOCOL) None None;
    node (CinnamonProjectFeature ASL_ERRORS) None None;
    node (CinnamonProjectFeature WEBSERVER_SETTINGS_PLUGIN) None None ].

Definition createCinnamonFeatureForest
  : result (T := CinnamonProjectFeatureType) FeatureForest :=
  forest cinnamonTopology.

(** The forest [createCinnamonFeatureForest] returns. *)
Definition cinnamon : FeatureForest (T := CinnamonProjectFeatureType) :=
  mkFeatureForest cinnamonTopology.

(** Two cousins registered under the same identifier:
    [forest([node(DATABASE, [node(AVATAR)]), node(VALIDATOR, [node(AVATAR)])])]. *)
Definition cousinsTopology : list (FeatureNode (T := CinnamonProjectFeatureType)) :=
  [ node (CinnamonProjectFeature DATABASE) (Some [
      node (CinnamonProjectFeature AVATAR) None None
    ]) None;
    node (CinnamonProjectFeature VALIDATOR) (Some [
      node (CinnamonProjectFeature AVATAR) None None
    ]) None ].

(** A forest in which [AVATAR] is not registered:
    [forest([node(DATABASE, [node(AUTHENTICATION)])])]. *)
Definition smallForest : FeatureForest (T := CinnamonProjectFeatureType) :=
  mkFeatureForest
    [ node (CinnamonProjectFeature DATABASE) (Some [
        node (CinnamonProjectFeature AUTHENTICATION) None None
      ]) None ].

(** The catalog after [enableAll([DATABASE, PUSH_TOKENS])]: [PUSH_TOKENS]
    is stored as enabled below the disabled [AUTHENTICATION]. *)
Definition cinnamonPushOnly : FeatureForest (T := CinnamonProjectFeatureType) :=
  snd (enableAll cinnamon [ById DATABASE; ById PUSH_TOKENS]).

(** The catalog after [enable(DATABASE)]. *)
Definition cinnamonDatabase : FeatureForest (T := CinnamonProjectFeatureType) :=
  snd (enable cinnamon (ById DATABASE)).

(** The node object of [DATABASE] once enabled. *)
Definition enabledDatabaseNode : FeatureNode (T := CinnamonProjectFeatureType) :=
  mkFeatureNode (CinnamonProjectFeature DATABASE)
    [ node (CinnamonProjectFeature AUTHENTICATION) (Some [
        node (CinnamonProjectFeature PUSH_TOKENS) None None
      ]) None;
      node (CinnamonProjectFeature ASSET) (Some [
        node (CinnamonProjectFeature AVATAR) None None
      ]) None ]
    true.

(** The node object of [PUSH_TOKENS] once enabled. *)
Definition enabledPushTokensNode : FeatureNode (T := CinnamonProjectFeatureType) :=
  mkFeatureNode (CinnamonProjectFeature PUSH_TOKENS) [] true.

(** * The rest of the forest interface and its callers *)

Section ForestInterface.

Context {T : Type} `{EqDec T}.

Local Abbreviation FeatureNode := (FeatureNode (T := T)).
Local Abbreviation FeatureForest := (FeatureForest (T := T)).
Local Abbreviation result := (result (T := T)).

Notation "x <- c ;; k" := (bind c (fun x => k))
  (at level 61, c at next level, right associativity).

(** [xs.filter(p)] for a callback that may throw: the callback runs on the
    elements in order and the first exception aborts the filter. *)
Definition filter_throwing {A} (p : A -> result bool) : list A -> result (list A) :=
  fix loop (xs : list A) : result (list A) :=
    match xs with
    | [] => Ok []
    | x :: rest =>
        keep <- p x ;;
        kept <- loop rest ;;
        Ok (if keep then x :: kept else kept)
    end.

(** [this.getFeaturesForLevel(level).filter(feature => this.get(feature))] *)
Definition getEnabledFeaturesForLevel (this : FeatureForest) (level : Z)
  : result (list FeatureNodeMetadata) :=
  filter_throwing (fun feature => get this (ByMetadata feature))
                  (getFeaturesForLevel this level).

(** The candidate set of the level walk after [k] steps down. *)
Fixpoint nodesAtLevel (k : nat) (nodes : list FeatureNode) : list FeatureNode :=
  match k with
  | O => nodes
  | S k' => nodesAtLevel k' (nextNodes nodes)
  end.

(** The reference resolves and the stored flag of every proper ancestor of
    the referenced node is true (the flag of the node itself is not looked
    at). *)
Fixpoint ancestors_enabled (topology : list FeatureNode) (ref : NodeRef) : bool :=
  match ref with
  | [] => false
  | i :: rest =>
      match nth_error topology i with
      | None => false
      | Some node =>
          match rest with
          | [] => true
          | _ :: _ => enabled node && ancestors_enabled (_children node) rest
          end
      end
  end.

(** A node with every stored flag below and at it cleared: what is left is
    the topology (metadata, children and their order). *)
Fixpoint reset (self : FeatureNode) : FeatureNode :=
  mkFeatureNode (metadata self) (map reset (_children self)) false.

(** [a] is a prefix of [b]: the node at [a] is the node at [b] or one of its
    ancestors. *)
Fixpoint is_prefix (a b : NodeRef) : bool :=
  match a, b with
  | [], _ => true
  | i :: a', j :: b' => (i =? j) && is_prefix a' b'
  | _ :: _, [] => false
  end.

(** Flags only go from false to true between two forests of one topology. *)
Definition flags_grow (l l1 : list FeatureNode) : Prop :=
  forall ref n,
    deref l ref = Some n ->
    exists n1, deref l1 ref = Some n1 /\ metadata n1 = metadata n
               /\ (enabled n = true -> enabled n1 = true).

(** Every node whose stored flag is set has all its ancestors set too. *)
Definition ancestors_closed (l : list FeatureNode) : Prop :=
  forall ref n,
    deref l ref = Some n -> enabled n = true -> chain_enabled l ref = true.

(** ** The prompt driver ([askUserForProjectFeatures]) *)

(** The subscriber of the prompt, run on the answers the user gives one
    after the other ([answer.answer] is the list of ticked identifiers).
    It returns the follow-up questions it asked (each the features offered)
    and whether it completed the prompt; with no answer left the prompt is
    still waiting. *)
Fixpoint subscriber (answers : list (list T)) (level : Z) (this : FeatureForest)
  : Mutation (list (list FeatureNodeMetadata) * bool) :=
  match answers with
  | [] => (Ok ([], false), this)
  | answer :: later =>
      (* Enable all of the selected features. *)
      match enableAll this (map ById answer) with
      | (Throw e, this) => (Throw e, this)
      | (Ok _, this) =>
          let level := (level + 1)%Z in
          let features := getFeaturesForLevel this level in
          (* If there are no more features at this level, we're done. *)
          if List.length features =? 0 then (Ok ([], true), this)
          else
            (* otherwise, ask the next question. *)
            match subscriber later level this with
            | (Ok (asked, done), this) => (Ok (features :: asked, done), this)
            | (Throw e, this) => (Throw e, this)
            end
      end
  end.

(** The whole dialogue: the initial question, then the subscriber. *)
Definition askUserForProjectFeatures (this : FeatureForest) (answers : list (list T))
  : Mutation (list (list FeatureNodeMetadata) * bool) :=
  let level := 0%Z in
  (* Ask the initial question. *)
  let features := getFeaturesForLevel this level in
  match subscriber answers level this with
  | (Ok (asked, done), this) => (Ok (features :: asked, done), this)
  | (Throw e, this) => (Throw e, this)
  end.

End ForestInterface.

(** * Text utilities ([src/utils/language.mts], [src/utils/arguments.mts]) *)

(** A JavaScript string is a sequence of UTF-16 code units; the functions
    below only ever inspect code units in the ASCII range. *)
Definition CodeUnit := nat.
Definition JsString := list CodeUnit.

Definition HYPHEN : CodeUnit := 45.

(** [[A-Z]], [[a-z]] and [[A-Za-z]] *)
Definition is_upper (c : CodeUnit) : bool := (65 <=? c) && (c <=? 90).
Definition is_lower (c : CodeUnit) : bool := (97 <=? c) && (c <=? 122).
Definition is_letter (c : CodeUnit) : bool := is_upper c || is_lower c.

(** [str.replace(/[^A-Za-z]/g, '-')] *)
Definition replace_non_letters (str : JsString) : JsString :=
  map (fun c => if is_letter c then c else HYPHEN) str.

(** The rest of the piece being read and the pieces after it, when the
    split points are the positions in front of an upper-case letter. *)
Fixpoint split_rest (str : JsString) : JsString * list JsString :=
  match str with
  | [] => ([], [])
  | c :: rest =>
      let (piece, others) := split_rest rest in
      if is_upper c then ([], (c :: piece) :: others) else (c :: piece, others)
  end.

(** [str.split(/(?=[A-Z])/)]: the string is cut in front of every
    upper-case letter except one at index 0 (an empty match at the start
    cuts nothing); the empty string gives one empty piece. *)
Definition split_before_upper (str : JsString) : list JsString :=
  match str with
  | [] => [[]]
  | c :: rest => let (piece, others) := split_rest rest in (c :: piece) :: others
  end.

(** [pieces.join(separator)] *)
Fixpoint join (separator : JsString) (pieces : list JsString) : JsString :=
  match pieces with
  | [] => []
  | [piece] => piece
  | piece :: rest => piece ++ separator ++ join separator rest
  end.

(** [str.replace(/-+/gi, '-')]: every maximal run of hyphens becomes one
    hyphen (a hyphen followed by a hyphen is dropped). *)
Fixpoint collapse_hyphens (str : JsString) : JsString :=
  match str with
  | [] => []
  | c :: rest =>
      if (c =? HYPHEN) && match rest with d :: _ => d =? HYPHEN | [] => false end
      then collapse_hyphens rest
      else c :: collapse_hyphens rest
  end.

(** [str.toLowerCase()] on a string of ASCII letters and hyphens, which is
    all [kebabify] applies it to. *)
Definition toLowerCase (str : JsString) : JsString :=
  map (fun c => if is_upper c then c + 32 else c) str.

Definition kebabify (str : JsString) : JsString :=
  toLowerCase
    (collapse_hyphens
       (join [HYPHEN] (split_before_upper (replace_non_letters str)))).

(** [arg.startsWith('-')] *)
Definition startsWith_hyphen (arg : JsString) : bool :=
  match arg with
  | c :: _ => c =? HYPHEN
  | [] => false
  end.

(** The [Arguments] class: the raw arguments and the two arrays its
    constructor derives from them. *)
Record Arguments := mkArguments {
  args : list JsString;
  positional : list JsString;
  flags : list JsString
}.

Definition Arguments_new (args : list JsString) : Arguments :=
  mkArguments args
    (filter (fun arg => negb (startsWith_hyphen arg)) args)
    (filter (fun arg => startsWith_hyphen arg) args).

Definition count (this : Arguments) : nat := List.length (args this).
Definition hasNoArguments (this : Arguments) : bool := count this =? 0.
Definition hasArguments (this : Arguments) : bool := 0 <? count this.
Definition hasNoPositionalArguments (this : Arguments) : bool :=
  List.length (positional this) =? 0.
Definition hasPositionalArguments (this : Arguments) : bool :=
  0 <? List.length (positional this).
Definition hasNoFlags (this : Arguments) : bool := List.length (flags this) =? 0.
Definition hasFlags (this : Arguments) : bool := 0 <? List.length (flags this).

(** A code unit of the kebab alphabet before lower-casing. *)
Definition letter_or_hyphen (c : CodeUnit) : Prop :=
  is_letter c = true \/ c = HYPHEN.

(** No two neighbouring code units are both hyphens. *)
Fixpoint no_double_hyphen (str : JsString) : Prop :=
  match str with
  | [] => True
  | c :: rest =>
      match rest with
      | [] => True
      | d :: _ => ~ (c = HYPHEN /\ d = HYPHEN)
      end /\ no_double_hyphen rest
  end.


(** * Deleting blocks from a template ([CinnamonProject.configure]) *)

(** A deletion [[start, end]] pushed by [configure]: the code units at the
    indices [start <= p < end] of [contents] are to be left out. *)
Abbreviation Deletion := (nat * nat)%type.

(** [deletions.sort((a, b) => a[0] - b[0])]: [Array.prototype.sort] is a
    stable sort, here by the start of the deletions. *)
Fixpoint insert_by_start (d : Deletion) (sorted : list Deletion) : list Deletion :=
  match sorted with
  | [] => [d]
  | d' :: rest =>
      if fst d <=? fst d' then d :: d' :: rest
      else d' :: insert_by_start d rest
  end.

Definition sort_by_start (deletions : list Deletion) : list Deletion :=
  fold_right insert_by_start [] deletions.

(** [deletions.splice(index, 1)] *)
Definition splice1 {A} (index : nat) (xs : list A) : list A :=
  firstn index xs ++ skipn (S index) xs.

Lemma length_update_nth {A} (f : A -> A) (i : nat) (xs : list A) :
  List.length (update_nth f i xs) = List.length xs.
Proof.
  revert i. induction xs as [|x xs IH]; intros i; simpl; [reflexivity|].
  destruct i; simpl; [|rewrite IH]; reflexivity.
Qed.

(** The loop
    [for (let i = 0; i < deletions.length - 1; i++) { ... }] that merges
    deletions that overlap, from the value [i] of its counter on; a merge
    ends with [i--], so that the next round looks at the same index. *)
Equations? merge_loop (deletions : list Deletion) (i : nat) : list Deletion
  by wf (List.length deletions - i) lt :=
  merge_loop deletions i with inspect (i + 1 <? List.length deletions) := {
    | exist _ false _ => deletions
    | exist _ true Hinside
        with inspect (fst (nth (i + 1) deletions (0, 0))
                      <=? snd (nth i deletions (0, 0))) := {
        (* start2 <= end1 *)
        | exist _ true _ =>
            merge_loop
              (splice1 (i + 1)
                 (update_nth
                    (fun _ => (fst (nth i deletions (0, 0)),
                               Nat.max (snd (nth i deletions (0, 0)))
                                       (snd (nth (i + 1) deletions (0, 0)))))
                    i deletions))
              i
        | exist _ false _ => merge_loop deletions (i + 1) } }.
Proof.
  - apply Nat.ltb_lt in Hinside. unfold splice1.
    rewrite length_app, length_firstn, length_skipn, length_update_nth. lia.
  - apply Nat.ltb_lt in Hinside. lia.
Qed.

(** The deletions after sorting and merging. *)
Definition merge_deletions (deletions : list Deletion) : list Deletion :=
  merge_loop (sort_by_start deletions) 0.

(** [str.substring(from, to)] and [str.substring(from)]: the arguments are
    clamped to the length and swapped when [from > to]. *)
Definition substring (str : JsString) (from to : nat) : JsString :=
  firstn (Nat.max from to - Nat.min from to) (skipn (Nat.min from to) str).

Definition substring_from (str : JsString) (from : nat) : JsString :=
  skipn from str.

(** The loop that builds the new contents from the pieces between the
    deletions, then the rest after the last deletion. *)
Fixpoint build_contents (contents : JsString) (deletions : list Deletion)
  (lastEnd : nat) (newContents : JsString) : JsString :=
  match deletions with
  | [] => newContents ++ substring_from contents lastEnd
  | (start, end_) :: rest =>
      build_contents contents rest end_
        (newContents ++ substring contents lastEnd start)
  end.

Definition EOL : CodeUnit := 10.

(** [str.startsWith('\n')] and [str.endsWith('\n')] *)
Definition startsWith_eol (str : JsString) : bool :=
  match str with
  | c :: _ => c =? EOL
  | [] => false
  end.

Definition endsWith_eol (str : JsString) : bool :=
  match rev str with
  | c :: _ => c =? EOL
  | [] => false
  end.

(** The two steps named "ensure the file does not start with an EOL" and
    "ensure the file ends with an EOL". *)
Definition ensure_eol (newContents : JsString) : JsString :=
  let newContents :=
    if startsWith_eol newContents then substring_from newContents 1
    else newContents in
  if negb (endsWith_eol newContents) then newContents ++ [EOL]
  else newContents.

(** What [configure] writes for [contents] and its list of deletions, up
    to the substitution of the placeholders. *)
Definition delete_blocks (contents : JsString) (deletions : list Deletion)
  : JsString :=
  ensure_eol (build_contents contents (merge_deletions deletions) 0 []).

(** The index [p] lies inside one of the deletions. *)
Definition covered (p : nat) (deletions : list Deletion) : bool :=
  existsb (fun d => (fst d <=? p) && (p <? snd d)) deletions.

(** The code units of [str], whose first index is [offset], that lie
    outside every deletion. *)
Fixpoint outside (offset : nat) (str : JsString) (deletions : list Deletion)
  : JsString :=
  match str with
  | [] => []
  | c :: rest =>
      if covered offset deletions then outside (S offset) rest deletions
      else c :: outside (S offset) rest deletions
  end.

(** The result of the merging loop on the deletions from [d] on, written
    without indices. *)
Fixpoint merge_into (d : Deletion) (rest : list Deletion) : list Deletion :=
  match rest with
  | [] => [d]
  | d2 :: rest' =>
      if fst d2 <=? snd d
      then merge_into (fst d, Nat.max (snd d) (snd d2)) rest'
      else d :: merge_into d2 rest'
  end.

(** Each deletion ends strictly before the next one starts. *)
Fixpoint separated (deletions : list Deletion) : Prop :=
  match deletions with
  | [] => True
  | d :: rest =>
      match rest with
      | [] => True
      | d2 :: _ => snd d < fst d2
      end /\ separated rest
  end.

(** Starting at [lastEnd], every deletion starts no earlier than the
    previous one ended and ends no earlier than it starts. *)
Fixpoint chained (lastEnd : nat) (deletions : list Deletion) : Prop :=
  match deletions with
  | [] => True
  | d :: rest => lastEnd <= fst d /\ fst d <= snd d /\ chained (snd d) rest
  end.

(** The order the sort establishes, and a deletion that does not end
    before it starts. *)
Definition start_le (a b : Deletion) : Prop := fst a <= fst b.

Definition well_formed (d : Deletion) : Prop := fst d <= snd d.


(** * Further concrete inputs *)

(** A topology the constructor accepts although [ASSET] is registered
    twice, below [AUTHENTICATION] and beside it:
    [forest([node(DATABASE, [node(AUTHENTICATION, [node(ASSET)]), node(ASSET)])])]. *)
Definition nephewForest : FeatureForest (T := CinnamonProjectFeatureType) :=
  mkFeatureForest
    [ node (CinnamonProjectFeature DATABASE) (Some [
        node (CinnamonProjectFeature AUTHENTICATION) (Some [
          node (CinnamonProjectFeature ASSET) None None
        ]) None;
        node (CinnamonProjectFeature ASSET) None None
      ]) None ].

(** The answers of a user who ticks [DATABASE], then [AUTHENTICATION], then
    [PUSH_TOKENS], the questions this makes the dialogue ask and the forest
    it leaves. *)
Definition tickedAnswers : list (list CinnamonProjectFeatureType) :=
  [[DATABASE]; [AUTHENTICATION]; [PUSH_TOKENS]].

Definition tickedQuestions
  : list (list (FeatureNodeMetadata (T := CinnamonProjectFeatureType))) :=
  [ map CinnamonProjectFeature
      [VALIDATOR; DATABASE; ASL_PROTOCOL; ASL_ERRORS; WEBSERVER_SETTINGS_PLUGIN];
    map CinnamonProjectFeature [AUTHENTICATION; ASSET];
    map CinnamonProjectFeature [PUSH_TOKENS] ].

Definition tickedForest : FeatureForest (T := CinnamonProjectFeatureType) :=
  snd (askUserForProjectFeatures cinnamon tickedAnswers).

(** The node object of [AUTHENTICATION] in the fresh catalog. *)
Definition authenticationNode : FeatureNode (T := CinnamonProjectFeatureType) :=
  node (CinnamonProjectFeature AUTHENTICATION) (Some [
    node (CinnamonProjectFeature PUSH_TOKENS) None None
  ]) None.

(** Ten code units and three deletions, two of which overlap. *)
Definition sampleContents : JsString := [97; 98; 10; 99; 100; 101; 10; 102; 103; 10].

Definition sampleDeletions : list Deletion := [(8, 9); (2, 4); (3, 6)].

(** * Properties *)

Unset Implicit Arguments.

Section Properties.

Context {T : Type} `{EqDec T}.

Local Abbreviation FeatureNode := (FeatureNode (T := T)).
Local Abbreviation FeatureForest := (FeatureForest (T := T)).
Local Abbreviation result := (result (T := T)).
Local Abbreviation root_id := (fun node : FeatureNode => id (metadata node)).

Notation "x <- c ;; k" := (bind c (fun x => k))
  (at level 61, c at next level, right associativity).

(** ** Induction over nodes and plain list facts *)

Lemma FeatureNode_forall_ind (P : FeatureNode -> Prop) :
  (forall m cs e, Forall P cs -> P (mkFeatureNode m cs e)) ->
  forall n, P n.
Proof.
  intros step. fix rec 1. intros [m cs e]. apply step.
  induction cs as [|c cs IH]; constructor; [apply rec | exact IH].
Qed.

Lemma nodup_length_le (ids : list T) :
  List.length (nodup eq_dec ids) <= List.length ids.
Proof.
  induction ids as [|a ids IH]; simpl; [lia|].
  destruct (in_dec eq_dec a ids); simpl; lia.
Qed.

Lemma Set_size_length (ids : list T) :
  (Set_size ids =? List.length ids) = true <-> NoDup ids.
Proof.
  unfold Set_size. rewrite Nat.eqb_eq. split.
  - induction ids as [|a ids IH]; simpl; intros Hlen; [constructor|].
    destruct (in_dec eq_dec a ids) as [Hin|Hnin].
    + pose proof (nodup_length_le ids). lia.
    + constructor; [exact Hnin | apply IH]. simpl in Hlen. lia.
  - intros Hnd. rewrite nodup_fixed_point by exact Hnd. reflexivity.
Qed.

Lemma strict_eq_true (a b : T) : strict_eq a b = true <-> a = b.
Proof. unfold strict_eq. destruct (eq_dec a b); split; congruence. Qed.

Lemma includes_true (ids : list T) (x : T) : includes ids x = true <-> In x ids.
Proof.
  unfold includes. rewrite existsb_exists. split.
  - intros [y [Hy Heq]]. apply strict_eq_true in Heq. subst. exact Hy.
  - intros Hin. exists x. split; [exact Hin | apply strict_eq_true; reflexivity].
Qed.

Lemma includes_false (ids : list T) (x : T) : includes ids x = false <-> ~ In x ids.
Proof.
  rewrite <- includes_true. destruct (includes ids x); split; congruence.
Qed.

Lemma for_of_Ok {A} (body : A -> result unit) (xs : list A) :
  for_of body xs = Ok tt <-> Forall (fun x => body x = Ok tt) xs.
Proof.
  induction xs as [|x xs IH]; simpl.
  - split; [constructor | reflexivity].
  - split.
    + destruct (body x) as [[]|e] eqn:Hx; simpl; [|discriminate].
      intros Hrest. constructor; [exact Hx | apply IH, Hrest].
    + intros Hall. inversion Hall as [|? ? Hx Hrest]; subst.
      rewrite Hx. simpl. apply IH, Hrest.
Qed.

Lemma NoDup_app_disjoint {A} (xs ys : list A) :
  NoDup (xs ++ ys) -> forall a, In a xs -> ~ In a ys.
Proof.
  induction xs as [|x xs IH]; simpl; intros Hnd a Hin; [contradiction|].
  apply NoDup_cons_iff in Hnd as [Hx Hnd]. destruct Hin as [->|Hin].
  - intros Hy. apply Hx, in_or_app. right. exact Hy.
  - apply IH; assumption.
Qed.

Lemma NoDup_flat_map_elem {A B} (f : A -> list B) (xs : list A) (x : A) :
  NoDup (flat_map f xs) -> In x xs -> NoDup (f x).
Proof.
  induction xs as [|y xs IH]; simpl; intros Hnd Hin; [contradiction|].
  destruct Hin as [->|Hin].
  - eapply NoDup_app_remove_r. exact Hnd.
  - apply IH; [|exact Hin]. eapply NoDup_app_remove_l. exact Hnd.
Qed.

(** ** Identifiers and validation *)

Lemma forest_ids_cons (n : FeatureNode) (l : list FeatureNode) :
  forest_ids (n :: l)
  = id (metadata n) :: forest_ids (children n) ++ forest_ids l.
Proof. destruct n; reflexivity. Qed.

Lemma root_id_in_forest_ids (l : list FeatureNode) (x : T) :
  In x (map root_id l) -> In x (forest_ids l).
Proof.
  induction l as [|n l IH]; simpl; [tauto|].
  intros [<-|Hin].
  - destruct n; simpl. left; reflexivity.
  - apply in_or_app. right. apply IH, Hin.
Qed.

Lemma NoDup_forest_ids_tail (n : FeatureNode) (l : list FeatureNode) :
  NoDup (forest_ids (n :: l)) -> NoDup (forest_ids l).
Proof. simpl. apply NoDup_app_remove_l. Qed.

Lemma NoDup_forest_ids_children (l : list FeatureNode) (n : FeatureNode) :
  NoDup (forest_ids l) -> In n l -> NoDup (forest_ids (children n)).
Proof.
  intros Hnd Hin.
  pose proof (NoDup_flat_map_elem node_ids l n Hnd Hin) as Hn.
  destruct n; simpl in *. inversion Hn; assumption.
Qed.

Lemma NoDup_root_ids (l : list FeatureNode) :
  NoDup (forest_ids l) -> NoDup (map root_id l).
Proof.
  induction l as [|n l IH]; intros Hnd; simpl; [constructor|].
  pose proof (NoDup_forest_ids_tail n l Hnd) as Htail.
  rewrite forest_ids_cons in Hnd. inversion Hnd as [|? ? Hnin _]; subst.
  constructor; [|apply IH, Htail].
  intros Hin. apply Hnin, in_or_app. right.
  apply root_id_in_forest_ids, Hin.
Qed.

(** No identifier registered strictly below a root is a root identifier. *)
Lemma NoDup_descendant_not_root (l : list FeatureNode) (r : FeatureNode) (x : T) :
  NoDup (forest_ids l) -> In r l -> In x (forest_ids (children r)) ->
  ~ In x (map root_id l).
Proof.
  induction l as [|n l IH]; intros Hnd Hr Hx; [contradiction|].
  pose proof (NoDup_forest_ids_tail n l Hnd) as Htail.
  rewrite forest_ids_cons in Hnd.
  apply NoDup_cons_iff in Hnd as [Hhead Hrest].
  simpl. intros [Heq|Hin].
  - subst x. destruct Hr as [->|Hr].
    + apply Hhead, in_or_app. left. exact Hx.
    + apply Hhead, in_or_app. right. apply in_flat_map.
      exists r. split; [exact Hr|]. destruct r; simpl. right. exact Hx.
  - destruct Hr as [->|Hr].
    + apply (NoDup_app_disjoint _ _ Hrest x Hx), root_id_in_forest_ids, Hin.
    + exact (IH Htail Hr Hx Hin).
Qed.

Lemma checkChildren_unique (n : FeatureNode) :
  forall parentIds : list T,
    NoDup (forest_ids (children n)) ->
    (forall x, In x (forest_ids (children n)) -> ~ In x parentIds) ->
    checkChildren n parentIds = Ok tt.
Proof.
  induction n as [m cs e IH] using FeatureNode_forall_ind.
  intros parentIds Hnd Hfresh. simpl in *. unfold children in *. simpl in *.
  replace (Set_size (map root_id cs) =? List.length (map root_id cs)) with true
    by (symmetry; apply Set_size_length, NoDup_root_ids, Hnd).
  simpl. apply for_of_Ok. rewrite Forall_forall in *. intros c Hc.
  assert (Hcid : In (id (metadata c)) (forest_ids cs))
    by (apply root_id_in_forest_ids, in_map_iff; eauto).
  replace (includes parentIds (id (metadata c))) with false
    by (symmetry; apply includes_false, Hfresh, Hcid).
  pose proof (NoDup_flat_map_elem node_ids cs c Hnd Hc) as Hcn.
  assert (Hsub : forall x, In x (forest_ids (children c)) -> In x (forest_ids cs)).
  { intros x Hx. apply in_flat_map. exists c. split; [exact Hc|].
    destruct c; simpl. right. exact Hx. }
  apply IH; [exact Hc | eapply NoDup_forest_ids_children; eassumption |].
  intros x Hx Hin. apply in_app_or in Hin as [Hin|[<-|[]]].
  - exact (Hfresh x (Hsub x Hx) Hin).
  - destruct c; simpl in *. inversion Hcn; contradiction.
Qed.

(** Globally unique identifiers pass every check of the constructor. *)
Lemma FeatureForest_new_unique (topology : list FeatureNode) :
  NoDup (forest_ids topology) ->
  FeatureForest_new topology = Ok (mkFeatureForest topology).
Proof.
  intros Hnd. unfold FeatureForest_new. simpl.
  replace (Set_size (map root_id topology) =? List.length (map root_id topology))
    with true by (symmetry; apply Set_size_length, NoDup_root_ids, Hnd).
  simpl.
  replace (for_of (fun node => checkChildren node (map root_id topology)) topology)
    with (Ok (T := T) tt); [reflexivity|].
  symmetry. apply for_of_Ok, Forall_forall. intros r Hr.
  apply checkChildren_unique.
  - eapply NoDup_forest_ids_children; eassumption.
  - intros x Hx. eapply NoDup_descendant_not_root; eassumption.
Qed.

(** ** Searching *)

Lemma forest_children_ind (P : list FeatureNode -> Prop) :
  (forall l, Forall (fun n => P (children n)) l -> P l) ->
  forall l, P l.
Proof.
  intros step.
  assert (Hnode : forall n, P (children n)).
  { induction n as [m cs e IH] using FeatureNode_forall_ind.
    unfold children. simpl. apply step, IH. }
  intros l. apply step, Forall_forall. intros n _. apply Hnode.
Qed.

Lemma find_index_Some {A} (p : A -> bool) (xs : list A) (i : nat) :
  find_index p xs = Some i ->
  exists x, nth_error xs i = Some x /\ p x = true.
Proof.
  revert i. induction xs as [|x xs IH]; simpl; intros i; [discriminate|].
  destruct (p x) eqn:Hp.
  - intros [= <-]. exists x. split; [reflexivity | exact Hp].
  - destruct (find_index p xs) as [j|]; simpl; [|discriminate].
    intros [= <-]. simpl. apply IH. reflexivity.
Qed.

Lemma find_index_None {A} (p : A -> bool) (xs : list A) :
  (forall x, In x xs -> p x = false) -> find_index p xs = None.
Proof.
  induction xs as [|x xs IH]; simpl; intros Hall; [reflexivity|].
  rewrite (Hall x) by (left; reflexivity).
  rewrite IH by (intros; apply Hall; right; assumption). reflexivity.
Qed.

Lemma find_index_root (l : list FeatureNode) (i : nat) (n : FeatureNode) :
  NoDup (map root_id l) -> nth_error l i = Some n ->
  find_index (fun n' => strict_eq (id (metadata n')) (id (metadata n))) l = Some i.
Proof.
  revert i. induction l as [|r l IH]; intros i Hnd Hi; [destruct i; discriminate|].
  simpl in Hnd. apply NoDup_cons_iff in Hnd as [Hr Hnd]. simpl.
  destruct i as [|i]; simpl in Hi.
  - injection Hi as ->.
    replace (strict_eq (id (metadata n)) (id (metadata n))) with true
      by (symmetry; apply strict_eq_true; reflexivity).
    reflexivity.
  - destruct (strict_eq (id (metadata r)) (id (metadata n))) eqn:Heq.
    + apply strict_eq_true in Heq. exfalso. apply Hr. rewrite Heq.
      apply in_map_iff. exists n. split; [reflexivity|].
      eapply nth_error_In. exact Hi.
    + rewrite (IH i Hnd Hi). reflexivity.
Qed.

Lemma for_return_ext {A B} (f g : nat -> A -> result (option B)) (xs : list A) :
  (forall i x, In x xs -> f i x = g i x) ->
  forall i, for_return f i xs = for_return g i xs.
Proof.
  induction xs as [|x xs IH]; simpl; intros Heq i; [reflexivity|].
  rewrite Heq by (left; reflexivity).
  destruct (g i x) as [[b|]|e]; simpl; try reflexivity.
  apply IH. intros; apply Heq; right; assumption.
Qed.

Lemma for_return_Some {A B} (body : nat -> A -> result (option B))
  (xs : list A) (i : nat) (b : B) :
  for_return body i xs = Ok (Some b) ->
  exists k x, nth_error xs k = Some x /\ body (i + k) x = Ok (Some b).
Proof.
  revert i. induction xs as [|x xs IH]; simpl; intros i; [discriminate|].
  destruct (body i x) as [[b'|]|e] eqn:Hx; simpl; [| |discriminate].
  - intros [= <-]. exists 0, x. rewrite Nat.add_0_r. split; [reflexivity | exact Hx].
  - intros Hrest. destruct (IH _ Hrest) as (k & y & Hk & Hy).
    exists (S k), y. rewrite Nat.add_succ_r. split; assumption.
Qed.

Lemma for_return_None {A B} (body : nat -> A -> result (option B))
  (xs : list A) (i : nat) :
  (forall k x, nth_error xs k = Some x -> body (i + k) x = Ok None) ->
  for_return body i xs = Ok None.
Proof.
  revert i. induction xs as [|x xs IH]; simpl; intros i Hall; [reflexivity|].
  rewrite <- (Nat.add_0_r i) at 1. rewrite (Hall 0 x eq_refl). simpl.
  apply IH. intros k y Hk. rewrite Nat.add_succ_l, <- Nat.add_succ_r.
  apply Hall. exact Hk.
Qed.

Lemma for_return_found {A B} (body : nat -> A -> result (option B))
  (xs : list A) (i k : nat) (x : A) (b : B) :
  nth_error xs k = Some x ->
  (forall j y, j < k -> nth_error xs j = Some y -> body (i + j) y = Ok None) ->
  body (i + k) x = Ok (Some b) ->
  for_return body i xs = Ok (Some b).
Proof.
  revert i k. induction xs as [|y xs IH]; intros i k Hk Hbefore Hx;
    [destruct k; discriminate|].
  simpl. destruct k as [|k]; simpl in Hk.
  - injection Hk as ->. rewrite Nat.add_0_r in Hx. rewrite Hx. reflexivity.
  - rewrite <- (Nat.add_0_r i) at 1.
    rewrite (Hbefore 0 y (Nat.lt_0_succ k) eq_refl). simpl.
    apply (IH (S i) k); [exact Hk | |].
    + intros j z Hj Hz. rewrite Nat.add_succ_l, <- Nat.add_succ_r.
      apply Hbefore; [lia | exact Hz].
    + rewrite Nat.add_succ_l, <- Nat.add_succ_r. exact Hx.
Qed.

Lemma FeatureForest_new_Ok (topology : list FeatureNode) (this : FeatureForest) :
  FeatureForest_new topology = Ok this -> this = mkFeatureForest topology.
Proof.
  unfold FeatureForest_new. simpl.
  destruct (negb _); [discriminate|].
  destruct (for_of _ topology); simpl; congruence.
Qed.

Lemma findNodeInChildren_eq (n : FeatureNode) (wanted : T) :
  findNodeInChildren n wanted
  = (sub <- FeatureForest_new (children n) ;; findNodeInTopology sub wanted).
Proof.
  destruct n as [m cs e]. unfold children. simpl.
  destruct (FeatureForest_new cs) as [sub|err] eqn:Hnew; simpl; [|reflexivity].
  apply FeatureForest_new_Ok in Hnew. subst sub. reflexivity.
Qed.

(** The search in the shape of the source: roots first, then the
    re-wrapped children of every root in turn. *)
Lemma findNodeInTopology_eq (this : FeatureForest) (wanted : T) :
  findNodeInTopology this wanted
  = match find_index (fun node => strict_eq (id (metadata node)) wanted)
            (_topology this) with
    | Some i => Ok (Some [i])
    | None =>
        for_return
          (fun i node =>
             r <- (sub <- FeatureForest_new (children node) ;;
                   findNodeInTopology sub wanted) ;;
             Ok (option_map (cons i) r))
          0 (_topology this)
    end.
Proof.
  unfold findNodeInTopology at 1.
  destruct (find_index _ (_topology this)); [reflexivity|].
  apply for_return_ext. intros i n _. rewrite findNodeInChildren_eq. reflexivity.
Qed.

Lemma deref_cons (l : list FeatureNode) (i j : nat) (rest : NodeRef) (r : FeatureNode) :
  nth_error l i = Some r ->
  deref l (i :: j :: rest) = deref (children r) (j :: rest).
Proof. intros Hi. simpl. rewrite Hi. reflexivity. Qed.

Lemma deref_in_forest_ids (ref : NodeRef) :
  forall (l : list FeatureNode) (n : FeatureNode),
    deref l ref = Some n -> In (id (metadata n)) (forest_ids l).
Proof.
  induction ref as [|i rest IH]; intros l n; [discriminate|].
  simpl. destruct (nth_error l i) as [r|] eqn:Hi; [|discriminate].
  apply nth_error_In in Hi. intros Hn. apply in_flat_map. exists r.
  split; [exact Hi|]. destruct rest as [|j rest].
  - injection Hn as ->. destruct n; simpl. left; reflexivity.
  - apply IH in Hn. destruct r; simpl in *. right. exact Hn.
Qed.

(** Whatever the search returns refers to a node carrying the identifier. *)
Lemma findNodeInTopology_sound (l : list FeatureNode) :
  forall (wanted : T) (ref : NodeRef),
    findNodeInTopology (mkFeatureForest l) wanted = Ok (Some ref) ->
    exists n, deref l ref = Some n /\ id (metadata n) = wanted.
Proof.
  induction l as [l IH] using forest_children_ind. intros wanted ref.
  unfold findNodeInTopology. simpl.
  destruct (find_index _ l) as [i|] eqn:Hroot.
  - intros [= <-]. apply find_index_Some in Hroot as (n & Hn & Heq).
    apply strict_eq_true in Heq. exists n. simpl. rewrite Hn. auto.
  - intros Hloop. apply for_return_Some in Hloop as (k & r & Hk & Hbody).
    simpl in Hbody. rewrite findNodeInChildren_eq in Hbody.
    destruct (FeatureForest_new (children r)) as [sub|] eqn:Hnew; [|discriminate].
    apply FeatureForest_new_Ok in Hnew. subst sub. simpl in Hbody.
    destruct (findNodeInTopology (mkFeatureForest (children r)) wanted)
      as [[ref'|]|] eqn:Hsub; simpl in Hbody; try discriminate.
    injection Hbody as <-.
    rewrite Forall_forall in IH.
    destruct (IH r (nth_error_In _ _ Hk) wanted ref' Hsub) as (n & Hn & Hid).
    exists n. split; [|exact Hid].
    destruct ref' as [|j rest]; [discriminate|].
    rewrite (deref_cons l k j rest r Hk). exact Hn.
Qed.

Lemma NoDup_flat_map_disjoint {A B} (f : A -> list B) (xs : list A) :
  NoDup (flat_map f xs) ->
  forall (j i : nat) (y r : A) (a : B),
    nth_error xs j = Some y -> nth_error xs i = Some r -> j <> i ->
    In a (f y) -> ~ In a (f r).
Proof.
  induction xs as [|x xs IH]; intros Hnd j i y r a Hj Hi Hne Hy Hr;
    [destruct j; discriminate|].
  simpl in Hnd.
  destruct j as [|j], i as [|i]; simpl in Hj, Hi; try congruence.
  - injection Hj as ->. apply (NoDup_app_disjoint _ _ Hnd a Hy).
    apply in_flat_map. exists r. split; [eapply nth_error_In|]; eassumption.
  - injection Hi as ->. apply (NoDup_app_disjoint _ _ Hnd a Hr).
    apply in_flat_map. exists y. split; [eapply nth_error_In|]; eassumption.
  - apply (IH (NoDup_app_remove_l _ _ Hnd) j i y r a); auto.
Qed.

Lemma children_ids_in_node_ids (n : FeatureNode) (x : T) :
  In x (forest_ids (children n)) -> In x (node_ids n).
Proof. destruct n; simpl. auto. Qed.

Lemma node_ids_in_forest_ids (l : list FeatureNode) (n : FeatureNode) (x : T) :
  In n l -> In x (node_ids n) -> In x (forest_ids l).
Proof. intros Hn Hx. apply in_flat_map. exists n. auto. Qed.

(** In a valid topology the search never throws; an identifier that is not
    registered is reported as [undefined]. *)
Lemma findNodeInTopology_absent (l : list FeatureNode) :
  NoDup (forest_ids l) ->
  forall wanted : T,
    ~ In wanted (forest_ids l) ->
    findNodeInTopology (mkFeatureForest l) wanted = Ok None.
Proof.
  induction l as [l IH] using forest_children_ind. intros Hnd wanted Habsent.
  rewrite Forall_forall in IH.
  unfold findNodeInTopology. simpl. rewrite find_index_None.
  - apply for_return_None. intros k r Hk. simpl.
    apply nth_error_In in Hk.
    rewrite findNodeInChildren_eq.
    pose proof (NoDup_forest_ids_children l r Hnd Hk) as Hsub.
    rewrite (FeatureForest_new_unique _ Hsub). simpl.
    rewrite (IH r Hk Hsub wanted); [reflexivity|].
    intros Hin. apply Habsent.
    apply (node_ids_in_forest_ids l r); [exact Hk|].
    apply children_ids_in_node_ids, Hin.
  - intros r Hr. destruct (strict_eq (id (metadata r)) wanted) eqn:Heq;
      [|reflexivity].
    apply strict_eq_true in Heq. exfalso. apply Habsent.
    apply root_id_in_forest_ids, in_map_iff. exists r. auto.
Qed.

(** In a valid topology the search returns the reference of the one node
    that carries the identifier. *)
Lemma findNodeInTopology_present (l : list FeatureNode) :
  NoDup (forest_ids l) ->
  forall (ref : NodeRef) (n : FeatureNode),
    deref l ref = Some n ->
    findNodeInTopology (mkFeatureForest l) (id (metadata n)) = Ok (Some ref).
Proof.
  induction l as [l IH] using forest_children_ind. intros Hnd ref n Hn.
  rewrite Forall_forall in IH.
  destruct ref as [|i rest]; [discriminate|].
  destruct (nth_error l i) as [r|] eqn:Hi; [|simpl in Hn; rewrite Hi in Hn; discriminate].
  pose proof (nth_error_In _ _ Hi) as Hr.
  unfold findNodeInTopology. simpl.
  destruct rest as [|j rest].
  - simpl in Hn. rewrite Hi in Hn. injection Hn as ->.
    rewrite (find_index_root l i n (NoDup_root_ids l Hnd) Hi). reflexivity.
  - rewrite (deref_cons l i j rest r Hi) in Hn.
    pose proof (deref_in_forest_ids _ _ _ Hn) as Hid.
    rewrite find_index_None.
    + apply (for_return_found _ l 0 i r); [exact Hi | |].
      * intros k y Hlt Hk. simpl. rewrite findNodeInChildren_eq.
        pose proof (nth_error_In _ _ Hk) as Hy.
        pose proof (NoDup_forest_ids_children l y Hnd Hy) as Hsub.
        rewrite (FeatureForest_new_unique _ Hsub). simpl.
        rewrite (findNodeInTopology_absent _ Hsub); [reflexivity|].
        intros Hin.
        apply (NoDup_flat_map_disjoint node_ids l Hnd k i y r (id (metadata n)) Hk Hi);
          [lia | |]; apply children_ids_in_node_ids; assumption.
      * simpl. rewrite findNodeInChildren_eq.
        pose proof (NoDup_forest_ids_children l r Hnd Hr) as Hsub.
        rewrite (FeatureForest_new_unique _ Hsub). simpl.
        rewrite (IH r Hr Hsub (j :: rest) n Hn). reflexivity.
    + intros y Hy.
      destruct (strict_eq (id (metadata y)) (id (metadata n))) eqn:Heq;
        [|reflexivity].
      apply strict_eq_true in Heq. exfalso.
      apply (NoDup_descendant_not_root l r (id (metadata n)) Hnd Hr Hid).
      apply in_map_iff. exists y. auto.
Qed.

(** In a valid topology a node is determined by its identifier. *)
Lemma deref_unique (l : list FeatureNode) :
  NoDup (forest_ids l) ->
  forall (ref ref' : NodeRef) (n n' : FeatureNode),
    deref l ref = Some n -> deref l ref' = Some n' ->
    id (metadata n) = id (metadata n') -> ref = ref'.
Proof.
  intros Hnd ref ref' n n' Hn Hn' Hid.
  pose proof (findNodeInTopology_present l Hnd ref n Hn) as Hfind.
  pose proof (findNodeInTopology_present l Hnd ref' n' Hn') as Hfind'.
  rewrite Hid in Hfind. congruence.
Qed.

Lemma in_forest_ids_deref (l : list FeatureNode) :
  forall x : T,
    In x (forest_ids l) ->
    exists ref n, deref l ref = Some n /\ id (metadata n) = x.
Proof.
  induction l as [l IH] using forest_children_ind. intros x Hx.
  rewrite Forall_forall in IH.
  apply in_flat_map in Hx as (r & Hr & Hx).
  destruct (In_nth_error _ _ Hr) as [i Hi].
  destruct r as [m cs e]. simpl in Hx. destruct Hx as [<-|Hx].
  - exists [i], (mkFeatureNode m cs e). simpl. rewrite Hi. auto.
  - destruct (IH _ Hr x Hx) as (ref & n & Hn & Hid).
    exists (i :: ref), n. split; [|exact Hid].
    destruct ref as [|j rest]; [discriminate|].
    rewrite (deref_cons l i j rest _ Hi). exact Hn.
Qed.

(** ** What the constructor does detect *)

Lemma checkChildren_Ok (n : FeatureNode) (parentIds : list T) :
  checkChildren n parentIds = Ok tt ->
  NoDup (map root_id (children n))
  /\ Forall (fun c => ~ In (id (metadata c)) parentIds
                     /\ checkChildren c (parentIds ++ [id (metadata c)]) = Ok tt)
            (children n).
Proof.
  destruct n as [m cs e]. unfold children. simpl.
  destruct (Set_size (map root_id cs) =? List.length (map root_id cs)) eqn:Hsize;
    simpl; [|discriminate].
  intros Hloop. split; [apply Set_size_length, Hsize|].
  apply for_of_Ok in Hloop. rewrite Forall_forall in *. intros c Hc.
  specialize (Hloop c Hc). simpl in Hloop.
  destruct (includes parentIds (id (metadata c))) eqn:Hinc; [discriminate|].
  split; [apply includes_false, Hinc | exact Hloop].
Qed.

Lemma checkChildren_descendants (rest : NodeRef) :
  forall (n : FeatureNode) (parentIds : list T) (d : FeatureNode),
    checkChildren n parentIds = Ok tt ->
    deref (children n) rest = Some d ->
    ~ In (id (metadata d)) parentIds
    /\ NoDup (map root_id (children d))
    /\ forall k a, 0 < k < List.length rest ->
                   deref (children n) (firstn k rest) = Some a ->
                   id (metadata a) <> id (metadata d).
Proof.
  induction rest as [|j rest IH]; intros n parentIds d Hcheck; [discriminate|].
  apply checkChildren_Ok in Hcheck as [_ Hall]. rewrite Forall_forall in Hall.
  simpl deref. destruct (nth_error (children n) j) as [c|] eqn:Hj; [|discriminate].
  destruct (Hall c (nth_error_In _ _ Hj)) as [Hfresh Hc].
  destruct rest as [|j' rest].
  - intros [= <-]. split; [exact Hfresh|].
    split; [apply (checkChildren_Ok c _ Hc)|]. simpl. intros k a Hk. lia.
  - intros Hd. destruct (IH c _ d Hc Hd) as (Hnew & Hsib & Hanc).
    split; [intros Hin; apply Hnew, in_or_app; left; exact Hin|].
    split; [exact Hsib|].
    intros k a Hk. destruct k as [|[|k]]; [lia| |].
    + simpl. rewrite Hj. intros [= <-] Heq.
      apply Hnew, in_or_app. right. left. exact Heq.
    + change (firstn (S (S k)) (j :: j' :: rest))
        with (j :: j' :: firstn k rest).
      rewrite (deref_cons _ j j' _ c Hj).
      apply (Hanc (S k)). simpl in *. lia.
Qed.

(** A constructed forest has distinct roots, distinct siblings everywhere,
    and no node below the roots repeats the identifier of a root or of one
    of its ancestors. *)
Lemma FeatureForest_new_detects (l : list FeatureNode) (this : FeatureForest) :
  FeatureForest_new l = Ok this ->
  NoDup (map root_id l)
  /\ forall ref n,
       deref l ref = Some n ->
       NoDup (map root_id (children n))
       /\ (1 < List.length ref -> ~ In (id (metadata n)) (map root_id l))
       /\ forall k a, 0 < k < List.length ref ->
                      deref l (firstn k ref) = Some a ->
                      id (metadata a) <> id (metadata n).
Proof.
  unfold FeatureForest_new. simpl.
  destruct (Set_size (map root_id l) =? List.length (map root_id l)) eqn:Hsize;
    simpl; [|discriminate].
  destruct (for_of (fun node => checkChildren node (map root_id l)) l)
    as [[]|] eqn:Hloop; simpl; [|discriminate].
  intros _. apply Set_size_length in Hsize. split; [exact Hsize|].
  apply for_of_Ok in Hloop. rewrite Forall_forall in Hloop.
  intros [|i rest] n; [discriminate|].
  destruct (nth_error l i) as [r|] eqn:Hi;
    [|simpl; rewrite Hi; discriminate].
  pose proof (Hloop r (nth_error_In _ _ Hi)) as Hr. simpl in Hr.
  destruct rest as [|j rest].
  - simpl. rewrite Hi. intros [= <-].
    split; [apply (checkChildren_Ok r _ Hr)|]. split; intros; lia.
  - rewrite (deref_cons l i j rest r Hi). intros Hn.
    destruct (checkChildren_descendants (j :: rest) r _ n Hr Hn)
      as (Hfresh & Hsib & Hanc).
    split; [exact Hsib|]. split; [intros _; exact Hfresh|].
    intros k a Hk. destruct k as [|[|k]]; [lia| |].
    + simpl. rewrite Hi. intros [= <-] Heq. apply Hfresh. rewrite <- Heq.
      apply in_map_iff. exists r. split; [reflexivity|].
      eapply nth_error_In. exact Hi.
    + change (firstn (S (S k)) (i :: j :: rest))
        with (i :: firstn (S k) (j :: rest)).
      change (firstn (S k) (j :: rest)) with (j :: firstn k rest).
      rewrite (deref_cons l i j _ r Hi).
      apply (Hanc (S k)). simpl in *. lia.
Qed.

(** ** Assignment through a reference *)

Lemma nth_error_update_nth {A} (f : A -> A) (i j : nat) (xs : list A) :
  nth_error (update_nth f i xs) j
  = if i =? j then option_map f (nth_error xs j) else nth_error xs j.
Proof.
  revert i j. induction xs as [|x xs IH]; intros i j; simpl.
  - destruct j, (i =? _); reflexivity.
  - destruct i as [|i], j as [|j]; simpl; try reflexivity. apply IH.
Qed.

Lemma update_nth_same {A} (f : A -> A) (i : nat) (xs : list A) :
  (forall x, nth_error xs i = Some x -> f x = x) -> update_nth f i xs = xs.
Proof.
  revert i. induction xs as [|x xs IH]; intros i Hfix; simpl; [reflexivity|].
  destruct i as [|i].
  - rewrite (Hfix x eq_refl). reflexivity.
  - rewrite (IH i Hfix). reflexivity.
Qed.

Lemma update_nth_twice {A} (f g h : A -> A) (i : nat) (xs : list A) :
  (forall x, nth_error xs i = Some x -> f (g x) = h x) ->
  update_nth f i (update_nth g i xs) = update_nth h i xs.
Proof.
  revert i. induction xs as [|x xs IH]; intros i Hcomp; simpl; [reflexivity|].
  destruct i as [|i]; simpl.
  - rewrite (Hcomp x eq_refl). reflexivity.
  - rewrite (IH i Hcomp). reflexivity.
Qed.

Lemma map_update_nth {A B} (g : A -> B) (f : A -> A) (i : nat) (xs : list A) :
  (forall x, nth_error xs i = Some x -> g (f x) = g x) ->
  map g (update_nth f i xs) = map g xs.
Proof.
  revert i. induction xs as [|x xs IH]; intros i Hsame; simpl; [reflexivity|].
  destruct i as [|i]; simpl.
  - rewrite (Hsame x eq_refl). reflexivity.
  - rewrite (IH i Hsame). reflexivity.
Qed.

Lemma flat_map_update_nth {A B} (g : A -> list B) (f : A -> A) (i : nat) (xs : list A) :
  (forall x, nth_error xs i = Some x -> g (f x) = g x) ->
  flat_map g (update_nth f i xs) = flat_map g xs.
Proof.
  revert i. induction xs as [|x xs IH]; intros i Hsame; simpl; [reflexivity|].
  destruct i as [|i]; simpl.
  - rewrite (Hsame x eq_refl). reflexivity.
  - rewrite (IH i Hsame). reflexivity.
Qed.

Lemma assign_enabled_metadata (ref : NodeRef) (value : bool) (l : list FeatureNode) :
  map metadata (assign_enabled ref value l) = map metadata l.
Proof.
  destruct ref as [|i rest]; [reflexivity|]. simpl.
  apply map_update_nth. intros x _. destruct rest; reflexivity.
Qed.

Lemma assign_enabled_ids (ref : NodeRef) (value : bool) :
  forall l : list FeatureNode, forest_ids (assign_enabled ref value l) = forest_ids l.
Proof.
  induction ref as [|i rest IH]; intros l; [reflexivity|]. simpl.
  apply flat_map_update_nth. intros [m cs e] _.
  destruct rest as [|j rest]; [reflexivity|].
  simpl. f_equal. apply (IH cs).
Qed.

Lemma assign_enabled_deref (ref : NodeRef) (value : bool) :
  forall (l : list FeatureNode) (n : FeatureNode),
    deref l ref = Some n ->
    deref (assign_enabled ref value l) ref
    = Some (mkFeatureNode (metadata n) (_children n) value).
Proof.
  induction ref as [|i rest IH]; intros l n; [discriminate|].
  simpl. rewrite nth_error_update_nth, Nat.eqb_refl.
  destruct (nth_error l i) as [r|]; [|discriminate]. simpl.
  destruct rest as [|j rest].
  - intros [= ->]. reflexivity.
  - apply IH.
Qed.

Lemma assign_enabled_same (ref : NodeRef) (value : bool) :
  forall (l : list FeatureNode) (n : FeatureNode),
    deref l ref = Some n -> enabled n = value ->
    assign_enabled ref value l = l.
Proof.
  induction ref as [|i rest IH]; intros l n; [discriminate|].
  simpl. intros Hn Hflag. apply update_nth_same. intros r Hr.
  rewrite Hr in Hn. destruct rest as [|j rest].
  - injection Hn as ->. subst value. destruct n; reflexivity.
  - rewrite (IH _ _ Hn Hflag). destruct r; reflexivity.
Qed.

Lemma assign_enabled_twice (ref : NodeRef) (v w : bool) :
  forall l : list FeatureNode,
    assign_enabled ref w (assign_enabled ref v l) = assign_enabled ref w l.
Proof.
  induction ref as [|i rest IH]; intros l; [reflexivity|]. simpl.
  apply update_nth_twice. intros r _.
  destruct rest as [|j rest]; simpl; [reflexivity|].
  f_equal. apply IH.
Qed.

Lemma assign_enabled_other (ref : NodeRef) (value : bool) :
  forall (l : list FeatureNode) (ref' : NodeRef),
    ref' <> ref ->
    stored (assign_enabled ref value l) ref' = stored l ref'.
Proof.
  unfold stored.
  induction ref as [|i rest IH]; intros l ref' Hne; [reflexivity|].
  destruct ref' as [|i' rest']; [reflexivity|].
  simpl. rewrite nth_error_update_nth.
  destruct (Nat.eqb_spec i i') as [<-|Hii]; [|reflexivity].
  destruct (nth_error l i) as [r|]; [|reflexivity]. simpl.
  destruct rest as [|j rest].
  - destruct rest' as [|j' rest']; [congruence|]. reflexivity.
  - destruct rest' as [|j' rest']; [reflexivity|].
    simpl _children. apply IH. congruence.
Qed.

(** ** Reading and writing the stored flag *)

Lemma FeatureForest_eta (this : FeatureForest) :
  mkFeatureForest (_topology this) = this.
Proof. destruct this; reflexivity. Qed.

(** C7: on a valid forest [get] never throws; it returns the stored flag of
    the node carrying the identifier of its argument when there is one, and
    [false] when the identifier is registered nowhere in the forest. *)
Theorem get_total_on_valid (this : FeatureForest) :
  valid this ->
  (forall feature, exists b, get this feature = Ok b)
  /\ (forall feature ref n,
        deref (_topology this) ref = Some n ->
        feature_id feature = id (metadata n) ->
        get this feature = Ok (enabled n))
  /\ (forall feature,
        ~ In (feature_id feature) (forest_ids (_topology this)) ->
        get this feature = Ok false).
Proof.
  intros Hvalid. unfold valid in Hvalid.
  assert (Hpresent : forall feature ref n,
             deref (_topology this) ref = Some n ->
             feature_id feature = id (metadata n) ->
             get this feature = Ok (enabled n)).
  { intros feature ref n Hn Hid. unfold get. rewrite Hid.
    rewrite <- (FeatureForest_eta this) at 1.
    rewrite (findNodeInTopology_present _ Hvalid ref n Hn). simpl.
    rewrite Hn. reflexivity. }
  assert (Habsent : forall feature,
             ~ In (feature_id feature) (forest_ids (_topology this)) ->
             get this feature = Ok false).
  { intros feature Hid. unfold get.
    rewrite <- (FeatureForest_eta this) at 1.
    rewrite (findNodeInTopology_absent _ Hvalid _ Hid). reflexivity. }
  split; [|split; assumption].
  intros feature.
  destruct (in_dec eq_dec (feature_id feature) (forest_ids (_topology this)))
    as [Hin|Hnin].
  - destruct (in_forest_ids_deref _ _ Hin) as (ref & n & Hn & Hid).
    exists (enabled n). apply (Hpresent feature ref n Hn). congruence.
  - exists false. apply Habsent, Hnin.
Qed.

(** C6: [set], [enable] and [disable] on an identifier that is registered
    nowhere in the forest throw, and the forest is left as it was: no stored
    flag has changed. *)
Theorem set_unknown_throws (this : FeatureForest) (feature : FeatureArg) :
  ~ In (feature_id feature) (forest_ids (_topology this)) ->
  (forall value, exists e, set this feature value = (Throw e, this))
  /\ (exists e, enable this feature = (Throw e, this))
  /\ (exists e, disable this feature = (Throw e, this)).
Proof.
  intros Habsent.
  assert (Hset : forall value, exists e, set this feature value = (Throw e, this)).
  { intros value. unfold set.
    destruct (findNodeInTopology this (feature_id feature)) as [[ref|]|e] eqn:Hfind.
    - exfalso. rewrite <- (FeatureForest_eta this) in Hfind.
      apply findNodeInTopology_sound in Hfind as (n & Hn & Hid).
      apply Habsent. rewrite <- Hid. apply (deref_in_forest_ids ref), Hn.
    - exists TypeError. reflexivity.
    - exists e. reflexivity. }
  split; [exact Hset|]. split; [apply (Hset true) | apply (Hset false)].
Qed.

Lemma set_present (this : FeatureForest) (feature : FeatureArg) (value : bool)
  (ref : NodeRef) (n : FeatureNode) :
  valid this ->
  deref (_topology this) ref = Some n ->
  feature_id feature = id (metadata n) ->
  set this feature value
  = (Ok tt, mkFeatureForest (assign_enabled ref value (_topology this))).
Proof.
  intros Hvalid Hn Hid. unfold set. rewrite Hid.
  rewrite <- (FeatureForest_eta this) at 1.
  rewrite (findNodeInTopology_present _ Hvalid ref n Hn). reflexivity.
Qed.

(** C3: on a valid forest, disabling a feature whose stored flag is true and
    enabling it again gives back exactly the forest one started from;
    neither call changes what is stored in any other node, so every later
    query answers as before. *)
Theorem disable_enable_restores (this : FeatureForest) (feature : FeatureArg)
  (ref : NodeRef) (n : FeatureNode) :
  valid this ->
  deref (_topology this) ref = Some n ->
  feature_id feature = id (metadata n) ->
  enabled n = true ->
  exists disabled,
    disable this feature = (Ok tt, disabled)
    /\ stored (_topology disabled) ref = Some (metadata n, false)
    /\ enable disabled feature = (Ok tt, this)
    /\ (forall ref', ref' <> ref ->
          stored (_topology disabled) ref' = stored (_topology this) ref')
    /\ (forall level,
          getFeaturesForLevel (snd (enable disabled feature)) level
          = getFeaturesForLevel this level)
    /\ getAllEnabled (snd (enable disabled feature)) = getAllEnabled this
    /\ (forall f, get (snd (enable disabled feature)) f = get this f).
Proof.
  intros Hvalid Hn Hid Hflag.
  exists (mkFeatureForest (assign_enabled ref false (_topology this))).
  assert (Hback :
    enable (mkFeatureForest (assign_enabled ref false (_topology this))) feature
    = (Ok tt, this)).
  { unfold enable.
    rewrite (set_present _ feature true ref
               (mkFeatureNode (metadata n) (_children n) false)).
    - simpl. rewrite assign_enabled_twice.
      rewrite (assign_enabled_same ref true _ n Hn Hflag).
      rewrite FeatureForest_eta. reflexivity.
    - unfold valid. simpl. rewrite assign_enabled_ids. exact Hvalid.
    - simpl. apply assign_enabled_deref, Hn.
    - exact Hid. }
  split; [apply (set_present this feature false ref n Hvalid Hn Hid)|].
  split; [unfold stored; simpl; rewrite (assign_enabled_deref ref false _ n Hn);
          reflexivity|].
  split; [exact Hback|].
  split; [intros ref' Hne; simpl; apply assign_enabled_other, Hne|].
  rewrite Hback. simpl. auto.
Qed.

(** ** Level queries *)

(** The level walk in the shape of the source. *)
Lemma computeFeaturesForLevel_eq (level : Z) (nodes : list FeatureNode)
  (currentLevel : Z) :
  _computeFeaturesForLevel level nodes currentLevel
  = if (currentLevel =? level)%Z then map metadata nodes
    else if List.length (nextNodes nodes) =? 0 then []
    else _computeFeaturesForLevel level (nextNodes nodes) (currentLevel + 1).
Proof.
  funelim (_computeFeaturesForLevel level nodes currentLevel);
    rewrite ?Heq;
    try match goal with E : (_ =? 0) = _ |- _ => rewrite E end;
    reflexivity.
Qed.

(** Induction along the walk: the next candidate set is smaller. *)
Lemma next_level_ind (P : list FeatureNode -> Prop) :
  (forall nodes, (nextNodes nodes <> [] -> P (nextNodes nodes)) -> P nodes) ->
  forall nodes, P nodes.
Proof.
  intros step nodes.
  induction nodes as [nodes IH]
    using (well_founded_induction (well_founded_ltof _ forest_size)).
  apply step. intros Hne. apply IH. apply forest_size_next_level, Hne.
Qed.

Lemma computeFeaturesForLevel_unmatched (level : Z) (nodes : list FeatureNode) :
  forall currentLevel : Z,
    (level < currentLevel)%Z ->
    _computeFeaturesForLevel level nodes currentLevel = [].
Proof.
  induction nodes as [nodes IH] using next_level_ind. intros currentLevel Hlt.
  rewrite computeFeaturesForLevel_eq.
  destruct (Z.eqb_spec currentLevel level) as [Heq|_]; [lia|].
  destruct (List.length (nextNodes nodes) =? 0) eqn:Hlen; [reflexivity|].
  apply IH; [|lia]. intros Hnil. rewrite Hnil in Hlen. discriminate.
Qed.

(** C10: for a negative level the walk terminates with the empty sequence:
    the (total) function never matches the target level and stops when the
    candidate set runs out. *)
Theorem getFeaturesForLevel_negative (this : FeatureForest) (level : Z) :
  (level < 0)%Z -> getFeaturesForLevel this level = [].
Proof.
  intros Hneg. unfold getFeaturesForLevel.
  destruct (Z.eqb_spec level 0) as [Heq|_]; [lia|].
  apply computeFeaturesForLevel_unmatched. exact Hneg.
Qed.

Lemma enabled_depth_cons (n : FeatureNode) (nodes : list FeatureNode) :
  enabled_depth (n :: nodes)
  = Nat.max (if enabled n then S (enabled_depth (children n)) else 0)
            (enabled_depth nodes).
Proof. destruct n as [m cs []]; reflexivity. Qed.

Lemma enabled_depth_app (xs ys : list FeatureNode) :
  enabled_depth (xs ++ ys) = Nat.max (enabled_depth xs) (enabled_depth ys).
Proof. unfold enabled_depth. rewrite map_app. apply list_max_app. Qed.

Lemma enabled_depth_next (nodes : list FeatureNode) :
  enabled_depth (nextNodes nodes) <= Nat.pred (enabled_depth nodes).
Proof.
  induction nodes as [|n nodes IH]; [reflexivity|].
  rewrite enabled_depth_cons. unfold nextNodes in *. cbn [filter].
  destruct (enabled n); cbn [flat_map]; [rewrite enabled_depth_app|]; lia.
Qed.

Lemma enabled_depth_positive (nodes : list FeatureNode) :
  nextNodes nodes <> [] -> 1 <= enabled_depth nodes.
Proof.
  induction nodes as [|n nodes IH]; [intros []; reflexivity|].
  rewrite enabled_depth_cons. unfold nextNodes in *. cbn [filter].
  destruct (enabled n); cbn [flat_map]; [lia|].
  intros Hne. specialize (IH Hne). lia.
Qed.

Lemma forest_height_cons (n : FeatureNode) (nodes : list FeatureNode) :
  forest_height (n :: nodes)
  = Nat.max (S (forest_height (children n))) (forest_height nodes).
Proof. destruct n; reflexivity. Qed.

Lemma forest_height_app (xs ys : list FeatureNode) :
  forest_height (xs ++ ys) = Nat.max (forest_height xs) (forest_height ys).
Proof. unfold forest_height. rewrite map_app. apply list_max_app. Qed.

Lemma forest_height_next (nodes : list FeatureNode) :
  forest_height (nextNodes nodes) <= Nat.pred (forest_height nodes).
Proof.
  induction nodes as [|n nodes IH]; [reflexivity|].
  rewrite forest_height_cons. unfold nextNodes in *. cbn [filter].
  destruct (enabled n); cbn [flat_map]; [rewrite forest_height_app|]; lia.
Qed.

Lemma forest_height_zero (nodes : list FeatureNode) :
  forest_height nodes = 0 -> nodes = [].
Proof.
  destruct nodes as [|n nodes]; [reflexivity|].
  rewrite forest_height_cons. lia.
Qed.

Lemma computeFeaturesForLevel_beyond_enabled (level : Z) (nodes : list FeatureNode) :
  forall currentLevel : Z,
    (currentLevel + Z.of_nat (enabled_depth nodes) < level)%Z ->
    _computeFeaturesForLevel level nodes currentLevel = [].
Proof.
  induction nodes as [nodes IH] using next_level_ind. intros currentLevel Hlt.
  rewrite computeFeaturesForLevel_eq.
  destruct (Z.eqb_spec currentLevel level) as [Heq|_]; [lia|].
  destruct (List.length (nextNodes nodes) =? 0) eqn:Hlen; [reflexivity|].
  assert (Hne : nextNodes nodes <> [])
    by (intros Hnil; rewrite Hnil in Hlen; discriminate).
  apply (IH Hne).
  pose proof (enabled_depth_next nodes). pose proof (enabled_depth_positive nodes Hne).
  lia.
Qed.

Lemma computeFeaturesForLevel_beyond_height (level : Z) (nodes : list FeatureNode) :
  forall currentLevel : Z,
    (currentLevel + Z.of_nat (forest_height nodes) <= level)%Z ->
    _computeFeaturesForLevel level nodes currentLevel = [].
Proof.
  induction nodes as [nodes IH] using next_level_ind. intros currentLevel Hle.
  rewrite computeFeaturesForLevel_eq.
  destruct (Z.eqb_spec currentLevel level) as [Heq|_].
  - rewrite (forest_height_zero nodes) by lia. reflexivity.
  - destruct (List.length (nextNodes nodes) =? 0) eqn:Hlen; [reflexivity|].
    assert (Hne : nextNodes nodes <> [])
      by (intros Hnil; rewrite Hnil in Hlen; discriminate).
    apply (IH Hne).
    pose proof (forest_height_next nodes).
    destruct (forest_height nodes) eqn:Hh; [|lia].
    apply forest_height_zero in Hh. subst nodes. contradiction Hne. reflexivity.
Qed.

(** C8: a level strictly greater than the depth of every chain of enabled
    nodes (the depth of a chain being the number of nodes on it, starting
    at a root), and likewise a level beyond the deepest level of the forest,
    yields the empty sequence; the query returns a plain sequence, there is
    no exception it could raise. *)
Theorem getFeaturesForLevel_overflow (this : FeatureForest) (level : Z) :
  (Z.of_nat (enabled_depth (_topology this)) < level)%Z
  \/ (Z.of_nat (forest_height (_topology this)) - 1 < level)%Z ->
  getFeaturesForLevel this level = [].
Proof.
  intros Hbeyond. unfold getFeaturesForLevel.
  destruct (Z.eqb_spec level 0) as [Heq|Hne].
  - destruct Hbeyond as [Hchain|Hheight]; [lia|].
    rewrite (forest_height_zero (_topology this)) by lia. reflexivity.
  - destruct Hbeyond as [Hchain|Hheight].
    + apply computeFeaturesForLevel_beyond_enabled. lia.
    + apply computeFeaturesForLevel_beyond_height. lia.
Qed.

(** ** Level 0 *)

Lemma set_roots (this : FeatureForest) (feature : FeatureArg) (value : bool) :
  map metadata (_topology (snd (set this feature value)))
  = map metadata (_topology this).
Proof.
  unfold set.
  destruct (findNodeInTopology this (feature_id feature)) as [[ref|]|e];
    simpl; [apply assign_enabled_metadata | reflexivity | reflexivity].
Qed.

Lemma forEach_roots {A} (method : FeatureForest -> A -> Mutation unit) :
  (forall this x,
      map metadata (_topology (snd (method this x)))
      = map metadata (_topology this)) ->
  forall xs this,
    map metadata (_topology (snd (forEach method xs this)))
    = map metadata (_topology this).
Proof.
  intros Hmethod. induction xs as [|x xs IH]; intros this; simpl; [reflexivity|].
  specialize (Hmethod this x).
  destruct (method this x) as [[[]|e] this']; simpl in *;
    [rewrite IH|]; exact Hmethod.
Qed.

Lemma perform_roots (this : FeatureForest) (call : Call) :
  map metadata (_topology (snd (perform this call)))
  = map metadata (_topology this).
Proof.
  destruct call; simpl; unfold enable, disable, enableAll, disableAll;
    try apply set_roots; apply forEach_roots; intros; apply set_roots.
Qed.

(** C4: level 0 is the metadata of every root in forest order, whatever the
    stored flags are, and no sequence of [set] / [enable] / [disable] /
    [enableAll] / [disableAll] calls changes it. *)
Theorem getFeaturesForLevel_zero (this : FeatureForest) (calls : list Call) :
  getFeaturesForLevel this 0 = map metadata (_topology this)
  /\ getFeaturesForLevel (after_calls calls this) 0 = getFeaturesForLevel this 0.
Proof.
  split; [reflexivity|].
  unfold getFeaturesForLevel. simpl.
  revert this. induction calls as [|call calls IH]; intros this; [reflexivity|].
  unfold after_calls in *. simpl. rewrite IH. apply perform_roots.
Qed.

(** ** The bulk query *)

Local Abbreviation nextSearch :=
  (flat_map (fun node : FeatureNode => filter enabled (children node))).

Lemma next_search_ind (P : list FeatureNode -> Prop) :
  (forall search, (search <> [] -> P (nextSearch search)) -> P search) ->
  forall search, P search.
Proof.
  intros step search.
  induction search as [search IH]
    using (well_founded_induction (well_founded_ltof _ forest_size)).
  apply step. intros Hne. apply IH. unfold ltof.
  destruct search as [|n rest]; [congruence|].
  cbn [flat_map]. rewrite forest_size_cons, forest_size_app.
  pose proof (forest_size_filter enabled (children n)).
  pose proof (forest_size_enabled_children rest). lia.
Qed.

Lemma Visited_incl (search search' : list FeatureNode) (n : FeatureNode) :
  incl search search' -> Visited search n -> Visited search' n.
Proof.
  intros Hincl Hv. destruct Hv as [search n Hn|search r n Hr Hbelow].
  - apply Visited_here, Hincl, Hn.
  - apply (Visited_below search' r n); [apply Hincl, Hr | exact Hbelow].
Qed.

Lemma Visited_step (search : list FeatureNode) (n : FeatureNode) :
  Visited search n <-> In n search \/ Visited (nextSearch search) n.
Proof.
  split.
  - intros [s x Hx|s r x Hr Hbelow]; [left; exact Hx|]. right.
    apply (Visited_incl (filter enabled (children r))); [|exact Hbelow].
    intros c Hc. apply in_flat_map. exists r. auto.
  - intros [Hn|Hnext]; [apply Visited_here, Hn|].
    inversion Hnext as [s x Hx|s r' x Hr' Hbelow]; subst.
    + apply in_flat_map in Hx as (r & Hr & Hx).
      apply (Visited_below search r n Hr), Visited_here, Hx.
    + apply in_flat_map in Hr' as (r & Hr & Hr').
      apply (Visited_below search r n Hr).
      apply (Visited_below _ r' n Hr' Hbelow).
Qed.

Lemma getAllEnabled_while_spec (search : list FeatureNode) :
  forall (enabled_ : list FeatureNodeMetadata) (m : FeatureNodeMetadata),
    In m (getAllEnabled_while search enabled_)
    <-> In m enabled_ \/ exists n, Visited search n /\ metadata n = m.
Proof.
  induction search as [search IH] using next_search_ind. intros acc m.
  destruct search as [|node rest].
  - simp getAllEnabled_while. split; [auto|].
    intros [Hacc|(n & Hv & _)]; [exact Hacc|].
    inversion Hv as [s x Hx|s r x Hr _]; contradiction.
  - simp getAllEnabled_while. rewrite IH by discriminate.
    rewrite in_app_iff, in_map_iff. split.
    + intros [[Hacc|(n & Hm & Hn)]|(n & Hv & Hm)]; [auto| |]; right; exists n;
        (split; [apply Visited_step; auto | exact Hm]).
    + intros [Hacc|(n & Hv & Hm)]; [auto|].
      apply Visited_step in Hv as [Hn|Hv]; [left; right|right]; exists n; auto.
Qed.

Lemma Visited_chain (search : list FeatureNode) (n : FeatureNode) :
  Visited search n ->
  forall l, search = filter enabled l ->
    exists ref, deref l ref = Some n /\ chain_enabled l ref = true.
Proof.
  induction 1 as [s x Hx|s r x Hr _ IH]; intros l ->.
  - apply filter_In in Hx as [Hx Hflag].
    destruct (In_nth_error _ _ Hx) as [i Hi].
    exists [i]. simpl. rewrite Hi, Hflag. auto.
  - apply filter_In in Hr as [Hr Hflag].
    destruct (In_nth_error _ _ Hr) as [i Hi].
    destruct (IH (children r) eq_refl) as (ref & Hn & Hchain).
    destruct ref as [|j rest]; [discriminate|].
    exists (i :: j :: rest). rewrite (deref_cons l i j rest r Hi).
    split; [exact Hn|]. simpl in *. rewrite Hi, Hflag. exact Hchain.
Qed.

Lemma chain_Visited (ref : NodeRef) :
  forall (l : list FeatureNode) (n : FeatureNode),
    deref l ref = Some n -> chain_enabled l ref = true ->
    Visited (filter enabled l) n.
Proof.
  induction ref as [|i rest IH]; intros l n; [discriminate|].
  simpl. destruct (nth_error l i) as [r|] eqn:Hi; [|discriminate].
  apply nth_error_In in Hi. intros Hn Hchain.
  apply andb_prop in Hchain as [Hflag Hchain].
  assert (Hr : In r (filter enabled l)) by (apply filter_In; auto).
  destruct rest as [|j rest].
  - injection Hn as <-. apply Visited_here, Hr.
  - apply (Visited_below _ r n Hr). apply (IH _ _ Hn Hchain).
Qed.

(** The flags along a reference, spelt out: the node itself and every
    ancestor, an ancestor being the node at a proper prefix. *)
Lemma chain_enabled_ancestors (ref : NodeRef) :
  forall (l : list FeatureNode) (n : FeatureNode),
    deref l ref = Some n ->
    (chain_enabled l ref = true
     <-> enabled n = true
         /\ forall k a, 0 < k < List.length ref ->
                        deref l (firstn k ref) = Some a -> enabled a = true).
Proof.
  induction ref as [|i rest IH]; intros l n; [discriminate|].
  simpl deref. simpl chain_enabled.
  destruct (nth_error l i) as [r|] eqn:Hi; [|discriminate].
  destruct rest as [|j rest].
  - intros [= ->]. rewrite andb_true_r. split.
    + intros Hflag. split; [exact Hflag|]. simpl. intros k a Hk. lia.
    + intros [Hflag _]. exact Hflag.
  - intros Hn. rewrite andb_true_iff, (IH _ _ Hn). split.
    + intros (Hr & Hflag & Hanc). split; [exact Hflag|].
      intros k a Hk. destruct k as [|[|k]]; [lia| |].
      * simpl. rewrite Hi. intros [= <-]. exact Hr.
      * change (firstn (S (S k)) (i :: j :: rest))
          with (i :: j :: firstn k rest).
        rewrite (deref_cons l i j _ r Hi).
        apply (Hanc (S k)). simpl in *. lia.
    + intros (Hflag & Hanc). split; [|split; [exact Hflag|]].
      * apply (Hanc 1); [simpl; lia|]. simpl. rewrite Hi. reflexivity.
      * intros k a Hk Ha. apply (Hanc (S k)); [simpl in *; lia|].
        destruct k as [|k]; [lia|].
        change (firstn (S (S k)) (i :: j :: rest))
          with (i :: j :: firstn k rest).
        rewrite (deref_cons l i j _ r Hi). exact Ha.
Qed.

(** C2: on a valid forest, [getAllEnabled] includes the metadata of a node
    exactly when the stored flag of the node is true and so is the stored
    flag of every ancestor on its path from a root. *)
Theorem getAllEnabled_iff (this : FeatureForest) (ref : NodeRef) (n : FeatureNode) :
  valid this ->
  deref (_topology this) ref = Some n ->
  (In (metadata n) (getAllEnabled this)
   <-> enabled n = true
       /\ forall k a, 0 < k < List.length ref ->
                      deref (_topology this) (firstn k ref) = Some a ->
                      enabled a = true).
Proof.
  intros Hvalid Hn. rewrite <- (chain_enabled_ancestors ref _ n Hn).
  unfold getAllEnabled. rewrite getAllEnabled_while_spec. split.
  - intros [[]|(n' & Hv & Hm)].
    destruct (Visited_chain _ _ Hv _ eq_refl) as (ref' & Hn' & Hchain).
    assert (Hid : id (metadata n') = id (metadata n)) by (rewrite Hm; reflexivity).
    rewrite (deref_unique _ Hvalid ref ref' n n' Hn Hn' (eq_sym Hid)).
    exact Hchain.
  - intros Hchain. right. exists n. split; [|reflexivity].
    apply (chain_Visited ref); assumption.
Qed.

(** ** The parent query *)

Lemma find_at_None {A} (p : nat -> A -> bool) (xs : list A) :
  forall i,
    (forall k x, nth_error xs k = Some x -> p (i + k) x = false) ->
    find_at p i xs = None.
Proof.
  induction xs as [|x xs IH]; intros i Hall; simpl; [reflexivity|].
  rewrite <- (Nat.add_0_r i) at 1. rewrite (Hall 0 x eq_refl).
  apply IH. intros k y Hk. rewrite Nat.add_succ_l, <- Nat.add_succ_r.
  apply Hall. exact Hk.
Qed.

Lemma find_at_first {A} (p : nat -> A -> bool) (xs : list A) :
  forall i k x,
    nth_error xs k = Some x ->
    (forall j y, j < k -> nth_error xs j = Some y -> p (i + j) y = false) ->
    p (i + k) x = true ->
    find_at p i xs = Some x.
Proof.
  induction xs as [|y xs IH]; intros i k x Hk Hbefore Hx;
    [destruct k; discriminate|].
  simpl. destruct k as [|k]; simpl in Hk.
  - injection Hk as ->. rewrite Nat.add_0_r in Hx. rewrite Hx. reflexivity.
  - rewrite <- (Nat.add_0_r i) at 1.
    rewrite (Hbefore 0 y (Nat.lt_0_succ k) eq_refl).
    apply (IH (S i) k); [exact Hk | |].
    + intros j z Hj Hz. rewrite Nat.add_succ_l, <- Nat.add_succ_r.
      apply Hbefore; [lia | exact Hz].
    + rewrite Nat.add_succ_l, <- Nat.add_succ_r. exact Hx.
Qed.

(** On a valid forest the parent of a root is never found: the access to
    [parent.metadata] fails. *)
Lemma getParentOf_root (this : FeatureForest) (feature : FeatureArg)
  (i : nat) (r : FeatureNode) :
  valid this ->
  nth_error (_topology this) i = Some r ->
  feature_id feature = id (metadata r) ->
  getParentOf this feature = Throw TypeError.
Proof.
  intros Hvalid Hi Hid. unfold getParentOf. rewrite Hid.
  rewrite <- (FeatureForest_eta this) at 1.
  rewrite (findNodeInTopology_present _ Hvalid [i] r)
    by (simpl; rewrite Hi; reflexivity).
  simpl. rewrite find_at_None; reflexivity.
Qed.

(** On a valid forest the parent of a direct child of a root is that root. *)
Lemma getParentOf_child (this : FeatureForest) (feature : FeatureArg)
  (i j : nat) (r c : FeatureNode) :
  valid this ->
  nth_error (_topology this) i = Some r ->
  nth_error (children r) j = Some c ->
  feature_id feature = id (metadata c) ->
  getParentOf this feature = Ok (Some (metadata r)).
Proof.
  intros Hvalid Hi Hj Hid. unfold getParentOf. rewrite Hid.
  rewrite <- (FeatureForest_eta this) at 1.
  rewrite (findNodeInTopology_present _ Hvalid [i; j] c)
    by (rewrite (deref_cons _ i j [] r Hi); simpl; rewrite Hj; reflexivity).
  simpl. rewrite (find_at_first _ (_topology this) 0 i r Hi); [reflexivity| |].
  - intros k y Hlt _. simpl.
    destruct (Nat.eqb_spec i k); [lia | reflexivity].
  - simpl. rewrite Nat.eqb_refl. simpl. apply Nat.ltb_lt.
    apply nth_error_Some. rewrite Hj. discriminate.
Qed.

End Properties.

(** * Properties of the catalog and of other concrete forests *)

Lemma valid_by_size {T : Type} `{EqDec T} (this : FeatureForest (T := T)) :
  (Set_size (forest_ids (_topology this))
   =? List.length (forest_ids (_topology this))) = true ->
  valid this.
Proof. apply Set_size_length. Qed.

(** C9: the freshly constructed catalog has five roots at level 0 and
    nothing at level 1; after the single call [enable(DATABASE)] level 1 is
    exactly [AUTHENTICATION; ASSET]. *)
Theorem catalog_levels :
  createCinnamonFeatureForest = Ok cinnamon
  /\ List.length (getFeaturesForLevel cinnamon 0) = 5
  /\ getFeaturesForLevel cinnamon 0
     = map CinnamonProjectFeature
         [VALIDATOR; DATABASE; ASL_PROTOCOL; ASL_ERRORS; WEBSERVER_SETTINGS_PLUGIN]
  /\ getFeaturesForLevel cinnamon 1 = []
  /\ exists enabledDatabase,
       enable cinnamon (ById DATABASE) = (Ok tt, enabledDatabase)
       /\ getFeaturesForLevel enabledDatabase 1
          = [CinnamonProjectFeature AUTHENTICATION; CinnamonProjectFeature ASSET]
       /\ List.length (getFeaturesForLevel enabledDatabase 1) = 2.
Proof.
  repeat split; try (vm_compute; reflexivity).
  eexists. repeat split; vm_compute; reflexivity.
Qed.

(** C1 (the case the constructor misses): two cousins share the identifier
    [AVATAR], yet every check passes and the forest is constructed. *)
Theorem cousins_accepted :
  ~ NoDup (forest_ids cousinsTopology)
  /\ forest cousinsTopology = Ok (mkFeatureForest cousinsTopology).
Proof.
  split; [|vm_compute; reflexivity].
  intros Hnd. apply Set_size_length in Hnd. vm_compute in Hnd. discriminate.
Qed.

(** C5 (the root case): asked for the parent of the root [VALIDATOR] of the
    catalog, [getParentOf] raises a [TypeError] instead of returning
    [undefined]; for [AUTHENTICATION], a direct child of the root
    [DATABASE], it returns the metadata of [DATABASE]. *)
Theorem getParentOf_on_catalog :
  getParentOf cinnamon (ById VALIDATOR) = Throw TypeError
  /\ getParentOf cinnamon (ById AUTHENTICATION)
     = Ok (Some (CinnamonProjectFeature DATABASE)).
Proof. split; vm_compute; reflexivity. Qed.

(** ** Instances on concrete forests *)

Lemma getAllEnabled_iff_witness :
  valid cinnamonPushOnly
  /\ deref (_topology cinnamonPushOnly) [1; 0; 0] = Some enabledPushTokensNode
  /\ (In (metadata enabledPushTokensNode) (getAllEnabled cinnamonPushOnly)
      <-> enabled enabledPushTokensNode = true
          /\ forall k a, 0 < k < List.length [1; 0; 0] ->
                deref (_topology cinnamonPushOnly) (firstn k [1; 0; 0]) = Some a ->
                enabled a = true).
Proof.
  assert (Hvalid : valid cinnamonPushOnly)
    by (apply valid_by_size; vm_compute; reflexivity).
  assert (Hnode : deref (_topology cinnamonPushOnly) [1; 0; 0]
                  = Some enabledPushTokensNode)
    by (vm_compute; reflexivity).
  split; [exact Hvalid|]. split; [exact Hnode|].
  apply (getAllEnabled_iff cinnamonPushOnly [1; 0; 0] enabledPushTokensNode
           Hvalid Hnode).
Defined.

Lemma disable_enable_restores_witness :
  valid cinnamonDatabase
  /\ deref (_topology cinnamonDatabase) [1] = Some enabledDatabaseNode
  /\ feature_id (ById DATABASE) = id (metadata enabledDatabaseNode)
  /\ enabled enabledDatabaseNode = true
  /\ exists disabled,
       disable cinnamonDatabase (ById DATABASE) = (Ok tt, disabled)
       /\ enable disabled (ById DATABASE) = (Ok tt, cinnamonDatabase).
Proof.
  assert (Hvalid : valid cinnamonDatabase)
    by (apply valid_by_size; vm_compute; reflexivity).
  assert (Hnode : deref (_topology cinnamonDatabase) [1] = Some enabledDatabaseNode)
    by (vm_compute; reflexivity).
  split; [exact Hvalid|]. split; [exact Hnode|].
  split; [reflexivity|]. split; [reflexivity|].
  destruct (disable_enable_restores cinnamonDatabase (ById DATABASE) [1]
              enabledDatabaseNode Hvalid Hnode eq_refl eq_refl)
    as (disabled & Hdisable & _ & Henable & _).
  exists disabled. split; assumption.
Defined.

Lemma set_unknown_throws_witness :
  ~ In (feature_id (ById AVATAR)) (forest_ids (_topology smallForest))
  /\ exists e, enable smallForest (ById AVATAR) = (Throw e, smallForest).
Proof.
  assert (Habsent : ~ In (feature_id (ById AVATAR))
                        (forest_ids (_topology smallForest)))
    by (simpl; intros [Heq|[Heq|[]]]; discriminate).
  split; [exact Habsent|].
  exact (proj1 (proj2 (set_unknown_throws smallForest (ById AVATAR) Habsent))).
Defined.

Lemma get_total_on_valid_witness :
  valid cinnamon /\ forall feature, exists b, get cinnamon feature = Ok b.
Proof.
  assert (Hvalid : valid cinnamon)
    by (apply valid_by_size; vm_compute; reflexivity).
  split; [exact Hvalid|].
  exact (proj1 (get_total_on_valid cinnamon Hvalid)).
Defined.

Lemma getFeaturesForLevel_overflow_witness :
  ((Z.of_nat (enabled_depth (_topology cinnamonDatabase)) < 100)%Z
   \/ (Z.of_nat (forest_height (_topology cinnamonDatabase)) - 1 < 100)%Z)
  /\ getFeaturesForLevel cinnamonDatabase 100 = [].
Proof.
  assert (Hbeyond :
    (Z.of_nat (enabled_depth (_topology cinnamonDatabase)) < 100)%Z
    \/ (Z.of_nat (forest_height (_topology cinnamonDatabase)) - 1 < 100)%Z)
    by (left; vm_compute; reflexivity).
  split; [exact Hbeyond|].
  apply (getFeaturesForLevel_overflow cinnamonDatabase 100 Hbeyond).
Defined.

Lemma getFeaturesForLevel_negative_witness :
  (-1 < 0)%Z /\ getFeaturesForLevel cinnamonDatabase (-1) = [].
Proof.
  split; [reflexivity|].
  apply (getFeaturesForLevel_negative cinnamonDatabase (-1)). reflexivity.
Defined.

(** * Further properties of the forest *)

Section ForestFacts.

Context {T : Type} `{EqDec T}.

Local Abbreviation FeatureNode := (FeatureNode (T := T)).
Local Abbreviation FeatureForest := (FeatureForest (T := T)).
Local Abbreviation result := (result (T := T)).
Local Abbreviation root_id := (fun node : FeatureNode => id (metadata node)).

Notation "x <- c ;; k" := (bind c (fun x => k))
  (at level 61, c at next level, right associativity).

(** ** Levels as sets of references *)

Lemma nextNodes_app (xs ys : list FeatureNode) :
  nextNodes (xs ++ ys) = nextNodes xs ++ nextNodes ys.
Proof. unfold nextNodes. rewrite filter_app, flat_map_app. reflexivity. Qed.

Lemma nodesAtLevel_nil (k : nat) : nodesAtLevel k ([] : list FeatureNode) = [].
Proof. induction k as [|k IH]; [reflexivity | exact IH]. Qed.

Lemma nodesAtLevel_app (k : nat) :
  forall xs ys : list FeatureNode,
    nodesAtLevel k (xs ++ ys) = nodesAtLevel k xs ++ nodesAtLevel k ys.
Proof.
  induction k as [|k IH]; intros xs ys; [reflexivity|].
  simpl. rewrite nextNodes_app. apply IH.
Qed.

Lemma nodesAtLevel_below (k : nat) (l : list FeatureNode) :
  nodesAtLevel (S k) l
  = flat_map (fun r => nodesAtLevel k (children r)) (filter enabled l).
Proof.
  induction l as [|r l IH]; [apply nodesAtLevel_nil|].
  change (nodesAtLevel (S k) (r :: l)) with (nodesAtLevel k (nextNodes (r :: l))).
  change (nodesAtLevel (S k) l) with (nodesAtLevel k (nextNodes l)) in IH.
  unfold nextNodes in *. cbn [filter].
  destruct (enabled r); cbn [flat_map]; [rewrite nodesAtLevel_app|];
    rewrite IH; reflexivity.
Qed.

Lemma computeFeaturesForLevel_nodes (k : nat) :
  forall (nodes : list FeatureNode) (currentLevel : Z),
    _computeFeaturesForLevel (currentLevel + Z.of_nat k) nodes currentLevel
    = map metadata (nodesAtLevel k nodes).
Proof.
  induction k as [|k IH]; intros nodes currentLevel;
    rewrite computeFeaturesForLevel_eq.
  - replace (currentLevel =? currentLevel + Z.of_nat 0)%Z with true
      by (symmetry; apply Z.eqb_eq; lia).
    reflexivity.
  - replace (currentLevel =? currentLevel + Z.of_nat (S k))%Z with false
      by (symmetry; apply Z.eqb_neq; lia).
    simpl nodesAtLevel.
    destruct (nextNodes nodes) as [|n rest] eqn:Hnext.
    + simpl. rewrite nodesAtLevel_nil. reflexivity.
    + simpl List.length. simpl Nat.eqb. rewrite <- (IH (n :: rest) (currentLevel + 1)%Z).
      f_equal. lia.
Qed.

Lemma getFeaturesForLevel_nodes (this : FeatureForest) (level : Z) :
  (0 <= level)%Z ->
  getFeaturesForLevel this level
  = map metadata (nodesAtLevel (Z.to_nat level) (_topology this)).
Proof.
  intros Hlevel. unfold getFeaturesForLevel.
  destruct (Z.eqb_spec level 0) as [->|Hne]; [reflexivity|].
  rewrite <- (computeFeaturesForLevel_nodes (Z.to_nat level) _ 0).
  f_equal. lia.
Qed.

Lemma nodesAtLevel_In (k : nat) :
  forall (l : list FeatureNode) (n : FeatureNode),
    In n (nodesAtLevel k l)
    <-> exists ref, List.length ref = S k /\ deref l ref = Some n
                    /\ ancestors_enabled l ref = true.
Proof.
  induction k as [|k IH]; intros l n.
  - simpl. split.
    + intros Hn. destruct (In_nth_error _ _ Hn) as [i Hi].
      exists [i]. simpl. rewrite Hi. auto.
    + intros ([|i [|j rest]] & Hlen & Hn & _); try discriminate.
      simpl in Hn. destruct (nth_error l i) as [r|] eqn:Hi; [|discriminate].
      injection Hn as <-. eapply nth_error_In. exact Hi.
  - rewrite nodesAtLevel_below, in_flat_map. split.
    + intros (r & Hr & Hn). apply filter_In in Hr as [Hr Hflag].
      apply IH in Hn as (ref & Hlen & Hn & Hanc).
      destruct (In_nth_error _ _ Hr) as [i Hi].
      destruct ref as [|j rest]; [discriminate|].
      exists (i :: j :: rest). split; [simpl in *; lia|].
      rewrite (deref_cons l i j rest r Hi). split; [exact Hn|].
      simpl in *. rewrite Hi, Hflag. exact Hanc.
    + intros ([|i [|j rest]] & Hlen & Hn & Hanc); try discriminate.
      destruct (nth_error l i) as [r|] eqn:Hi;
        [|simpl in Hn; rewrite Hi in Hn; discriminate].
      rewrite (deref_cons l i j rest r Hi) in Hn.
      simpl in Hanc. rewrite Hi in Hanc.
      apply andb_prop in Hanc as [Hflag Hanc].
      exists r. split; [apply filter_In; split;
                         [eapply nth_error_In; exact Hi | exact Hflag]|].
      apply IH. exists (j :: rest). split; [simpl in *; lia|]. auto.
Qed.

Lemma ancestors_enabled_prefixes (ref : NodeRef) :
  forall (l : list FeatureNode) (n : FeatureNode),
    deref l ref = Some n ->
    (ancestors_enabled l ref = true
     <-> forall k a, 0 < k < List.length ref ->
                     deref l (firstn k ref) = Some a -> enabled a = true).
Proof.
  induction ref as [|i rest IH]; intros l n; [discriminate|].
  simpl deref. simpl ancestors_enabled.
  destruct (nth_error l i) as [r|] eqn:Hi; [|discriminate].
  destruct rest as [|j rest].
  - intros _. split; [|reflexivity]. simpl. intros _ k a Hk. lia.
  - intros Hn. rewrite andb_true_iff, (IH _ _ Hn). split.
    + intros (Hr & Hanc) k a Hk. destruct k as [|[|k]]; [lia| |].
      * simpl. rewrite Hi. intros [= <-]. exact Hr.
      * change (firstn (S (S k)) (i :: j :: rest))
          with (i :: j :: firstn k rest).
        rewrite (deref_cons l i j _ r Hi).
        apply (Hanc (S k)). simpl in *. lia.
    + intros Hanc. split.
      * apply (Hanc 1); [simpl; lia|]. simpl. rewrite Hi. reflexivity.
      * intros k a Hk Ha. apply (Hanc (S k)); [simpl in *; lia|].
        destruct k as [|k]; [lia|].
        change (firstn (S (S k)) (i :: j :: rest))
          with (i :: j :: firstn k rest).
        rewrite (deref_cons l i j _ r Hi). exact Ha.
Qed.

Lemma chain_enabled_split (ref : NodeRef) :
  forall (l : list FeatureNode) (n : FeatureNode),
    deref l ref = Some n ->
    chain_enabled l ref = ancestors_enabled l ref && enabled n.
Proof.
  induction ref as [|i rest IH]; intros l n; [discriminate|].
  simpl. destruct (nth_error l i) as [r|]; [|discriminate].
  destruct rest as [|j rest].
  - intros [= ->]. rewrite andb_true_r. reflexivity.
  - intros Hn. rewrite (IH _ _ Hn), andb_assoc. reflexivity.
Qed.

(** X1: for a level [>= 0], [getFeaturesForLevel(level)] holds exactly the
    metadata of the nodes sitting [level] steps below the roots whose proper
    ancestors all have their stored flag set; the node's own flag plays no
    part. *)
Theorem getFeaturesForLevel_members (this : FeatureForest) (level : Z)
  (m : FeatureNodeMetadata) :
  (0 <= level)%Z ->
  (In m (getFeaturesForLevel this level)
   <-> exists ref n,
         Z.of_nat (List.length ref) = (level + 1)%Z
         /\ deref (_topology this) ref = Some n
         /\ metadata n = m
         /\ forall k a, 0 < k < List.length ref ->
                        deref (_topology this) (firstn k ref) = Some a ->
                        enabled a = true).
Proof.
  intros Hlevel. rewrite (getFeaturesForLevel_nodes this level Hlevel), in_map_iff.
  split.
  - intros (n & Hm & Hn). apply nodesAtLevel_In in Hn as (ref & Hlen & Hn & Hanc).
    exists ref, n. split; [lia|]. split; [exact Hn|]. split; [exact Hm|].
    apply (ancestors_enabled_prefixes ref _ n Hn), Hanc.
  - intros (ref & n & Hlen & Hn & Hm & Hanc). exists n. split; [exact Hm|].
    apply nodesAtLevel_In. exists ref. split; [lia|]. split; [exact Hn|].
    apply (ancestors_enabled_prefixes ref _ n Hn), Hanc.
Qed.

(** ** Enabled features per level *)

Lemma get_present (this : FeatureForest) (feature : FeatureArg)
  (ref : NodeRef) (n : FeatureNode) :
  valid this ->
  deref (_topology this) ref = Some n ->
  feature_id feature = id (metadata n) ->
  get this feature = Ok (enabled n).
Proof.
  intros Hvalid Hn Hid. unfold get. rewrite Hid.
  rewrite <- (FeatureForest_eta this) at 1.
  rewrite (findNodeInTopology_present _ Hvalid ref n Hn). simpl.
  rewrite Hn. reflexivity.
Qed.

Lemma get_absent (this : FeatureForest) (feature : FeatureArg) :
  valid this ->
  ~ In (feature_id feature) (forest_ids (_topology this)) ->
  get this feature = Ok false.
Proof.
  intros Hvalid Hid. unfold get.
  rewrite <- (FeatureForest_eta this) at 1.
  rewrite (findNodeInTopology_absent _ Hvalid _ Hid). reflexivity.
Qed.

Lemma filter_throwing_map {A B} (p : B -> result bool) (f : A -> B)
  (q : A -> bool) (xs : list A) :
  (forall x, In x xs -> p (f x) = Ok (q x)) ->
  filter_throwing p (map f xs) = Ok (map f (filter q xs)).
Proof.
  induction xs as [|x xs IH]; intros Hp; simpl; [reflexivity|].
  rewrite (Hp x) by (left; reflexivity). simpl.
  rewrite IH by (intros; apply Hp; right; assumption). simpl.
  destruct (q x); reflexivity.
Qed.

Lemma getEnabledFeaturesForLevel_nodes (this : FeatureForest) (level : Z) :
  valid this -> (0 <= level)%Z ->
  getEnabledFeaturesForLevel this level
  = Ok (map metadata
          (filter enabled (nodesAtLevel (Z.to_nat level) (_topology this)))).
Proof.
  intros Hvalid Hlevel. unfold getEnabledFeaturesForLevel.
  rewrite (getFeaturesForLevel_nodes this level Hlevel).
  apply filter_throwing_map. intros n Hn.
  apply nodesAtLevel_In in Hn as (ref & _ & Hn & _).
  apply (get_present this _ ref n Hvalid Hn). reflexivity.
Qed.

Lemma getAllEnabled_In (this : FeatureForest) (m : FeatureNodeMetadata) :
  In m (getAllEnabled this)
  <-> exists ref n, deref (_topology this) ref = Some n /\ metadata n = m
                    /\ chain_enabled (_topology this) ref = true.
Proof.
  unfold getAllEnabled. rewrite getAllEnabled_while_spec. split.
  - intros [[]|(n & Hv & Hm)].
    destruct (Visited_chain _ _ Hv _ eq_refl) as (ref & Hn & Hchain).
    exists ref, n. auto.
  - intros (ref & n & Hn & Hm & Hchain). right. exists n. split; [|exact Hm].
    apply (chain_Visited ref); assumption.
Qed.

(** X2: on a valid forest [getEnabledFeaturesForLevel] never throws, and
    what it returns for a level are exactly the features that
    [getFeaturesForLevel] offers at that level and that [getAllEnabled]
    reports as enabled. *)
Theorem getEnabledFeaturesForLevel_members (this : FeatureForest) (level : Z) :
  valid this ->
  exists features,
    getEnabledFeaturesForLevel this level = Ok features
    /\ forall m, In m features
                 <-> In m (getFeaturesForLevel this level)
                     /\ In m (getAllEnabled this).
Proof.
  intros Hvalid. destruct (Z.lt_ge_cases level 0) as [Hneg|Hlevel].
  - exists []. unfold getEnabledFeaturesForLevel, getFeaturesForLevel.
    replace (level =? 0)%Z with false by (symmetry; apply Z.eqb_neq; lia).
    rewrite (computeFeaturesForLevel_unmatched level _ 0 Hneg). simpl.
    split; [reflexivity|]. intros m. tauto.
  - eexists. split; [apply (getEnabledFeaturesForLevel_nodes this level Hvalid Hlevel)|].
    intros m. rewrite (getFeaturesForLevel_nodes this level Hlevel).
    rewrite !in_map_iff, getAllEnabled_In. split.
    + intros (n & Hm & Hn). apply filter_In in Hn as [Hn Hflag].
      split; [exists n; auto|].
      apply nodesAtLevel_In in Hn as (ref & _ & Hn & Hanc).
      exists ref, n. split; [exact Hn|]. split; [exact Hm|].
      rewrite (chain_enabled_split ref _ n Hn), Hanc, Hflag. reflexivity.
    + intros [(n & Hm & Hn) (ref' & n' & Hn' & Hm' & Hchain)].
      exists n. split; [exact Hm|]. apply filter_In. split; [exact Hn|].
      apply nodesAtLevel_In in Hn as (ref & _ & Href & _).
      assert (Hid : id (metadata n) = id (metadata n')) by congruence.
      pose proof (deref_unique _ Hvalid ref ref' n n' Href Hn' Hid) as <-.
      assert (n' = n) by congruence. subst n'.
      rewrite (chain_enabled_split ref _ n Href) in Hchain.
      apply andb_prop in Hchain. tauto.
Qed.

(** ** The bulk query, level by level *)

Lemma nodesAtLevel_succ (k : nat) :
  forall l : list FeatureNode,
    nodesAtLevel (S k) l = nextNodes (nodesAtLevel k l).
Proof.
  induction k as [|k IH]; intros l; [reflexivity|].
  change (nodesAtLevel (S (S k)) l) with (nodesAtLevel (S k) (nextNodes l)).
  rewrite IH. reflexivity.
Qed.

Lemma filter_enabled_nextNodes (l : list FeatureNode) :
  filter enabled (nextNodes l)
  = flat_map (fun node => filter enabled (children node)) (filter enabled l).
Proof.
  unfold nextNodes. induction (filter enabled l) as [|r rs IH]; [reflexivity|].
  simpl. rewrite filter_app, IH. reflexivity.
Qed.

Lemma forest_height_nodesAtLevel (k : nat) :
  forall l : list FeatureNode,
    forest_height (nodesAtLevel k l) <= forest_height l - k.
Proof.
  induction k as [|k IH]; intros l; [simpl; lia|].
  simpl. pose proof (IH (nextNodes l)). pose proof (forest_height_next l). lia.
Qed.

Lemma nodesAtLevel_beyond (l : list FeatureNode) (k : nat) :
  forest_height l <= k -> nodesAtLevel k l = [].
Proof.
  intros Hk. apply forest_height_zero.
  pose proof (forest_height_nodesAtLevel k l). lia.
Qed.

Lemma getAllEnabled_while_levels (l : list FeatureNode) (fuel : nat) :
  forall (k : nat) (acc : list FeatureNodeMetadata),
    filter enabled (nodesAtLevel (k + fuel) l) = [] ->
    getAllEnabled_while (filter enabled (nodesAtLevel k l)) acc
    = acc ++ List.concat (map (fun j => map metadata
                                     (filter enabled (nodesAtLevel j l)))
                         (seq k fuel)).
Proof.
  induction fuel as [|fuel IH]; intros k acc Hend.
  - rewrite Nat.add_0_r in Hend. rewrite Hend. simp getAllEnabled_while.
    simpl. rewrite app_nil_r. reflexivity.
  - assert (Hnext : filter enabled (nodesAtLevel (S k) l)
                    = flat_map (fun node => filter enabled (children node))
                               (filter enabled (nodesAtLevel k l)))
      by (rewrite nodesAtLevel_succ; apply filter_enabled_nextNodes).
    replace (k + S fuel) with (S k + fuel) in Hend by lia.
    specialize (IH (S k)). cbn [seq map List.concat].
    destruct (filter enabled (nodesAtLevel k l)) as [|n rest] eqn:Hk.
    + simp getAllEnabled_while. cbn [flat_map] in Hnext.
      pose proof (IH acc Hend) as Hrest. rewrite Hnext in Hrest.
      simp getAllEnabled_while in Hrest. simpl.
      rewrite <- (app_nil_r acc) in Hrest at 1.
      apply app_inv_head in Hrest. rewrite <- Hrest, app_nil_r. reflexivity.
    + simp getAllEnabled_while. rewrite <- Hnext.
      rewrite (IH _ Hend), app_assoc. reflexivity.
Qed.

(** X3: on a valid forest [getAllEnabled()] is the concatenation, level
    after level from 0 to the deepest level of the forest, of what
    [getEnabledFeaturesForLevel] returns. *)
Theorem getAllEnabled_by_levels (this : FeatureForest) :
  valid this ->
  exists perLevel,
    Forall2 (fun k features =>
               getEnabledFeaturesForLevel this (Z.of_nat k) = Ok features)
            (seq 0 (forest_height (_topology this))) perLevel
    /\ getAllEnabled this = List.concat perLevel.
Proof.
  intros Hvalid.
  exists (map (fun j => map metadata
                          (filter enabled (nodesAtLevel j (_topology this))))
              (seq 0 (forest_height (_topology this)))).
  split.
  - induction (seq 0 (forest_height (_topology this))) as [|k ks IH];
      simpl; constructor; [|exact IH].
    rewrite (getEnabledFeaturesForLevel_nodes this _ Hvalid (Nat2Z.is_nonneg k)).
    rewrite Nat2Z.id. reflexivity.
  - unfold getAllEnabled.
    apply (getAllEnabled_while_levels (_topology this)
             (forest_height (_topology this)) 0 []).
    simpl. rewrite nodesAtLevel_beyond; [reflexivity | lia].
Qed.

(** ** Writing and reading back *)

Lemma stored_deref (l : list FeatureNode) (ref : NodeRef) (n : FeatureNode) :
  deref l ref = Some n -> stored l ref = Some (metadata n, enabled n).
Proof. unfold stored. intros ->. reflexivity. Qed.

Lemma stored_inv (l : list FeatureNode) (ref : NodeRef)
  (m : FeatureNodeMetadata) (e : bool) :
  stored l ref = Some (m, e) ->
  exists n, deref l ref = Some n /\ metadata n = m /\ enabled n = e.
Proof.
  unfold stored. destruct (deref l ref) as [n|]; [|discriminate].
  intros [= <- <-]. exists n. auto.
Qed.

Lemma valid_assign (this : FeatureForest) (ref : NodeRef) (value : bool) :
  valid this ->
  valid (mkFeatureForest (assign_enabled ref value (_topology this))).
Proof. unfold valid. simpl. rewrite assign_enabled_ids. auto. Qed.

Lemma get_other_after_assign (this : FeatureForest) (ref : NodeRef)
  (n : FeatureNode) (value : bool) (g : FeatureArg) :
  valid this ->
  deref (_topology this) ref = Some n ->
  feature_id g <> id (metadata n) ->
  get (mkFeatureForest (assign_enabled ref value (_topology this))) g
  = get this g.
Proof.
  intros Hvalid Hn Hg.
  pose proof (valid_assign this ref value Hvalid) as Hvalid'.
  destruct (in_dec eq_dec (feature_id g) (forest_ids (_topology this)))
    as [Hin|Hnin].
  - destruct (in_forest_ids_deref _ _ Hin) as (ref' & n' & Hn' & Hid).
    assert (Hne : ref' <> ref) by (intros ->; congruence).
    pose proof (assign_enabled_other ref value (_topology this) ref' Hne) as Hst.
    rewrite (stored_deref _ _ _ Hn') in Hst.
    apply stored_inv in Hst as (n'' & Hn'' & Hm & He).
    rewrite (get_present this g ref' n' Hvalid Hn') by congruence.
    rewrite (get_present _ g ref' n'' Hvalid' Hn'') by congruence.
    rewrite He. reflexivity.
  - rewrite (get_absent this g Hvalid Hnin).
    apply (get_absent _ g Hvalid'). simpl. rewrite assign_enabled_ids. exact Hnin.
Qed.

(** X4: on a valid forest, [set(f, value)] for a registered feature returns
    normally and keeps the forest valid; [get(f)] then returns [value], and
    [get] of every feature with another identifier answers as before. *)
Theorem set_then_get (this : FeatureForest) (feature : FeatureArg) (value : bool) :
  valid this ->
  In (feature_id feature) (forest_ids (_topology this)) ->
  exists this',
    set this feature value = (Ok tt, this')
    /\ valid this'
    /\ get this' feature = Ok value
    /\ forall g, feature_id g <> feature_id feature -> get this' g = get this g.
Proof.
  intros Hvalid Hin.
  destruct (in_forest_ids_deref _ _ Hin) as (ref & n & Hn & Hid).
  exists (mkFeatureForest (assign_enabled ref value (_topology this))).
  split; [apply (set_present this feature value ref n Hvalid Hn); congruence|].
  split; [apply valid_assign, Hvalid|].
  split.
  - apply (get_present _ feature ref
             (mkFeatureNode (metadata n) (_children n) value)).
    + apply valid_assign, Hvalid.
    + simpl. apply assign_enabled_deref, Hn.
    + simpl. congruence.
  - intros g Hg. apply (get_other_after_assign this ref n value g Hvalid Hn).
    congruence.
Qed.

(** X5: on a valid forest the last [set] of a registered feature wins, and
    a [set] to the value already stored leaves the forest as it is. *)
Theorem set_overwrites (this : FeatureForest) (feature : FeatureArg) (v w : bool) :
  valid this ->
  In (feature_id feature) (forest_ids (_topology this)) ->
  snd (set (snd (set this feature v)) feature w) = snd (set this feature w)
  /\ (get this feature = Ok v -> set this feature v = (Ok tt, this)).
Proof.
  intros Hvalid Hin.
  destruct (in_forest_ids_deref _ _ Hin) as (ref & n & Hn & Hid).
  symmetry in Hid.
  rewrite !(set_present this feature _ ref n Hvalid Hn Hid). simpl. split.
  - rewrite (set_present _ feature w ref
               (mkFeatureNode (metadata n) (_children n) v)).
    + simpl. rewrite assign_enabled_twice. reflexivity.
    + apply valid_assign, Hvalid.
    + simpl. apply assign_enabled_deref, Hn.
    + exact Hid.
  - rewrite (get_present this feature ref n Hvalid Hn Hid). intros [= Hflag].
    rewrite (assign_enabled_same ref v _ n Hn Hflag), FeatureForest_eta.
    reflexivity.
Qed.

Lemma update_nth_ext {A} (f g : A -> A) (i : nat) (xs : list A) :
  (forall x, nth_error xs i = Some x -> f x = g x) ->
  update_nth f i xs = update_nth g i xs.
Proof.
  revert i. induction xs as [|x xs IH]; intros i Heq; simpl; [reflexivity|].
  destruct i as [|i].
  - rewrite (Heq x eq_refl). reflexivity.
  - rewrite (IH i Heq). reflexivity.
Qed.

Lemma update_nth_comm {A} (f g : A -> A) (i j : nat) (xs : list A) :
  i <> j ->
  update_nth f i (update_nth g j xs) = update_nth g j (update_nth f i xs).
Proof.
  revert i j. induction xs as [|x xs IH]; intros i j Hne; simpl; [reflexivity|].
  destruct i as [|i], j as [|j]; simpl; try reflexivity; [congruence|].
  rewrite (IH i j) by congruence. reflexivity.
Qed.

Lemma assign_enabled_comm (ref1 : NodeRef) (v w : bool) :
  forall (ref2 : NodeRef) (l : list FeatureNode),
    ref1 <> ref2 ->
    assign_enabled ref1 v (assign_enabled ref2 w l)
    = assign_enabled ref2 w (assign_enabled ref1 v l).
Proof.
  induction ref1 as [|i rest1 IH]; intros ref2 l Hne.
  - destruct ref2; reflexivity.
  - destruct ref2 as [|j rest2]; [reflexivity|].
    cbn [assign_enabled]. destruct (Nat.eq_dec i j) as [<-|Hij].
    + match goal with
      | |- update_nth ?F1 i (update_nth ?F2 i l) = _ =>
          rewrite (update_nth_twice F1 F2 (fun x => F1 (F2 x)) i l)
            by reflexivity;
          rewrite (update_nth_twice F2 F1 (fun x => F1 (F2 x)) i l);
            [reflexivity|]
      end.
      intros x _.
      destruct rest1 as [|i1 rest1], rest2 as [|i2 rest2];
        cbv beta iota; cbn [metadata _children enabled];
        try reflexivity; [congruence|].
      f_equal. symmetry. apply IH. congruence.
    + apply update_nth_comm. exact Hij.
Qed.

(** X6: on a valid forest, [set] calls on two registered features with
    different identifiers commute: either order leaves the same forest. *)
Theorem set_commutes (this : FeatureForest) (f g : FeatureArg) (v w : bool) :
  valid this ->
  In (feature_id f) (forest_ids (_topology this)) ->
  In (feature_id g) (forest_ids (_topology this)) ->
  feature_id f <> feature_id g ->
  snd (set (snd (set this f v)) g w) = snd (set (snd (set this g w)) f v).
Proof.
  intros Hvalid Hf Hg Hne.
  destruct (in_forest_ids_deref _ _ Hf) as (rf & nf & Hnf & Hidf).
  destruct (in_forest_ids_deref _ _ Hg) as (rg & ng & Hng & Hidg).
  symmetry in Hidf, Hidg.
  assert (Hrefs : rf <> rg) by (intros ->; congruence).
  rewrite (set_present this f v rf nf Hvalid Hnf Hidf).
  rewrite (set_present this g w rg ng Hvalid Hng Hidg). simpl.
  pose proof (assign_enabled_other rf v (_topology this) rg
                (fun E => Hrefs (eq_sym E))) as Hsg.
  rewrite (stored_deref _ _ _ Hng) in Hsg.
  apply stored_inv in Hsg as (ng' & Hng' & Hmg & _).
  pose proof (assign_enabled_other rg w (_topology this) rf Hrefs) as Hsf.
  rewrite (stored_deref _ _ _ Hnf) in Hsf.
  apply stored_inv in Hsf as (nf' & Hnf' & Hmf & _).
  rewrite (set_present _ g w rg ng' (valid_assign this rf v Hvalid) Hng')
    by congruence.
  rewrite (set_present _ f v rf nf' (valid_assign this rg w Hvalid) Hnf')
    by congruence.
  simpl. f_equal. apply assign_enabled_comm. congruence.
Qed.

(** ** What no call changes *)

Lemma reset_assign (ref : NodeRef) (value : bool) :
  forall l : list FeatureNode,
    map reset (assign_enabled ref value l) = map reset l.
Proof.
  induction ref as [|i rest IH]; intros l; [reflexivity|]. simpl.
  apply map_update_nth. intros [m cs e] _.
  destruct rest as [|j rest]; [reflexivity|].
  cbv beta iota. cbn [reset metadata _children]. rewrite (IH cs). reflexivity.
Qed.

Lemma set_topology (this : FeatureForest) (feature : FeatureArg) (value : bool) :
  map reset (_topology (snd (set this feature value)))
  = map reset (_topology this)
  /\ forest_ids (_topology (snd (set this feature value)))
     = forest_ids (_topology this).
Proof.
  unfold set.
  destruct (findNodeInTopology this (feature_id feature)) as [[ref|]|e];
    simpl; auto using reset_assign, assign_enabled_ids.
Qed.

Lemma forEach_topology {A} (method : FeatureForest -> A -> Mutation unit) :
  (forall this x,
      map reset (_topology (snd (method this x))) = map reset (_topology this)
      /\ forest_ids (_topology (snd (method this x)))
         = forest_ids (_topology this)) ->
  forall xs this,
    map reset (_topology (snd (forEach method xs this)))
    = map reset (_topology this)
    /\ forest_ids (_topology (snd (forEach method xs this)))
       = forest_ids (_topology this).
Proof.
  intros Hmethod. induction xs as [|x xs IH]; intros this; simpl; [auto|].
  specialize (Hmethod this x).
  destruct (method this x) as [[[]|e] this']; simpl in *; [|exact Hmethod].
  destruct (IH this') as [Hr Hi]. rewrite Hr, Hi. exact Hmethod.
Qed.

Lemma perform_topology (this : FeatureForest) (call : Call) :
  map reset (_topology (snd (perform this call))) = map reset (_topology this)
  /\ forest_ids (_topology (snd (perform this call)))
     = forest_ids (_topology this).
Proof.
  destruct call; simpl; unfold enable, disable, enableAll, disableAll;
    try apply set_topology; apply forEach_topology; intros; apply set_topology.
Qed.

(** X7: whatever sequence of [set] / [enable] / [disable] / [enableAll] /
    [disableAll] calls is made, returning or throwing, the topology stays
    what it was: the same nodes with the same metadata in the same places,
    the same identifiers, and a valid forest stays valid. *)
Theorem calls_keep_topology (this : FeatureForest) (calls : list Call) :
  map reset (_topology (after_calls calls this)) = map reset (_topology this)
  /\ forest_ids (_topology (after_calls calls this))
     = forest_ids (_topology this)
  /\ (valid this -> valid (after_calls calls this)).
Proof.
  assert (Hboth :
    map reset (_topology (after_calls calls this)) = map reset (_topology this)
    /\ forest_ids (_topology (after_calls calls this))
       = forest_ids (_topology this)).
  { revert this. induction calls as [|call calls IH]; intros this; [auto|].
    unfold after_calls in *. simpl.
    destruct (IH (snd (perform this call))) as [Hr Hi]. rewrite Hr, Hi.
    apply perform_topology. }
  destruct Hboth as [Hr Hi]. split; [exact Hr|]. split; [exact Hi|].
  unfold valid. rewrite Hi. auto.
Qed.

(** ** Bulk mutation *)

Lemma forEach_app {A} (method : FeatureForest -> A -> Mutation unit)
  (xs ys : list A) :
  forall this,
    forEach method (xs ++ ys) this
    = match forEach method xs this with
      | (Ok _, this') => forEach method ys this'
      | (Throw e, this') => (Throw e, this')
      end.
Proof.
  induction xs as [|x xs IH]; intros this; simpl; [reflexivity|].
  destruct (method this x) as [[[]|e] this']; [apply IH | reflexivity].
Qed.

Lemma forEach_set_present (value : bool) (features : list FeatureArg) :
  forall this : FeatureForest,
    valid this ->
    Forall (fun f => In (feature_id f) (forest_ids (_topology this))) features ->
    exists this',
      forEach (fun this f => set this f value) features this = (Ok tt, this')
      /\ valid this'
      /\ forall ref n,
           deref (_topology this) ref = Some n ->
           stored (_topology this') ref
           = Some (metadata n,
                   if includes (map feature_id features) (id (metadata n))
                   then value else enabled n).
Proof.
  induction features as [|f fs IH]; intros this Hvalid Hall.
  - exists this. simpl. split; [reflexivity|]. split; [exact Hvalid|].
    intros ref n Hn. apply stored_deref, Hn.
  - inversion Hall as [|? ? Hf Hfs]; subst.
    destruct (in_forest_ids_deref _ _ Hf) as (rf & nf & Hnf & Hid).
    symmetry in Hid. simpl.
    rewrite (set_present this f value rf nf Hvalid Hnf Hid).
    pose proof (valid_assign this rf value Hvalid) as Hvalid1.
    destruct (IH _ Hvalid1) as (this' & Hrun & Hvalid' & Hflags).
    { simpl. rewrite assign_enabled_ids. exact Hfs. }
    exists this'. split; [exact Hrun|]. split; [exact Hvalid'|].
    intros ref n Hn. destruct (list_eq_dec Nat.eq_dec ref rf) as [->|Hne].
    + assert (n = nf) by congruence. subst n.
      rewrite (Hflags rf _ (assign_enabled_deref rf value _ nf Hnf)). simpl.
      replace (strict_eq (id (metadata nf)) (feature_id f)) with true
        by (symmetry; apply (proj2 (strict_eq_true _ _)); congruence).
      simpl. destruct (includes _ _); reflexivity.
    + pose proof (assign_enabled_other rf value (_topology this) ref Hne) as Hst.
      rewrite (stored_deref _ _ _ Hn) in Hst.
      apply stored_inv in Hst as (n1 & Hn1 & Hm & He).
      rewrite (Hflags ref n1 Hn1), Hm, He. simpl.
      replace (strict_eq (id (metadata n)) (feature_id f)) with false;
        [reflexivity|].
      symmetry.
      destruct (strict_eq (id (metadata n)) (feature_id f)) eqn:Heq;
        [|reflexivity].
      apply (proj1 (strict_eq_true _ _)) in Heq. exfalso. apply Hne.
      apply (deref_unique _ Hvalid ref rf n nf Hn Hnf). congruence.
Qed.

(** X8: on a valid forest, [enableAll] (resp. [disableAll]) of registered
    features returns normally; afterwards the stored flag is true (resp.
    false) at exactly the nodes whose identifier was listed, and every other
    node stores what it stored before. *)
Theorem enableAll_disableAll_flags (this : FeatureForest)
  (features : list FeatureArg) :
  valid this ->
  Forall (fun f => In (feature_id f) (forest_ids (_topology this))) features ->
  (exists this',
      enableAll this features = (Ok tt, this')
      /\ forall ref n,
           deref (_topology this) ref = Some n ->
           stored (_topology this') ref
           = Some (metadata n,
                   if includes (map feature_id features) (id (metadata n))
                   then true else enabled n))
  /\ (exists this',
        disableAll this features = (Ok tt, this')
        /\ forall ref n,
             deref (_topology this) ref = Some n ->
             stored (_topology this') ref
             = Some (metadata n,
                     if includes (map feature_id features) (id (metadata n))
                     then false else enabled n)).
Proof.
  intros Hvalid Hall. split.
  - destruct (forEach_set_present true features this Hvalid Hall)
      as (this' & Hrun & _ & Hflags).
    exists this'. split; [exact Hrun | exact Hflags].
  - destruct (forEach_set_present false features this Hvalid Hall)
      as (this' & Hrun & _ & Hflags).
    exists this'. split; [exact Hrun | exact Hflags].
Qed.

Lemma set_absent (this : FeatureForest) (feature : FeatureArg) (value : bool) :
  valid this ->
  ~ In (feature_id feature) (forest_ids (_topology this)) ->
  set this feature value = (Throw TypeError, this).
Proof.
  intros Hvalid Habsent. unfold set.
  rewrite <- (FeatureForest_eta this) at 1.
  rewrite (findNodeInTopology_absent _ Hvalid _ Habsent). reflexivity.
Qed.

(** X9: [enableAll] and [disableAll] are not all-or-nothing.  On a valid
    forest, when the list holds registered features followed by an
    identifier that is registered nowhere, the call throws a [TypeError]
    after having processed the features before it, which stay changed; the
    features after it are never looked at. *)
Theorem enableAll_stops_at_unknown (this : FeatureForest)
  (before : list FeatureArg) (unknown : FeatureArg) (after : list FeatureArg) :
  valid this ->
  Forall (fun f => In (feature_id f) (forest_ids (_topology this))) before ->
  ~ In (feature_id unknown) (forest_ids (_topology this)) ->
  enableAll this (before ++ unknown :: after)
  = (Throw TypeError, snd (enableAll this before))
  /\ fst (enableAll this before) = Ok tt
  /\ disableAll this (before ++ unknown :: after)
     = (Throw TypeError, snd (disableAll this before))
  /\ fst (disableAll this before) = Ok tt.
Proof.
  intros Hvalid Hall Hunknown.
  assert (Hgen : forall value,
    forEach (fun this f => set this f value) (before ++ unknown :: after) this
    = (Throw TypeError, snd (forEach (fun this f => set this f value) before this))
    /\ fst (forEach (fun this f => set this f value) before this) = Ok tt).
  { intros value.
    destruct (forEach_set_present value before this Hvalid Hall)
      as (this' & Hrun & Hvalid' & _).
    rewrite forEach_app, Hrun. simpl. split; [|reflexivity].
    rewrite (set_absent this' unknown value Hvalid'); [reflexivity|].
    assert (Hids : forest_ids (_topology this') = forest_ids (_topology this)).
    { pose proof (forEach_topology (fun this f => set this f value)
                    (fun t x => set_topology t x value) before this) as [_ Hi].
      rewrite Hrun in Hi. exact Hi. }
    rewrite Hids. exact Hunknown. }
  destruct (Hgen true) as [He1 He2]. destruct (Hgen false) as [Hd1 Hd2].
  unfold enableAll, disableAll. auto.
Qed.

(** ** The parent query on every kind of argument *)

(** X10: on a valid forest [getParentOf] never returns [undefined].  It
    returns the metadata of a root exactly for the direct children of that
    root; for a root, for a node two or more levels below the roots and for
    an identifier that is not registered it throws a [TypeError]. *)
Theorem getParentOf_cases (this : FeatureForest) :
  valid this ->
  (forall feature, getParentOf this feature <> Ok None)
  /\ (forall feature i j n,
        deref (_topology this) [i; j] = Some n ->
        feature_id feature = id (metadata n) ->
        exists r, nth_error (_topology this) i = Some r
                  /\ getParentOf this feature = Ok (Some (metadata r)))
  /\ (forall feature ref n,
        deref (_topology this) ref = Some n ->
        feature_id feature = id (metadata n) ->
        List.length ref <> 2 ->
        getParentOf this feature = Throw TypeError)
  /\ (forall feature,
        ~ In (feature_id feature) (forest_ids (_topology this)) ->
        getParentOf this feature = Throw TypeError).
Proof.
  intros Hvalid. split; [|split; [|split]].
  - intros feature. unfold getParentOf.
    destruct (findNodeInTopology this (feature_id feature)) as [found|e];
      simpl; [|discriminate].
    destruct (find_at _ 0 (_topology this)); discriminate.
  - intros feature i j n Hn Hid.
    destruct (nth_error (_topology this) i) as [r|] eqn:Hi;
      [|simpl in Hn; rewrite Hi in Hn; discriminate].
    exists r. split; [reflexivity|].
    unfold getParentOf. rewrite Hid.
    rewrite <- (FeatureForest_eta this) at 1.
    rewrite (findNodeInTopology_present _ Hvalid [i; j] n Hn). simpl.
    rewrite (find_at_first _ (_topology this) 0 i r Hi); [reflexivity| |].
    + intros k y Hlt _. simpl.
      destruct (Nat.eqb_spec i k); [lia | reflexivity].
    + simpl. rewrite Nat.eqb_refl. simpl. apply Nat.ltb_lt.
      simpl in Hn. rewrite Hi in Hn. apply nth_error_Some.
      unfold children. destruct (nth_error (_children r) j); discriminate.
  - intros feature ref n Hn Hid Hlen. unfold getParentOf. rewrite Hid.
    rewrite <- (FeatureForest_eta this) at 1.
    rewrite (findNodeInTopology_present _ Hvalid ref n Hn). simpl.
    rewrite find_at_None; [reflexivity|]. intros k x _.
    destruct ref as [|a [|b [|c rest]]]; try reflexivity.
    simpl in Hlen. congruence.
  - intros feature Habsent. unfold getParentOf.
    rewrite <- (FeatureForest_eta this) at 1.
    rewrite (findNodeInTopology_absent _ Hvalid _ Habsent). simpl.
    rewrite find_at_None; reflexivity.
Qed.

(** ** Which exceptions can be raised *)

Lemma for_of_Throw {A} (body : A -> result unit) (xs : list A) (e : Exception) :
  for_of body xs = Throw e -> exists x, In x xs /\ body x = Throw e.
Proof.
  induction xs as [|x xs IH]; simpl; [discriminate|].
  destruct (body x) as [[]|e'] eqn:Hx; simpl.
  - intros Hrest. destruct (IH Hrest) as (y & Hy & Hthrow). exists y. auto.
  - intros [= ->]. exists x. auto.
Qed.

Lemma checkChildren_Throw (n : FeatureNode) :
  forall (parentIds : list T) (e : Exception),
    checkChildren n parentIds = Throw e -> e <> TypeError.
Proof.
  induction n as [m cs e0 IH] using FeatureNode_forall_ind.
  intros parentIds e. simpl.
  destruct (negb _); [intros [= <-]; discriminate|].
  intros Hloop. apply for_of_Throw in Hloop as (c & Hc & Hthrow).
  rewrite Forall_forall in IH. simpl in Hthrow.
  destruct (includes parentIds (id (metadata c)));
    [injection Hthrow as <-; discriminate|].
  apply (IH c Hc _ e Hthrow).
Qed.

Lemma FeatureForest_new_Throw (l : list FeatureNode) (e : Exception) :
  FeatureForest_new l = Throw e -> e <> TypeError.
Proof.
  unfold FeatureForest_new. simpl.
  destruct (negb _); [intros [= <-]; discriminate|].
  destruct (for_of _ l) as [[]|e'] eqn:Hloop; simpl; [discriminate|].
  intros [= ->]. apply for_of_Throw in Hloop as (r & _ & Hthrow).
  apply (checkChildren_Throw r _ e Hthrow).
Qed.

Lemma for_return_Throw {A B} (body : nat -> A -> result (option B))
  (xs : list A) (e : Exception) :
  forall i,
    for_return body i xs = Throw e ->
    exists k x, In x xs /\ body k x = Throw e.
Proof.
  induction xs as [|x xs IH]; intros i; simpl; [discriminate|].
  destruct (body i x) as [[b|]|e'] eqn:Hx; simpl; [discriminate| |].
  - intros Hrest. destruct (IH _ Hrest) as (k & y & Hy & Hthrow).
    exists k, y. auto.
  - intros [= ->]. exists i, x. auto.
Qed.

Lemma findNodeInTopology_Throw (l : list FeatureNode) :
  forall (wanted : T) (e : Exception),
    findNodeInTopology (mkFeatureForest l) wanted = Throw e -> e <> TypeError.
Proof.
  induction l as [l IH] using forest_children_ind. intros wanted e.
  rewrite Forall_forall in IH.
  unfold findNodeInTopology. simpl.
  destruct (find_index _ l); [discriminate|].
  intros Hloop. apply for_return_Throw in Hloop as (k & r & Hr & Hthrow).
  simpl in Hthrow. rewrite findNodeInChildren_eq in Hthrow.
  destruct (FeatureForest_new (children r)) as [sub|e'] eqn:Hnew.
  - apply FeatureForest_new_Ok in Hnew. subst sub. simpl in Hthrow.
    destruct (findNodeInTopology (mkFeatureForest (children r)) wanted)
      as [found|e'] eqn:Hsub; simpl in Hthrow; [discriminate|].
    injection Hthrow as <-. apply (IH r Hr wanted e' Hsub).
  - simpl in Hthrow. injection Hthrow as <-.
    apply (FeatureForest_new_Throw _ _ Hnew).
Qed.

(** X11: [get] never raises a [TypeError].  The only exceptions it can
    raise are the duplicate-identifier errors of the constructor, which the
    search runs again on the children of the nodes it visits, and then the
    forest is not valid. *)
Theorem get_throws_only_duplicates (this : FeatureForest) (feature : FeatureArg)
  (e : Exception) :
  get this feature = Throw e ->
  e <> TypeError /\ ~ valid this.
Proof.
  intros Hget. split.
  - unfold get in Hget.
    destruct (findNodeInTopology this (feature_id feature)) as [found|e']
      eqn:Hfind; simpl in Hget.
    + destruct found as [ref|]; [|discriminate].
      destruct (deref (_topology this) ref); discriminate.
    + injection Hget as <-. rewrite <- (FeatureForest_eta this) in Hfind.
      apply (findNodeInTopology_Throw _ _ _ Hfind).
  - intros Hvalid.
    destruct (in_dec eq_dec (feature_id feature) (forest_ids (_topology this)))
      as [Hin|Hnin].
    + destruct (in_forest_ids_deref _ _ Hin) as (ref & n & Hn & Hid).
      rewrite (get_present this feature ref n Hvalid Hn (eq_sym Hid)) in Hget.
      discriminate.
    + rewrite (get_absent this feature Hvalid Hnin) in Hget. discriminate.
Qed.

(** ** The constructor *)

(** X12: a topology whose identifiers are globally unique is accepted by
    [forest]: no check throws and the forest holds the topology as given. *)
Theorem forest_accepts_unique (topology : list FeatureNode) :
  NoDup (forest_ids topology) ->
  forest topology = Ok (mkFeatureForest topology).
Proof. apply FeatureForest_new_unique. Qed.

(** X13: when [forest] returns, the forest holds the topology as given, the
    roots have distinct identifiers, the children of every node have
    distinct identifiers, and no node below the roots carries the
    identifier of a root or of one of its own ancestors; when it throws,
    the exception is a duplicate-identifier error. *)
Theorem forest_checks (topology : list FeatureNode) :
  (forall this,
      forest topology = Ok this ->
      this = mkFeatureForest topology
      /\ NoDup (map root_id topology)
      /\ forall ref n,
           deref topology ref = Some n ->
           NoDup (map root_id (children n))
           /\ (1 < List.length ref ->
               ~ In (id (metadata n)) (map root_id topology))
           /\ forall k a, 0 < k < List.length ref ->
                          deref topology (firstn k ref) = Some a ->
                          id (metadata a) <> id (metadata n))
  /\ (forall e, forest topology = Throw e -> e <> TypeError).
Proof.
  unfold forest. split.
  - intros this Hnew. split; [apply FeatureForest_new_Ok, Hnew|].
    apply (FeatureForest_new_detects topology this Hnew).
  - intros e. apply FeatureForest_new_Throw.
Qed.

(** ** Disabling a node hides its subtree *)

Lemma chain_enabled_assign_false (ref : NodeRef) :
  forall (l : list FeatureNode) (ref' : NodeRef),
    ref <> [] ->
    chain_enabled (assign_enabled ref false l) ref'
    = if is_prefix ref ref' then false else chain_enabled l ref'.
Proof.
  induction ref as [|i rest IH]; intros l ref' Hne; [congruence|].
  destruct ref' as [|i' rest']; [reflexivity|].
  cbn [assign_enabled chain_enabled is_prefix].
  rewrite nth_error_update_nth.
  destruct (Nat.eqb_spec i i') as [<-|Hii]; [|reflexivity]. simpl andb.
  destruct (nth_error l i) as [r|]; simpl option_map;
    [|destruct (is_prefix rest rest'); reflexivity].
  destruct rest as [|j rest]; [reflexivity|].
  cbn [enabled _children].
  destruct rest' as [|j' rest']; [reflexivity|].
  rewrite IH by discriminate.
  destruct (is_prefix (j :: rest) (j' :: rest')); [apply andb_false_r|].
  reflexivity.
Qed.

Lemma ancestors_enabled_assign_false (ref : NodeRef) :
  forall (l : list FeatureNode) (ref' : NodeRef),
    ref <> [] ->
    ancestors_enabled (assign_enabled ref false l) ref'
    = if is_prefix ref ref' && (List.length ref <? List.length ref')
      then false else ancestors_enabled l ref'.
Proof.
  induction ref as [|i rest IH]; intros l ref' Hne; [congruence|].
  destruct ref' as [|i' rest']; [reflexivity|].
  cbn [assign_enabled ancestors_enabled is_prefix List.length].
  rewrite nth_error_update_nth.
  destruct (Nat.eqb_spec i i') as [<-|Hii]; [|reflexivity]. simpl andb.
  change (S (List.length rest) <? S (List.length rest'))
    with (List.length rest <? List.length rest').
  destruct (nth_error l i) as [r|]; simpl option_map;
    [|destruct (is_prefix rest rest' && _); reflexivity].
  destruct rest as [|j rest].
  - destruct rest' as [|j' rest']; reflexivity.
  - cbn [enabled _children].
    destruct rest' as [|j' rest']; [reflexivity|].
    rewrite IH by discriminate.
    destruct (is_prefix (j :: rest) (j' :: rest') && _);
      [apply andb_false_r | reflexivity].
Qed.

Lemma deref_assign_metadata (ref : NodeRef) (value : bool)
  (l : list FeatureNode) (ref' : NodeRef) (n' : FeatureNode) :
  deref l ref' = Some n' ->
  exists n'', deref (assign_enabled ref value l) ref' = Some n''
              /\ metadata n'' = metadata n'.
Proof.
  intros Hn'. destruct (list_eq_dec Nat.eq_dec ref' ref) as [->|Hne].
  - eexists. split; [apply assign_enabled_deref, Hn' | reflexivity].
  - pose proof (assign_enabled_other ref value l ref' Hne) as Hst.
    rewrite (stored_deref _ _ _ Hn') in Hst.
    apply stored_inv in Hst as (n'' & Hn'' & Hm & _). exists n''. auto.
Qed.

Lemma getAllEnabled_chain (this : FeatureForest) (ref : NodeRef) (n : FeatureNode) :
  valid this ->
  deref (_topology this) ref = Some n ->
  (In (metadata n) (getAllEnabled this)
   <-> chain_enabled (_topology this) ref = true).
Proof.
  intros Hvalid Hn. rewrite getAllEnabled_In. split.
  - intros (ref' & n' & Hn' & Hm & Hchain).
    assert (Hid : id (metadata n) = id (metadata n')) by congruence.
    rewrite (deref_unique _ Hvalid ref ref' n n' Hn Hn' Hid). exact Hchain.
  - intros Hchain. exists ref, n. auto.
Qed.

Lemma getFeaturesForLevel_node (this : FeatureForest) (ref : NodeRef)
  (n : FeatureNode) (level : Z) :
  valid this ->
  deref (_topology this) ref = Some n ->
  (In (metadata n) (getFeaturesForLevel this level)
   <-> Z.of_nat (List.length ref) = (level + 1)%Z
       /\ ancestors_enabled (_topology this) ref = true).
Proof.
  intros Hvalid Hn. destruct (Z.lt_ge_cases level 0) as [Hneg|Hlevel].
  - unfold getFeaturesForLevel.
    replace (level =? 0)%Z with false by (symmetry; apply Z.eqb_neq; lia).
    rewrite (computeFeaturesForLevel_unmatched level _ 0 Hneg).
    split; [intros []|]. destruct ref; [discriminate|]. simpl. lia.
  - rewrite (getFeaturesForLevel_nodes this level Hlevel), in_map_iff. split.
    + intros (n' & Hm & Hn').
      apply nodesAtLevel_In in Hn' as (ref' & Hlen & Hn' & Hanc).
      assert (Hid : id (metadata n) = id (metadata n')) by congruence.
      rewrite (deref_unique _ Hvalid ref ref' n n' Hn Hn' Hid).
      split; [lia | exact Hanc].
    + intros [Hlen Hanc]. exists n. split; [reflexivity|].
      apply nodesAtLevel_In. exists ref. split; [lia|]. auto.
Qed.

(** X14: on a valid forest, after [disable(f)] the bulk query
    [getAllEnabled] reports neither [f] nor any node below it, whatever
    their stored flags, and reports every other node exactly when it did
    before. *)
Theorem disable_hides_subtree (this : FeatureForest) (feature : FeatureArg)
  (ref : NodeRef) (n : FeatureNode) :
  valid this ->
  deref (_topology this) ref = Some n ->
  feature_id feature = id (metadata n) ->
  exists this',
    disable this feature = (Ok tt, this')
    /\ forall ref' n',
         deref (_topology this) ref' = Some n' ->
         (In (metadata n') (getAllEnabled this')
          <-> is_prefix ref ref' = false
              /\ In (metadata n') (getAllEnabled this)).
Proof.
  intros Hvalid Hn Hid.
  exists (mkFeatureForest (assign_enabled ref false (_topology this))).
  split; [apply (set_present this feature false ref n Hvalid Hn Hid)|].
  intros ref' n' Hn'.
  destruct (deref_assign_metadata ref false _ ref' n' Hn') as (n'' & Hn'' & Hm).
  rewrite <- Hm.
  rewrite (getAllEnabled_chain _ ref' n'' (valid_assign this ref false Hvalid) Hn'').
  rewrite Hm, (getAllEnabled_chain this ref' n' Hvalid Hn'). simpl.
  rewrite chain_enabled_assign_false by (intros ->; discriminate).
  destruct (is_prefix ref ref').
  - split; [discriminate | intros [Hfalse _]; discriminate].
  - split; [intros Hchain; split; [reflexivity | exact Hchain]
           | intros [_ Hchain]; exact Hchain].
Qed.

(** X15: on a valid forest, after [disable(f)] no node strictly below [f]
    is offered by [getFeaturesForLevel] at any level, and every other node
    ([f] itself included) is offered at a level exactly when it was
    before. *)
Theorem disable_hides_levels (this : FeatureForest) (feature : FeatureArg)
  (ref : NodeRef) (n : FeatureNode) :
  valid this ->
  deref (_topology this) ref = Some n ->
  feature_id feature = id (metadata n) ->
  exists this',
    disable this feature = (Ok tt, this')
    /\ forall ref' n' level,
         deref (_topology this) ref' = Some n' ->
         (In (metadata n') (getFeaturesForLevel this' level)
          <-> (is_prefix ref ref' && (List.length ref <? List.length ref'))
              = false
              /\ In (metadata n') (getFeaturesForLevel this level)).
Proof.
  intros Hvalid Hn Hid.
  exists (mkFeatureForest (assign_enabled ref false (_topology this))).
  split; [apply (set_present this feature false ref n Hvalid Hn Hid)|].
  intros ref' n' level Hn'.
  destruct (deref_assign_metadata ref false _ ref' n' Hn') as (n'' & Hn'' & Hm).
  rewrite <- Hm.
  rewrite (getFeaturesForLevel_node _ ref' n'' level
             (valid_assign this ref false Hvalid) Hn'').
  rewrite Hm, (getFeaturesForLevel_node this ref' n' level Hvalid Hn'). simpl.
  rewrite ancestors_enabled_assign_false by (intros ->; discriminate).
  destruct (is_prefix ref ref' && _).
  - split; [intros [_ Hfalse]; discriminate | intros [Hfalse _]; discriminate].
  - split; [intros Hlevel; split; [reflexivity | exact Hlevel]
           | intros [_ Hlevel]; exact Hlevel].
Qed.

(** ** The prompt driver *)

Lemma node_height_reset (n : FeatureNode) : node_height (reset n) = node_height n.
Proof.
  induction n as [m cs e IH] using FeatureNode_forall_ind. simpl.
  rewrite map_map. f_equal. f_equal. apply map_ext_in.
  rewrite Forall_forall in IH. exact IH.
Qed.

Lemma forest_height_reset (l : list FeatureNode) :
  forest_height (map reset l) = forest_height l.
Proof.
  unfold forest_height. rewrite map_map. f_equal. apply map_ext.
  apply node_height_reset.
Qed.

Lemma enableAll_height (this : FeatureForest) (features : list FeatureArg) :
  forest_height (_topology (snd (enableAll this features)))
  = forest_height (_topology this).
Proof.
  rewrite <- forest_height_reset, <- (forest_height_reset (_topology this)).
  f_equal. unfold enableAll, enable.
  apply (forEach_topology (fun this f => set this f true)
           (fun t x => set_topology t x true)).
Qed.

Lemma subscriber_bound (answers : list (list T)) :
  forall (level : Z) (this this' : FeatureForest)
         (asked : list (list FeatureNodeMetadata)) (done : bool),
    (0 <= level)%Z ->
    subscriber answers level this = (Ok (asked, done), this') ->
    (Z.of_nat (List.length asked)
     <= Z.max 0 (Z.of_nat (forest_height (_topology this)) - 1 - level))%Z
    /\ Forall (fun question => question <> []) asked
    /\ (1 <= List.length answers ->
        (Z.of_nat (forest_height (_topology this)) - level
         <= Z.of_nat (List.length answers))%Z ->
        done = true).
Proof.
  induction answers as [|answer later IH];
    intros level this this' asked done Hlevel; cbn [subscriber].
  - intros [= <- <- _]. cbn [List.length]. split; [lia|].
    split; [constructor | lia].
  - pose proof (enableAll_height this (map ById answer)) as Hheight.
    destruct (enableAll this (map ById answer)) as [[[]|e] this1];
      [|discriminate]. cbn [snd] in Hheight.
    destruct (getFeaturesForLevel this1 (level + 1)) as [|m ms] eqn:Hfeatures.
    + cbn [List.length Nat.eqb]. intros [= <- <- _]. cbn [List.length].
      split; [lia|]. split; [constructor | auto].
    + cbn [List.length Nat.eqb].
      assert (Hbelow :
        (level + 1 < Z.of_nat (forest_height (_topology this1)))%Z).
      { destruct (Z.lt_ge_cases (level + 1)
                    (Z.of_nat (forest_height (_topology this1))))
          as [Hlt|Hge]; [exact Hlt|].
        unfold getFeaturesForLevel in Hfeatures.
        replace (level + 1 =? 0)%Z with false in Hfeatures
          by (symmetry; apply Z.eqb_neq; lia).
        rewrite computeFeaturesForLevel_beyond_height in Hfeatures by lia.
        discriminate. }
      destruct (subscriber later (level + 1) this1)
        as [[[asked' done']|e] this2] eqn:Hrest; [|discriminate].
      intros [= <- <- _].
      assert (Hnext : (0 <= level + 1)%Z) by lia.
      destruct (IH _ _ _ _ _ Hnext Hrest) as (Hcount & Hnonempty & Hdone).
      rewrite Hheight in *. cbn [List.length]. split; [lia|].
      split; [constructor; [discriminate | exact Hnonempty]|].
      intros _ Hlong. apply Hdone; lia.
Qed.

(** X16: the feature dialogue is bounded by the height of the forest.  When
    it does not throw, it asks at most [max 1 height] questions, every
    follow-up question offers at least one feature, the topology is
    unchanged, and once the user has given [max 1 height] answers the
    prompt has been completed. *)
Theorem askUserForProjectFeatures_bounded (this this' : FeatureForest)
  (answers : list (list T)) (asked : list (list FeatureNodeMetadata))
  (done : bool) :
  askUserForProjectFeatures this answers = (Ok (asked, done), this') ->
  List.length asked <= Nat.max 1 (forest_height (_topology this))
  /\ Forall (fun question => question <> []) (tl asked)
  /\ map reset (_topology this') = map reset (_topology this)
  /\ (Nat.max 1 (forest_height (_topology this)) <= List.length answers ->
      done = true).
Proof.
  unfold askUserForProjectFeatures.
  destruct (subscriber answers 0 this) as [[[asked' done']|e] this1] eqn:Hrun;
    [|discriminate].
  intros [= <- <- <-].
  destruct (subscriber_bound answers 0 this this1 asked' done' (Z.le_refl 0) Hrun)
    as (Hcount & Hnonempty & Hdone).
  split; [cbn [List.length]; lia|]. split; [exact Hnonempty|]. split.
  - clear Hcount Hnonempty Hdone. revert this this1 asked' done' Hrun.
    generalize 0%Z.
    induction answers as [|answer later IH]; intros level this this1 asked done;
      simpl.
    + intros [= _ _ <-]. reflexivity.
    + pose proof (forEach_topology (fun this f => set this f true)
                    (fun t x => set_topology t x true) (map ById answer) this)
        as [Htop _].
      fold (enable (T := T)) in Htop. change (forEach enable (map ById answer) this)
        with (enableAll this (map ById answer)) in Htop.
      destruct (enableAll this (map ById answer)) as [[[]|e] this2];
        [|discriminate]. simpl in Htop.
      destruct (List.length (getFeaturesForLevel this2 (level + 1)) =? 0).
      * intros [= _ _ <-]. exact Htop.
      * destruct (subscriber later (level + 1) this2)
          as [[[asked2 done2]|e] this3] eqn:Hrest; [|discriminate].
        intros [= _ _ <-]. rewrite (IH _ _ _ _ _ Hrest). exact Htop.
  - intros Hlong. apply Hdone; lia.
Qed.

Lemma reset_deref (ref : NodeRef) :
  forall l l1 : list FeatureNode,
    map reset l1 = map reset l ->
    deref l ref = None -> deref l1 ref = None.
Proof.
  induction ref as [|i rest IH]; intros l l1 Hsame; [reflexivity|].
  simpl. assert (Hi : nth_error (map reset l1) i = nth_error (map reset l) i)
    by (rewrite Hsame; reflexivity).
  rewrite !nth_error_map in Hi.
  destruct (nth_error l i) as [r|], (nth_error l1 i) as [r1|];
    try discriminate; try reflexivity.
  destruct rest as [|j rest]; [discriminate|].
  apply IH. destruct r, r1. simpl in *. congruence.
Qed.

Lemma calls_topology_deref (this this1 : FeatureForest) (ref : NodeRef) :
  map reset (_topology this1) = map reset (_topology this) ->
  deref (_topology this) ref = None ->
  forall n1, deref (_topology this1) ref = Some n1 -> False.
Proof.
  intros Hsame Hnone n1 Hn1.
  rewrite (reset_deref ref _ _ Hsame Hnone) in Hn1. discriminate.
Qed.

(** ** What the dialogue enables *)

Lemma deref_prefix (ref : NodeRef) :
  forall (l : list FeatureNode) (n : FeatureNode) (k : nat),
    deref l ref = Some n -> 0 < k <= List.length ref ->
    exists a, deref l (firstn k ref) = Some a.
Proof.
  induction ref as [|i rest IH]; intros l n k; [discriminate|].
  intros Hn Hk. destruct k as [|k]; [lia|].
  simpl in Hn. destruct (nth_error l i) as [r|] eqn:Hi; [|discriminate].
  destruct k as [|k].
  - exists r. simpl. rewrite Hi. reflexivity.
  - destruct rest as [|j rest]; [simpl in Hk; lia|].
    destruct (IH (children r) n (S k) Hn) as [a Ha]; [simpl in *; lia|].
    exists a. change (firstn (S (S k)) (i :: j :: rest))
      with (i :: j :: firstn k rest).
    rewrite (deref_cons l i j _ r Hi). exact Ha.
Qed.

Lemma flags_grow_ancestors (l l1 : list FeatureNode) (ref : NodeRef)
  (n : FeatureNode) :
  flags_grow l l1 ->
  deref l ref = Some n ->
  ancestors_enabled l ref = true ->
  ancestors_enabled l1 ref = true.
Proof.
  intros Hgrow Hn Hanc.
  destruct (Hgrow ref n Hn) as (n1 & Hn1 & _ & _).
  apply (ancestors_enabled_prefixes ref l1 n1 Hn1). intros k a1 Hk Ha1.
  destruct (deref_prefix ref l n k Hn) as [a Ha]; [lia|].
  destruct (Hgrow _ a Ha) as (a1' & Ha1' & _ & Hflag).
  assert (a1' = a1) by congruence. subst a1'. apply Hflag.
  apply (proj1 (ancestors_enabled_prefixes ref l n Hn) Hanc k a Hk Ha).
Qed.

Lemma getFeaturesForLevel_ids (this : FeatureForest) (level : Z) (x : T) :
  (0 <= level)%Z ->
  In x (map id (getFeaturesForLevel this level)) ->
  exists ref n, deref (_topology this) ref = Some n /\ id (metadata n) = x
                /\ ancestors_enabled (_topology this) ref = true.
Proof.
  intros Hlevel Hx. rewrite (getFeaturesForLevel_nodes this level Hlevel) in Hx.
  rewrite map_map in Hx. apply in_map_iff in Hx as (n & Hid & Hn).
  apply nodesAtLevel_In in Hn as (ref & _ & Hn & Hanc). exists ref, n. auto.
Qed.

Lemma enableAll_ids (this : FeatureForest) (answer : list T) :
  valid this ->
  (forall x, In x answer -> In x (forest_ids (_topology this))) ->
  exists this1,
    enableAll this (map ById answer) = (Ok tt, this1)
    /\ valid this1
    /\ forall ref n,
         deref (_topology this) ref = Some n ->
         stored (_topology this1) ref
         = Some (metadata n,
                 if includes answer (id (metadata n)) then true else enabled n).
Proof.
  intros Hvalid Hall.
  destruct (forEach_set_present true (map ById answer) this Hvalid)
    as (this1 & Hrun & Hvalid1 & Hflags).
  - apply Forall_forall. intros f Hf. apply in_map_iff in Hf as (x & <- & Hx).
    apply Hall, Hx.
  - exists this1. split; [exact Hrun|]. split; [exact Hvalid1|].
    intros ref n Hn. rewrite (Hflags ref n Hn), map_map. simpl.
    rewrite map_id. reflexivity.
Qed.

Lemma subscriber_flags (answers : list (list T)) :
  forall (level : Z) (this this' : FeatureForest)
         (asked : list (list FeatureNodeMetadata)) (done : bool),
    (0 <= level)%Z ->
    valid this ->
    ancestors_closed (_topology this) ->
    subscriber answers level this = (Ok (asked, done), this') ->
    (forall k question answer,
        nth_error (getFeaturesForLevel this level :: asked) k = Some question ->
        nth_error answers k = Some answer ->
        incl answer (map id question)) ->
    valid this'
    /\ ancestors_closed (_topology this')
    /\ forall ref n,
         deref (_topology this) ref = Some n ->
         exists n', deref (_topology this') ref = Some n'
                    /\ metadata n' = metadata n
                    /\ (enabled n' = true
                        <-> enabled n = true
                            \/ exists k answer,
                                 k < S (List.length asked)
                                 /\ nth_error answers k = Some answer
                                 /\ In (id (metadata n)) answer).
Proof.
  induction answers as [|answer later IH];
    intros level this this' asked done Hlevel Hvalid Hclosed; cbn [subscriber].
  - intros [= <- _ <-] _. split; [exact Hvalid|]. split; [exact Hclosed|].
    intros ref n Hn. exists n. split; [exact Hn|]. split; [reflexivity|].
    split; [auto|]. intros [Hflag|(k & answer & _ & Hk & _)]; [exact Hflag|].
    destruct k; discriminate.
  - intros Hrun Hchoices.
    assert (Hoffered : forall x, In x answer ->
              exists ref n, deref (_topology this) ref = Some n
                            /\ id (metadata n) = x
                            /\ ancestors_enabled (_topology this) ref = true).
    { intros x Hx. apply (getFeaturesForLevel_ids this level x Hlevel).
      destruct asked; apply (Hchoices 0 _ answer eq_refl eq_refl x Hx). }
    destruct (enableAll_ids this answer Hvalid) as (this1 & Henable & Hvalid1 & Hflags).
    { intros x Hx. destruct (Hoffered x Hx) as (ref & n & Hn & <- & _).
      apply (deref_in_forest_ids ref), Hn. }
    rewrite Henable in Hrun.
    assert (Hstep : forall ref n,
              deref (_topology this) ref = Some n ->
              exists n1, deref (_topology this1) ref = Some n1
                         /\ metadata n1 = metadata n
                         /\ (enabled n1 = true
                             <-> enabled n = true \/ In (id (metadata n)) answer)).
    { intros ref n Hn. pose proof (Hflags ref n Hn) as Hst.
      apply stored_inv in Hst as (n1 & Hn1 & Hm & He).
      exists n1. split; [exact Hn1|]. split; [exact Hm|]. rewrite He.
      destruct (includes answer (id (metadata n))) eqn:Hinc.
      - apply includes_true in Hinc. tauto.
      - apply includes_false in Hinc. split; [auto | intros [|]; tauto]. }
    assert (Hgrow : flags_grow (_topology this) (_topology this1)).
    { intros ref n Hn. destruct (Hstep ref n Hn) as (n1 & Hn1 & Hm & He).
      exists n1. split; [exact Hn1|]. split; [exact Hm|]. intros Hflag.
      apply He. auto. }
    assert (Hback : forall ref n1,
              deref (_topology this1) ref = Some n1 ->
              exists n, deref (_topology this) ref = Some n).
    { intros ref n1 Hn1.
      destruct (deref (_topology this) ref) as [n|] eqn:Hn; [eauto|].
      exfalso.
      pose proof (forEach_topology (fun this f => set this f true)
                    (fun t x => set_topology t x true) (map ById answer) this)
        as [Htop _].
      fold (enable (T := T)) in Htop.
      change (forEach enable (map ById answer) this)
        with (enableAll this (map ById answer)) in Htop.
      rewrite Henable in Htop.
      exact (calls_topology_deref this this1 ref Htop Hn n1 Hn1). }
    assert (Hclosed1 : ancestors_closed (_topology this1)).
    { intros ref n1 Hn1 Hflag1.
      destruct (Hback ref n1 Hn1) as [n Hn].
      destruct (Hstep ref n Hn) as (n1' & Hn1' & _ & He).
      assert (n1' = n1) by congruence. subst n1'.
      rewrite (chain_enabled_split ref _ n1 Hn1), Hflag1, andb_true_r.
      apply (flags_grow_ancestors _ _ ref n Hgrow Hn).
      destruct (proj1 He Hflag1) as [Hflag|Hanswer].
      - pose proof (Hclosed ref n Hn Hflag) as Hchain.
        rewrite (chain_enabled_split ref _ n Hn) in Hchain.
        apply andb_prop in Hchain. tauto.
      - destruct (Hoffered _ Hanswer) as (ref' & n' & Hn' & Hid & Hanc).
        rewrite (deref_unique _ Hvalid ref ref' n n' Hn Hn' (eq_sym Hid)).
        exact Hanc. }
    destruct (List.length (getFeaturesForLevel this1 (level + 1)) =? 0).
    + injection Hrun as <- _ <-. split; [exact Hvalid1|]. split; [exact Hclosed1|].
      intros ref n Hn. destruct (Hstep ref n Hn) as (n1 & Hn1 & Hm & He).
      exists n1. split; [exact Hn1|]. split; [exact Hm|]. rewrite He.
      split; (intros [Hflag|Hrest]; [left; exact Hflag | right]).
      * exists 0, answer. simpl. auto.
      * destruct Hrest as (k & a & Hk & Ha & Hin).
        destruct k as [|k]; [|simpl in Hk; lia].
        simpl in Ha. congruence.
    + destruct (subscriber later (level + 1) this1)
        as [[[asked' done']|e] this2] eqn:Hrest; [|discriminate].
      injection Hrun as <- _ <-.
      assert (Hnext : (0 <= level + 1)%Z) by lia.
      destruct (IH _ _ _ _ _ Hnext Hvalid1 Hclosed1 Hrest)
        as (Hvalid2 & Hclosed2 & Hflags2).
      { intros k question a Hq Ha. apply (Hchoices (S k) question a); assumption. }
      split; [exact Hvalid2|]. split; [exact Hclosed2|].
      intros ref n Hn. destruct (Hstep ref n Hn) as (n1 & Hn1 & Hm & He).
      destruct (Hflags2 ref n1 Hn1) as (n2 & Hn2 & Hm2 & He2).
      exists n2. split; [exact Hn2|]. split; [congruence|].
      rewrite He2, He, Hm. cbn [List.length]. split.
      * intros [[Hflag|Hanswer]|(k & a & Hk & Ha & Hin)].
        -- left; exact Hflag.
        -- right. exists 0, answer. split; [lia|]. simpl. auto.
        -- right. exists (S k), a. split; [lia|]. simpl. auto.
      * intros [Hflag|(k & a & Hk & Ha & Hin)]; [auto|].
        destruct k as [|k].
        -- simpl in Ha. injection Ha as <-. auto.
        -- right. exists k, a. split; [lia|]. simpl in Ha. auto.
Qed.

(** X17: the dialogue enables what the user ticks.  Started on a valid
    forest with no flag set, and answered each time with identifiers taken
    from the question just asked, it leaves a forest in which
    [getAllEnabled] reports exactly the features ticked in one of the
    answers it consumed. *)
Theorem askUserForProjectFeatures_enables (this this' : FeatureForest)
  (answers : list (list T)) (asked : list (list FeatureNodeMetadata))
  (done : bool) :
  valid this ->
  (forall ref n, deref (_topology this) ref = Some n -> enabled n = false) ->
  askUserForProjectFeatures this answers = (Ok (asked, done), this') ->
  (forall k question answer,
      nth_error asked k = Some question ->
      nth_error answers k = Some answer ->
      incl answer (map id question)) ->
  forall ref n,
    deref (_topology this) ref = Some n ->
    (In (metadata n) (getAllEnabled this')
     <-> exists k answer,
           k < List.length asked
           /\ nth_error answers k = Some answer
           /\ In (id (metadata n)) answer).
Proof.
  intros Hvalid Hfresh Hrun Hchoices ref n Hn.
  unfold askUserForProjectFeatures in Hrun.
  destruct (subscriber answers 0 this) as [[[asked' done']|e] this1] eqn:Hsub;
    [|discriminate].
  injection Hrun as <- _ <-.
  assert (Hclosed : ancestors_closed (_topology this)).
  { intros r x Hx Hflag. rewrite (Hfresh r x Hx) in Hflag. discriminate. }
  destruct (subscriber_flags answers 0 this this1 asked' done'
              (Z.le_refl 0) Hvalid Hclosed Hsub Hchoices)
    as (Hvalid1 & Hclosed1 & Hflags).
  destruct (Hflags ref n Hn) as (n1 & Hn1 & Hm & He).
  rewrite <- Hm, (getAllEnabled_chain this1 ref n1 Hvalid1 Hn1).
  cbn [List.length]. rewrite (Hfresh ref n Hn) in He. split.
  - intros Hchain. rewrite (chain_enabled_split ref _ n1 Hn1) in Hchain.
    apply andb_prop in Hchain as [_ Hflag].
    destruct (proj1 He Hflag) as [Hfalse|Hticked]; [discriminate|].
    rewrite Hm. exact Hticked.
  - intros Hticked. apply (Hclosed1 ref n1 Hn1). apply He. right.
    rewrite <- Hm. exact Hticked.
Qed.

End ForestFacts.

(** * Properties of the text utilities *)

Lemma is_letter_hyphen : is_letter HYPHEN = false.
Proof. reflexivity. Qed.

Lemma is_upper_bounds (c : CodeUnit) : is_upper c = true <-> 65 <= c <= 90.
Proof.
  unfold is_upper. rewrite andb_true_iff, !Nat.leb_le. tauto.
Qed.

Lemma is_lower_bounds (c : CodeUnit) : is_lower c = true <-> 97 <= c <= 122.
Proof.
  unfold is_lower. rewrite andb_true_iff, !Nat.leb_le. tauto.
Qed.

Lemma replace_non_letters_alphabet (str : JsString) :
  Forall letter_or_hyphen (replace_non_letters str).
Proof.
  unfold replace_non_letters. apply Forall_map, Forall_forall. intros c _.
  unfold letter_or_hyphen. destruct (is_letter c) eqn:Hc; auto.
Qed.

Lemma split_rest_concat (str : JsString) :
  fst (split_rest str) ++ List.concat (snd (split_rest str)) = str.
Proof.
  induction str as [|c rest IH]; [reflexivity|]. simpl.
  destruct (split_rest rest) as [piece others]. simpl in IH.
  destruct (is_upper c); simpl; rewrite IH; reflexivity.
Qed.

Lemma split_before_upper_concat (str : JsString) :
  List.concat (split_before_upper str) = str.
Proof.
  destruct str as [|c rest]; [reflexivity|]. simpl.
  pose proof (split_rest_concat rest) as Hrest.
  destruct (split_rest rest) as [piece others]. simpl in *.
  rewrite Hrest. reflexivity.
Qed.

Lemma split_rest_no_upper (str : JsString) :
  Forall (fun c => is_upper c = false) str -> split_rest str = (str, []).
Proof.
  induction 1 as [|c rest Hc _ IH]; [reflexivity|]. simpl.
  rewrite IH, Hc. reflexivity.
Qed.

Lemma Forall_concat {A} (P : A -> Prop) (xss : list (list A)) :
  Forall P (List.concat xss) <-> Forall (Forall P) xss.
Proof.
  induction xss as [|xs xss IH]; simpl.
  - split; constructor.
  - rewrite Forall_app, IH. split.
    + intros [Hx Hxs]. constructor; assumption.
    + intros Hall. inversion Hall; subst. auto.
Qed.

Lemma join_Forall (P : CodeUnit -> Prop) (separator : JsString)
  (pieces : list JsString) :
  Forall P separator -> Forall (Forall P) pieces ->
  Forall P (join separator pieces).
Proof.
  intros Hsep. induction 1 as [|piece rest Hpiece Hrest IH]; [constructor|].
  destruct rest as [|next rest]; [exact Hpiece|].
  change (join separator (piece :: next :: rest))
    with (piece ++ separator ++ join separator (next :: rest)).
  rewrite !Forall_app. auto.
Qed.

Lemma join_letters (pieces : list JsString) :
  filter is_letter (join [HYPHEN] pieces)
  = filter is_letter (List.concat pieces).
Proof.
  induction pieces as [|piece rest IH]; [reflexivity|].
  destruct rest as [|next rest].
  - simpl. rewrite app_nil_r. reflexivity.
  - change (join [HYPHEN] (piece :: next :: rest))
      with (piece ++ [HYPHEN] ++ join [HYPHEN] (next :: rest)).
    change (List.concat (piece :: next :: rest))
      with (piece ++ List.concat (next :: rest)).
    rewrite !filter_app, IH. reflexivity.
Qed.

Lemma collapse_hyphens_Forall (P : CodeUnit -> Prop) (str : JsString) :
  Forall P str -> Forall P (collapse_hyphens str).
Proof.
  induction 1 as [|c rest Hc _ IH]; [constructor|]. simpl.
  destruct ((c =? HYPHEN) && _); [exact IH | constructor; assumption].
Qed.

Lemma collapse_hyphens_letters (str : JsString) :
  filter is_letter (collapse_hyphens str) = filter is_letter str.
Proof.
  induction str as [|c rest IH]; [reflexivity|]. simpl.
  destruct (Nat.eqb_spec c HYPHEN) as [->|Hc]; simpl.
  - destruct rest as [|d rest']; [reflexivity|].
    destruct (d =? HYPHEN); simpl in *; rewrite IH; reflexivity.
  - rewrite IH. reflexivity.
Qed.

Lemma collapse_hyphens_head (str : JsString) (c : CodeUnit) :
  hd_error (collapse_hyphens (c :: str)) = Some HYPHEN ->
  c = HYPHEN.
Proof.
  revert c. induction str as [|d rest IH]; intros c; simpl.
  - rewrite andb_false_r. simpl. congruence.
  - destruct (Nat.eqb_spec c HYPHEN) as [->|Hc]; [reflexivity|].
    simpl. congruence.
Qed.

Lemma collapse_hyphens_no_double (str : JsString) :
  no_double_hyphen (collapse_hyphens str).
Proof.
  induction str as [|c rest IH]; [exact I|].
  change (collapse_hyphens (c :: rest))
    with (if (c =? HYPHEN)
             && match rest with d :: _ => d =? HYPHEN | [] => false end
          then collapse_hyphens rest else c :: collapse_hyphens rest).
  destruct ((c =? HYPHEN) && _) eqn:Hdrop; [exact IH|].
  split; [|exact IH].
  destruct (collapse_hyphens rest) as [|d out] eqn:Hout; [exact I|].
  intros [-> ->]. destruct rest as [|d' rest']; [discriminate|].
  assert (d' = HYPHEN)
    by (apply (collapse_hyphens_head rest'); rewrite Hout; reflexivity).
  subst d'. discriminate.
Qed.

Lemma collapse_hyphens_fixed (str : JsString) :
  no_double_hyphen str -> collapse_hyphens str = str.
Proof.
  induction str as [|c rest IH]; [reflexivity|].
  intros [Hhead Hrest]. simpl.
  rewrite (IH Hrest). destruct rest as [|d rest'].
  - rewrite andb_false_r. reflexivity.
  - destruct (Nat.eqb_spec c HYPHEN) as [->|Hc]; [|reflexivity].
    destruct (Nat.eqb_spec d HYPHEN) as [->|Hd]; [|reflexivity].
    exfalso. apply Hhead. auto.
Qed.

Lemma toLowerCase_no_double (str : JsString) :
  no_double_hyphen str -> no_double_hyphen (toLowerCase str).
Proof.
  assert (Hlow : forall c, (if is_upper c then c + 32 else c) = HYPHEN -> c = HYPHEN).
  { intros c. destruct (is_upper c) eqn:Hc; [|auto].
    apply is_upper_bounds in Hc. unfold HYPHEN. lia. }
  induction str as [|c rest IH]; [auto|].
  intros [Hhead Hrest]. split; [|apply IH, Hrest].
  destruct rest as [|d rest']; [exact I|]. simpl.
  intros [Hc Hd]. apply Hhead. split; apply Hlow; assumption.
Qed.

Lemma kebabify_alphabet_and_hyphens (str : JsString) :
  Forall (fun c => is_lower c = true \/ c = HYPHEN) (kebabify str)
  /\ no_double_hyphen (kebabify str).
Proof.
  unfold kebabify. split.
  - assert (Hbefore : Forall letter_or_hyphen
                        (collapse_hyphens
                           (join [HYPHEN]
                              (split_before_upper (replace_non_letters str))))).
    { apply collapse_hyphens_Forall, join_Forall.
      - constructor; [right; reflexivity | constructor].
      - apply Forall_concat. rewrite split_before_upper_concat.
        apply replace_non_letters_alphabet. }
    unfold toLowerCase. apply Forall_map.
    eapply Forall_impl; [|exact Hbefore].
    unfold letter_or_hyphen. intros c [Hc| ->]; [|right; reflexivity]. left.
    unfold is_letter in Hc. destruct (is_upper c) eqn:Hup; simpl in Hc.
    + apply is_upper_bounds in Hup. apply is_lower_bounds. lia.
    + exact Hc.
  - apply toLowerCase_no_double, collapse_hyphens_no_double.
Qed.


(** X18: the result of [kebabify] is made of lower-case ASCII letters and
    hyphens only, and never has two hyphens in a row. *)
Theorem kebabify_shape (str : JsString) :
  Forall (fun c => is_lower c = true \/ c = HYPHEN) (kebabify str)
  /\ no_double_hyphen (kebabify str).
Proof. apply kebabify_alphabet_and_hyphens. Qed.

Lemma kebab_fixed (str : JsString) :
  Forall (fun c => is_lower c = true \/ c = HYPHEN) str ->
  no_double_hyphen str ->
  kebabify str = str.
Proof.
  intros Hshape Hdouble.
  assert (Hupper : Forall (fun c => is_upper c = false) str).
  { eapply Forall_impl; [|exact Hshape]. intros c [Hc| ->]; [|reflexivity].
    apply is_lower_bounds in Hc. destruct (is_upper c) eqn:Hup; [|reflexivity].
    apply is_upper_bounds in Hup. lia. }
  assert (Hreplace : replace_non_letters str = str).
  { unfold replace_non_letters. rewrite <- (map_id str) at 2.
    apply map_ext_in. intros c Hc. rewrite Forall_forall in Hshape.
    destruct (Hshape c Hc) as [Hlow| ->]; [|reflexivity].
    unfold is_letter. rewrite Hlow, orb_true_r. reflexivity. }
  assert (Hjoin : join [HYPHEN] (split_before_upper str) = str).
  { destruct str as [|c rest]; [reflexivity|]. simpl.
    inversion Hupper; subst.
    rewrite split_rest_no_upper by assumption. reflexivity. }
  unfold kebabify. rewrite Hreplace, Hjoin, (collapse_hyphens_fixed _ Hdouble).
  unfold toLowerCase. rewrite <- (map_id str) at 2.
  apply map_ext_in. intros c Hc. rewrite Forall_forall in Hupper.
  rewrite (Hupper c Hc). reflexivity.
Qed.

(** X19: [kebabify] is idempotent: applied to its own result it changes
    nothing. *)
Theorem kebabify_idempotent (str : JsString) :
  kebabify (kebabify str) = kebabify str.
Proof.
  destruct (kebabify_alphabet_and_hyphens str) as [Hshape Hdouble].
  apply kebab_fixed; assumption.
Qed.

(** X20: [kebabify] keeps the ASCII letters of its argument, in order and
    lower-cased; everything else it adds or removes is a hyphen. *)
Theorem kebabify_letters (str : JsString) :
  filter is_lower (kebabify str) = toLowerCase (filter is_letter str).
Proof.
  unfold kebabify.
  assert (Hlower : forall s,
             filter is_lower (toLowerCase s) = toLowerCase (filter is_letter s)).
  { induction s as [|c s IH]; [reflexivity|]. simpl. unfold is_letter at 1.
    destruct (is_upper c) eqn:Hup; simpl.
    - pose proof (proj1 (is_upper_bounds c) Hup) as Hbounds.
      replace (is_lower (c + 32)) with true
        by (symmetry; apply is_lower_bounds; lia).
      simpl. rewrite Hup, IH. reflexivity.
    - destruct (is_lower c) eqn:Hlow; simpl; rewrite ?Hup, IH; reflexivity. }
  rewrite Hlower. f_equal.
  rewrite collapse_hyphens_letters, join_letters, split_before_upper_concat.
  unfold replace_non_letters. induction str as [|c rest IH]; [reflexivity|].
  simpl. destruct (is_letter c) eqn:Hc; simpl; rewrite ?Hc, IH; reflexivity.
Qed.

(** X21: the constructor of [Arguments] splits the raw arguments into
    positional arguments and flags: each argument lands in exactly one of
    the two arrays, so the counts add up, and there are no arguments
    exactly when there are neither positional arguments nor flags. *)
Theorem Arguments_partition (raw : list JsString) :
  let this := Arguments_new raw in
  count this = List.length (positional this) + List.length (flags this)
  /\ (forall arg, In arg (positional this)
                  <-> In arg raw /\ startsWith_hyphen arg = false)
  /\ (forall arg, In arg (flags this)
                  <-> In arg raw /\ startsWith_hyphen arg = true)
  /\ hasNoArguments this = hasNoPositionalArguments this && hasNoFlags this
  /\ hasArguments this = hasPositionalArguments this || hasFlags this.
Proof.
  simpl. unfold count, hasNoArguments, hasArguments, hasNoPositionalArguments,
    hasPositionalArguments, hasNoFlags, hasFlags, count. simpl.
  assert (Hcount : List.length raw
                   = List.length (filter (fun arg => negb (startsWith_hyphen arg)) raw)
                     + List.length (filter (fun arg => startsWith_hyphen arg) raw)).
  { induction raw as [|arg raw IH]; [reflexivity|]. simpl.
    destruct (startsWith_hyphen arg); simpl; lia. }
  split; [exact Hcount|].
  split; [intros arg; rewrite filter_In, negb_true_iff; reflexivity|].
  split; [intros arg; rewrite filter_In; reflexivity|].
  rewrite Hcount.
  destruct (List.length (filter (fun arg => negb (startsWith_hyphen arg)) raw));
    destruct (List.length (filter (fun arg => startsWith_hyphen arg) raw));
    split; reflexivity.
Qed.

(** * Properties of the deletion of blocks *)

Lemma merge_loop_eq (deletions : list Deletion) (i : nat) :
  merge_loop deletions i
  = if i + 1 <? List.length deletions then
      if fst (nth (i + 1) deletions (0, 0)) <=? snd (nth i deletions (0, 0))
      then merge_loop
             (splice1 (i + 1)
                (update_nth
                   (fun _ => (fst (nth i deletions (0, 0)),
                              Nat.max (snd (nth i deletions (0, 0)))
                                      (snd (nth (i + 1) deletions (0, 0)))))
                   i deletions))
             i
      else merge_loop deletions (i + 1)
    else deletions.
Proof.
  funelim (merge_loop deletions i);
    repeat match goal with
           | E : ?b = _ |- context [if ?b then _ else _] => rewrite E
           end;
    reflexivity.
Qed.

Lemma update_nth_middle {A} (f : A -> A) (pre : list A) (x : A) (post : list A) :
  update_nth f (List.length pre) (pre ++ x :: post) = pre ++ f x :: post.
Proof.
  induction pre as [|y pre IH]; simpl; [reflexivity|]. rewrite IH. reflexivity.
Qed.

Lemma splice1_middle {A} (pre : list A) (x y : A) (post : list A) :
  splice1 (List.length pre + 1) (pre ++ x :: y :: post) = pre ++ x :: post.
Proof.
  unfold splice1. induction pre as [|z pre IH]; simpl; [reflexivity|].
  simpl in IH. rewrite IH. reflexivity.
Qed.

Lemma nth_after {A} (pre : list A) (x y : A) (post : list A) (default : A) :
  nth (List.length pre + 1) (pre ++ x :: y :: post) default = y.
Proof.
  induction pre as [|z pre IH]; simpl; [reflexivity | exact IH].
Qed.

(** The loop, started behind a prefix it has finished with, merges the
    deletion under its counter with the ones that follow. *)
Lemma merge_loop_spec (rest : list Deletion) :
  forall (pre : list Deletion) (d : Deletion),
    merge_loop (pre ++ d :: rest) (List.length pre) = pre ++ merge_into d rest.
Proof.
  induction rest as [|d2 rest IH]; intros pre d; rewrite merge_loop_eq.
  - replace (List.length pre + 1 <? List.length (pre ++ [d])) with false;
      [reflexivity|].
    symmetry. apply Nat.ltb_ge. rewrite length_app. simpl. lia.
  - replace (List.length pre + 1 <? List.length (pre ++ d :: d2 :: rest))
      with true
      by (symmetry; apply Nat.ltb_lt; rewrite length_app; simpl; lia).
    rewrite nth_after, nth_middle. simpl merge_into.
    destruct (fst d2 <=? snd d).
    + rewrite update_nth_middle, splice1_middle. apply IH.
    + replace (pre ++ d :: d2 :: rest) with ((pre ++ [d]) ++ d2 :: rest)
        by (rewrite <- app_assoc; reflexivity).
      replace (List.length pre + 1) with (List.length (pre ++ [d]))
        by (rewrite length_app; reflexivity).
      rewrite IH, <- app_assoc. reflexivity.
Qed.

Lemma merge_deletions_eq (deletions : list Deletion) :
  merge_deletions deletions
  = match sort_by_start deletions with
    | [] => []
    | d :: rest => merge_into d rest
    end.
Proof.
  unfold merge_deletions. destruct (sort_by_start deletions) as [|d rest].
  - rewrite merge_loop_eq. reflexivity.
  - apply (merge_loop_spec rest [] d).
Qed.

Lemma insert_by_start_In (d x : Deletion) (sorted : list Deletion) :
  In x (insert_by_start d sorted) <-> x = d \/ In x sorted.
Proof.
  induction sorted as [|d' rest IH]; simpl; [intuition congruence|].
  destruct (fst d <=? fst d'); simpl; [intuition congruence|].
  rewrite IH. intuition congruence.
Qed.

Lemma insert_by_start_sorted (d : Deletion) (sorted : list Deletion) :
  StronglySorted start_le sorted ->
  StronglySorted start_le (insert_by_start d sorted).
Proof.
  induction 1 as [|d' rest Hrest IH Hall]; simpl.
  - constructor; constructor.
  - destruct (Nat.leb_spec (fst d) (fst d')) as [Hle|Hgt].
    + constructor; [constructor; assumption|].
      constructor; [exact Hle|].
      eapply Forall_impl; [|exact Hall]. unfold start_le. intros; lia.
    + constructor; [exact IH|].
      apply Forall_forall. intros x Hx. apply insert_by_start_In in Hx as [->|Hx].
      * unfold start_le. lia.
      * rewrite Forall_forall in Hall. apply Hall, Hx.
Qed.

Lemma sort_by_start_sorted (deletions : list Deletion) :
  StronglySorted start_le (sort_by_start deletions).
Proof.
  induction deletions as [|d rest IH]; simpl; [constructor|].
  apply insert_by_start_sorted, IH.
Qed.

Lemma sort_by_start_In (deletions : list Deletion) (x : Deletion) :
  In x (sort_by_start deletions) <-> In x deletions.
Proof.
  induction deletions as [|d rest IH]; simpl; [tauto|].
  rewrite insert_by_start_In, IH. intuition congruence.
Qed.

Lemma covered_ext (p : nat) (xs ys : list Deletion) :
  (forall d, In d xs <-> In d ys) -> covered p xs = covered p ys.
Proof.
  intros Hsame. unfold covered. apply eq_true_iff_eq.
  rewrite !existsb_exists. split; intros (d & Hd & Hin); exists d;
    (split; [apply Hsame, Hd | exact Hin]).
Qed.

Lemma merge_into_covered (p : nat) (rest : list Deletion) :
  forall d : Deletion,
    StronglySorted start_le (d :: rest) ->
    covered p (merge_into d rest) = covered p (d :: rest).
Proof.
  induction rest as [|d2 rest IH]; intros d Hsorted; [reflexivity|].
  inversion Hsorted as [|? ? Htail Hall]; subst.
  inversion Htail as [|? ? Htail' Hall2]; subst.
  inversion Hall as [|? ? Hd2 Hall']; subst. unfold start_le in Hd2.
  simpl merge_into. destruct (Nat.leb_spec (fst d2) (snd d)) as [Hle|Hgt].
  - rewrite IH.
    + simpl. rewrite orb_assoc. f_equal.
      apply eq_true_iff_eq.
      rewrite !orb_true_iff, !andb_true_iff, !Nat.leb_le, !Nat.ltb_lt. lia.
    + constructor; [exact Htail'|].
      eapply Forall_impl; [|exact Hall']. unfold start_le. simpl. auto.
  - change (covered p (d :: merge_into d2 rest))
      with ((fst d <=? p) && (p <? snd d) || covered p (merge_into d2 rest)).
    rewrite (IH d2 Htail). reflexivity.
Qed.

Lemma merge_into_head (rest : list Deletion) :
  forall d : Deletion,
    exists end_ tail, merge_into d rest = (fst d, end_) :: tail.
Proof.
  induction rest as [|d2 rest IH]; intros d; simpl.
  - exists (snd d), []. destruct d; reflexivity.
  - destruct (fst d2 <=? snd d).
    + destruct (IH (fst d, Nat.max (snd d) (snd d2))) as (e & tail & Heq).
      exists e, tail. exact Heq.
    + exists (snd d), (merge_into d2 rest). destruct d; reflexivity.
Qed.

Lemma merge_into_separated (rest : list Deletion) :
  forall d : Deletion, separated (merge_into d rest).
Proof.
  induction rest as [|d2 rest IH]; intros d; simpl; [auto|].
  destruct (Nat.leb_spec (fst d2) (snd d)) as [Hle|Hgt]; [apply IH|].
  split; [|apply IH].
  destruct (merge_into_head rest d2) as (e & tail & ->). exact Hgt.
Qed.

Lemma merge_into_well_formed (rest : list Deletion) :
  forall d : Deletion,
    well_formed d -> Forall well_formed rest ->
    Forall well_formed (merge_into d rest).
Proof.
  induction rest as [|d2 rest IH]; intros d Hd Hrest; simpl.
  - constructor; [exact Hd | constructor].
  - inversion Hrest; subst. destruct (fst d2 <=? snd d).
    + apply IH; [|assumption]. unfold well_formed in *. simpl. lia.
    + constructor; [exact Hd | apply IH; assumption].
Qed.

(** X22: the deletions that [configure] ends up with, after sorting and
    merging, are pairwise apart (each ends strictly before the next one
    starts) and cover exactly the indices the original deletions cover;
    they are well formed when the original ones are. *)
Theorem merge_deletions_disjoint (deletions : list Deletion) :
  separated (merge_deletions deletions)
  /\ (forall p, covered p (merge_deletions deletions) = covered p deletions)
  /\ (Forall well_formed deletions ->
      Forall well_formed (merge_deletions deletions)).
Proof.
  rewrite merge_deletions_eq.
  pose proof (sort_by_start_sorted deletions) as Hsorted.
  pose proof (sort_by_start_In deletions) as Hin.
  destruct (sort_by_start deletions) as [|d rest].
  - split; [exact I|]. split.
    + intros p. apply covered_ext. intros x. apply Hin.
    + constructor.
  - split; [apply merge_into_separated|]. split.
    + intros p. rewrite (merge_into_covered p rest d Hsorted).
      apply covered_ext. intros x. apply Hin.
    + intros Hwf. rewrite Forall_forall in Hwf.
      apply merge_into_well_formed.
      * apply Hwf, Hin. left; reflexivity.
      * apply Forall_forall. intros x Hx. apply Hwf, Hin. right; exact Hx.
Qed.

Lemma skipn_step {A} (xs : list A) (k : nat) :
  skipn k xs = match nth_error xs k with
               | Some x => x :: skipn (S k) xs
               | None => []
               end.
Proof.
  revert k. induction xs as [|x xs IH]; intros k.
  - destruct k; reflexivity.
  - destruct k as [|k]; [reflexivity|]. simpl. apply IH.
Qed.

Lemma outside_uncovered (contents : JsString) (deletions : list Deletion)
  (gap : nat) :
  forall k,
    (forall p, k <= p < k + gap -> covered p deletions = false) ->
    outside k (skipn k contents) deletions
    = firstn gap (skipn k contents)
      ++ outside (k + gap) (skipn (k + gap) contents) deletions.
Proof.
  induction gap as [|gap IH]; intros k Hfree.
  - rewrite Nat.add_0_r. reflexivity.
  - rewrite (skipn_step contents k).
    destruct (nth_error contents k) as [c|] eqn:Hk.
    + cbn [outside firstn app]. rewrite (Hfree k) by lia.
      rewrite (IH (S k)) by (intros p Hp; apply Hfree; lia).
      replace (S k + gap) with (k + S gap) by lia. reflexivity.
    + cbn [outside firstn app]. rewrite skipn_all2; [reflexivity|].
      apply nth_error_None in Hk. lia.
Qed.

Lemma outside_covered (contents : JsString) (deletions : list Deletion)
  (gap : nat) :
  forall k,
    (forall p, k <= p < k + gap -> covered p deletions = true) ->
    outside k (skipn k contents) deletions
    = outside (k + gap) (skipn (k + gap) contents) deletions.
Proof.
  induction gap as [|gap IH]; intros k Hin.
  - rewrite Nat.add_0_r. reflexivity.
  - rewrite (skipn_step contents k).
    destruct (nth_error contents k) as [c|] eqn:Hk.
    + cbn [outside]. rewrite (Hin k) by lia.
      rewrite (IH (S k)) by (intros p Hp; apply Hin; lia).
      replace (S k + gap) with (k + S gap) by lia. reflexivity.
    + cbn [outside]. rewrite skipn_all2; [reflexivity|].
      apply nth_error_None in Hk. lia.
Qed.

Lemma outside_ext (str : JsString) (xs ys : list Deletion) :
  forall k,
    (forall p, k <= p -> covered p xs = covered p ys) ->
    outside k str xs = outside k str ys.
Proof.
  induction str as [|c rest IH]; intros k Hsame; [reflexivity|]. simpl.
  rewrite (Hsame k) by lia.
  rewrite (IH (S k)) by (intros p Hp; apply Hsame; lia). reflexivity.
Qed.

Lemma outside_nil (str : JsString) : forall k, outside k str [] = str.
Proof.
  induction str as [|c rest IH]; intros k; [reflexivity|]. simpl.
  rewrite IH. reflexivity.
Qed.

Lemma chained_after (deletions : list Deletion) :
  forall lastEnd p,
    chained lastEnd deletions -> p < lastEnd -> covered p deletions = false.
Proof.
  induction deletions as [|d rest IH]; intros lastEnd p Hchain Hp; [reflexivity|].
  destruct Hchain as (Hstart & Hwf & Hrest). simpl.
  rewrite (IH (snd d) p Hrest) by lia.
  replace (fst d <=? p) with false by (symmetry; apply Nat.leb_gt; lia).
  reflexivity.
Qed.

Lemma build_contents_chained (contents : JsString) (deletions : list Deletion) :
  forall (lastEnd : nat) (newContents : JsString),
    chained lastEnd deletions ->
    build_contents contents deletions lastEnd newContents
    = newContents ++ outside lastEnd (skipn lastEnd contents) deletions.
Proof.
  induction deletions as [|[start end_] rest IH];
    intros lastEnd newContents Hchain; simpl build_contents.
  - unfold substring_from. rewrite outside_nil. reflexivity.
  - destruct Hchain as (Hstart & Hwf & Hrest). simpl in Hstart, Hwf, Hrest.
    rewrite (IH end_ _ Hrest), <- app_assoc. f_equal.
    unfold substring. rewrite Nat.min_l, Nat.max_r by lia.
    rewrite (outside_uncovered contents _ (start - lastEnd) lastEnd).
    + replace (lastEnd + (start - lastEnd)) with start by lia. f_equal.
      rewrite (outside_covered contents _ (end_ - start) start).
      * replace (start + (end_ - start)) with end_ by lia.
        apply outside_ext. intros p Hp. simpl.
        replace (p <? end_) with false by (symmetry; apply Nat.ltb_ge; lia).
        rewrite andb_false_r. reflexivity.
      * intros p Hp. simpl.
        replace (start <=? p) with true by (symmetry; apply Nat.leb_le; lia).
        replace (p <? end_) with true by (symmetry; apply Nat.ltb_lt; lia).
        reflexivity.
    + intros p Hp. simpl.
      replace (start <=? p) with false by (symmetry; apply Nat.leb_gt; lia).
      simpl. apply (chained_after rest end_ p Hrest). lia.
Qed.

Lemma separated_chained (deletions : list Deletion) :
  forall lastEnd,
    separated deletions -> Forall well_formed deletions ->
    match deletions with
    | [] => True
    | d :: _ => lastEnd <= fst d
    end ->
    chained lastEnd deletions.
Proof.
  induction deletions as [|d rest IH]; intros lastEnd Hsep Hwf Hhead; [exact I|].
  destruct Hsep as [Hgap Hsep]. inversion Hwf as [|? ? Hd Hrest]; subst.
  split; [exact Hhead|]. split; [exact Hd|].
  apply IH; [exact Hsep | exact Hrest|].
  destruct rest as [|d2 rest]; [exact I | lia].
Qed.

(** X23: when every deletion has its start before its end, the contents
    that [configure] builds from the merged deletions are exactly the code
    units of the original contents that lie outside every deletion, in
    their order: nothing outside a deletion is lost or repeated, nothing
    inside one is kept. *)
Theorem build_contents_outside (contents : JsString) (deletions : list Deletion) :
  Forall well_formed deletions ->
  build_contents contents (merge_deletions deletions) 0 []
  = outside 0 contents deletions
  /\ delete_blocks contents deletions
     = ensure_eol (outside 0 contents deletions).
Proof.
  intros Hwf.
  assert (Hbuild : build_contents contents (merge_deletions deletions) 0 []
                   = outside 0 contents deletions).
  { rewrite merge_deletions_eq.
    pose proof (sort_by_start_sorted deletions) as Hsorted.
    pose proof (sort_by_start_In deletions) as Hin.
    destruct (sort_by_start deletions) as [|d rest].
    - simpl. unfold substring_from. simpl.
      rewrite <- (outside_nil contents 0) at 1.
      apply outside_ext. intros p _. apply covered_ext. intros x. apply Hin.
    - rewrite build_contents_chained.
      + simpl skipn. apply outside_ext. intros p _.
        rewrite (merge_into_covered p rest d Hsorted).
        apply covered_ext. intros x. apply Hin.
      + rewrite Forall_forall in Hwf. apply separated_chained.
        * apply merge_into_separated.
        * apply merge_into_well_formed;
            [apply Hwf, Hin; left; reflexivity|].
          apply Forall_forall. intros x Hx. apply Hwf, Hin. right; exact Hx.
        * destruct (merge_into d rest); [exact I | lia]. }
  split; [exact Hbuild|]. unfold delete_blocks. rewrite Hbuild. reflexivity.
Qed.

Lemma endsWith_eol_app (str : JsString) : endsWith_eol (str ++ [EOL]) = true.
Proof. unfold endsWith_eol. rewrite rev_app_distr. reflexivity. Qed.

(** X24: what the end-of-line steps of [configure] return is never empty
    and always ends with an EOL; at most one leading EOL is removed, so a
    result can still start with an EOL. *)
Theorem ensure_eol_ends (newContents : JsString) :
  endsWith_eol (ensure_eol newContents) = true
  /\ ensure_eol newContents <> []
  /\ startsWith_eol (ensure_eol (EOL :: EOL :: newContents)) = true.
Proof.
  assert (Hends : forall s, endsWith_eol
                    (if negb (endsWith_eol s) then s ++ [EOL] else s) = true).
  { intros s. destruct (endsWith_eol s) eqn:Hs; simpl;
      [exact Hs | apply endsWith_eol_app]. }
  split; [apply Hends|]. split.
  - intros Hnil. pose proof (Hends
      (if startsWith_eol newContents then substring_from newContents 1
       else newContents)) as Hlast.
    unfold ensure_eol in Hnil. rewrite Hnil in Hlast. discriminate.
  - unfold ensure_eol. cbn [startsWith_eol substring_from skipn].
    change (EOL =? EOL) with true. cbv iota.
    destruct (negb (endsWith_eol (EOL :: newContents))); reflexivity.
Qed.

(** * Instances of the further properties *)

Ltac in_list := simpl; repeat (first [left; reflexivity | right]).

Lemma getFeaturesForLevel_members_witness :
  (0 <= 1)%Z
  /\ (In (CinnamonProjectFeature ASSET) (getFeaturesForLevel cinnamonDatabase 1)
      <-> exists ref n,
            Z.of_nat (List.length ref) = (1 + 1)%Z
            /\ deref (_topology cinnamonDatabase) ref = Some n
            /\ metadata n = CinnamonProjectFeature ASSET
            /\ forall k a, 0 < k < List.length ref ->
                  deref (_topology cinnamonDatabase) (firstn k ref) = Some a ->
                  enabled a = true).
Proof.
  split; [discriminate|].
  apply (getFeaturesForLevel_members cinnamonDatabase 1
           (CinnamonProjectFeature ASSET)).
  discriminate.
Defined.

Lemma getEnabledFeaturesForLevel_members_witness :
  valid cinnamonPushOnly
  /\ exists features,
       getEnabledFeaturesForLevel cinnamonPushOnly 2 = Ok features
       /\ forall m, In m features
                    <-> In m (getFeaturesForLevel cinnamonPushOnly 2)
                        /\ In m (getAllEnabled cinnamonPushOnly).
Proof.
  assert (Hvalid : valid cinnamonPushOnly)
    by (apply valid_by_size; vm_compute; reflexivity).
  split; [exact Hvalid|].
  apply (getEnabledFeaturesForLevel_members cinnamonPushOnly 2 Hvalid).
Defined.

Lemma getAllEnabled_by_levels_witness :
  valid cinnamonDatabase
  /\ exists perLevel,
       Forall2 (fun k features =>
                  getEnabledFeaturesForLevel cinnamonDatabase (Z.of_nat k)
                  = Ok features)
               (seq 0 (forest_height (_topology cinnamonDatabase))) perLevel
       /\ getAllEnabled cinnamonDatabase = List.concat perLevel.
Proof.
  assert (Hvalid : valid cinnamonDatabase)
    by (apply valid_by_size; vm_compute; reflexivity).
  split; [exact Hvalid|].
  apply (getAllEnabled_by_levels cinnamonDatabase Hvalid).
Defined.

Lemma set_then_get_witness :
  valid cinnamon
  /\ In (feature_id (ById AVATAR)) (forest_ids (_topology cinnamon))
  /\ exists this',
       set cinnamon (ById AVATAR) true = (Ok tt, this')
       /\ valid this'
       /\ get this' (ById AVATAR) = Ok true
       /\ forall g, feature_id g <> feature_id (ById AVATAR) ->
                    get this' g = get cinnamon g.
Proof.
  assert (Hvalid : valid cinnamon)
    by (apply valid_by_size; vm_compute; reflexivity).
  assert (Hin : In (feature_id (ById AVATAR)) (forest_ids (_topology cinnamon)))
    by in_list.
  split; [exact Hvalid|]. split; [exact Hin|].
  apply (set_then_get cinnamon (ById AVATAR) true Hvalid Hin).
Defined.

Lemma set_overwrites_witness :
  valid cinnamon
  /\ In (feature_id (ById ASSET)) (forest_ids (_topology cinnamon))
  /\ snd (set (snd (set cinnamon (ById ASSET) true)) (ById ASSET) false)
     = snd (set cinnamon (ById ASSET) false).
Proof.
  assert (Hvalid : valid cinnamon)
    by (apply valid_by_size; vm_compute; reflexivity).
  assert (Hin : In (feature_id (ById ASSET)) (forest_ids (_topology cinnamon)))
    by in_list.
  split; [exact Hvalid|]. split; [exact Hin|].
  exact (proj1 (set_overwrites cinnamon (ById ASSET) true false Hvalid Hin)).
Defined.

Lemma set_commutes_witness :
  valid cinnamon
  /\ In (feature_id (ById DATABASE)) (forest_ids (_topology cinnamon))
  /\ In (feature_id (ById AVATAR)) (forest_ids (_topology cinnamon))
  /\ feature_id (ById DATABASE) <> feature_id (ById AVATAR)
  /\ snd (set (snd (set cinnamon (ById DATABASE) true)) (ById AVATAR) true)
     = snd (set (snd (set cinnamon (ById AVATAR) true)) (ById DATABASE) true).
Proof.
  assert (Hvalid : valid cinnamon)
    by (apply valid_by_size; vm_compute; reflexivity).
  assert (Hf : In (feature_id (ById DATABASE)) (forest_ids (_topology cinnamon)))
    by in_list.
  assert (Hg : In (feature_id (ById AVATAR)) (forest_ids (_topology cinnamon)))
    by in_list.
  assert (Hne : feature_id (ById DATABASE) <> feature_id (ById AVATAR))
    by discriminate.
  split; [exact Hvalid|]. split; [exact Hf|]. split; [exact Hg|].
  split; [exact Hne|].
  apply (set_commutes cinnamon (ById DATABASE) (ById AVATAR) true true
           Hvalid Hf Hg Hne).
Defined.

Lemma enableAll_disableAll_flags_witness :
  valid cinnamon
  /\ Forall (fun f => In (feature_id f) (forest_ids (_topology cinnamon)))
            [ById DATABASE; ById PUSH_TOKENS]
  /\ exists this',
       enableAll cinnamon [ById DATABASE; ById PUSH_TOKENS] = (Ok tt, this')
       /\ forall ref n,
            deref (_topology cinnamon) ref = Some n ->
            stored (_topology this') ref
            = Some (metadata n,
                    if includes (map feature_id [ById DATABASE; ById PUSH_TOKENS])
                                (id (metadata n))
                    then true else enabled n).
Proof.
  assert (Hvalid : valid cinnamon)
    by (apply valid_by_size; vm_compute; reflexivity).
  assert (Hall : Forall (fun f => In (feature_id f) (forest_ids (_topology cinnamon)))
                        [ById DATABASE; ById PUSH_TOKENS])
    by (repeat constructor; in_list).
  split; [exact Hvalid|]. split; [exact Hall|].
  exact (proj1 (enableAll_disableAll_flags cinnamon
                  [ById DATABASE; ById PUSH_TOKENS] Hvalid Hall)).
Defined.

Lemma enableAll_stops_at_unknown_witness :
  valid smallForest
  /\ Forall (fun f => In (feature_id f) (forest_ids (_topology smallForest)))
            [ById DATABASE]
  /\ ~ In (feature_id (ById AVATAR)) (forest_ids (_topology smallForest))
  /\ enableAll smallForest ([ById DATABASE] ++ ById AVATAR :: [ById AUTHENTICATION])
     = (Throw TypeError, snd (enableAll smallForest [ById DATABASE])).
Proof.
  assert (Hvalid : valid smallForest)
    by (apply valid_by_size; vm_compute; reflexivity).
  assert (Hall : Forall (fun f => In (feature_id f)
                                    (forest_ids (_topology smallForest)))
                        [ById DATABASE])
    by (repeat constructor; in_list).
  assert (Hunknown : ~ In (feature_id (ById AVATAR))
                          (forest_ids (_topology smallForest)))
    by (simpl; intros [Heq|[Heq|[]]]; discriminate).
  split; [exact Hvalid|]. split; [exact Hall|]. split; [exact Hunknown|].
  exact (proj1 (enableAll_stops_at_unknown smallForest [ById DATABASE]
                  (ById AVATAR) [ById AUTHENTICATION] Hvalid Hall Hunknown)).
Defined.

Lemma getParentOf_cases_witness :
  valid cinnamon
  /\ forall feature, getParentOf cinnamon feature <> Ok None.
Proof.
  assert (Hvalid : valid cinnamon)
    by (apply valid_by_size; vm_compute; reflexivity).
  split; [exact Hvalid|].
  exact (proj1 (getParentOf_cases cinnamon Hvalid)).
Defined.

Lemma get_throws_only_duplicates_witness :
  get nephewForest (ById VALIDATOR) = Throw (DuplicateFeatureId ASSET)
  /\ DuplicateFeatureId ASSET <> TypeError
  /\ ~ valid nephewForest.
Proof.
  assert (Hthrow : get nephewForest (ById VALIDATOR)
                   = Throw (DuplicateFeatureId ASSET))
    by (vm_compute; reflexivity).
  split; [exact Hthrow|].
  apply (get_throws_only_duplicates nephewForest (ById VALIDATOR)
           (DuplicateFeatureId ASSET) Hthrow).
Defined.

Lemma forest_accepts_unique_witness :
  NoDup (forest_ids cinnamonTopology)
  /\ forest cinnamonTopology = Ok (mkFeatureForest cinnamonTopology).
Proof.
  assert (Hunique : NoDup (forest_ids cinnamonTopology))
    by (apply (valid_by_size cinnamon); vm_compute; reflexivity).
  split; [exact Hunique|].
  apply (forest_accepts_unique cinnamonTopology Hunique).
Defined.

Lemma disable_hides_subtree_witness :
  valid cinnamonDatabase
  /\ deref (_topology cinnamonDatabase) [1] = Some enabledDatabaseNode
  /\ feature_id (ById DATABASE) = id (metadata enabledDatabaseNode)
  /\ exists this',
       disable cinnamonDatabase (ById DATABASE) = (Ok tt, this')
       /\ forall ref' n',
            deref (_topology cinnamonDatabase) ref' = Some n' ->
            (In (metadata n') (getAllEnabled this')
             <-> is_prefix [1] ref' = false
                 /\ In (metadata n') (getAllEnabled cinnamonDatabase)).
Proof.
  assert (Hvalid : valid cinnamonDatabase)
    by (apply valid_by_size; vm_compute; reflexivity).
  assert (Hnode : deref (_topology cinnamonDatabase) [1] = Some enabledDatabaseNode)
    by (vm_compute; reflexivity).
  split; [exact Hvalid|]. split; [exact Hnode|]. split; [reflexivity|].
  apply (disable_hides_subtree cinnamonDatabase (ById DATABASE) [1]
           enabledDatabaseNode Hvalid Hnode eq_refl).
Defined.

Lemma disable_hides_levels_witness :
  valid cinnamonDatabase
  /\ deref (_topology cinnamonDatabase) [1] = Some enabledDatabaseNode
  /\ feature_id (ById DATABASE) = id (metadata enabledDatabaseNode)
  /\ exists this',
       disable cinnamonDatabase (ById DATABASE) = (Ok tt, this')
       /\ forall ref' n' level,
            deref (_topology cinnamonDatabase) ref' = Some n' ->
            (In (metadata n') (getFeaturesForLevel this' level)
             <-> (is_prefix [1] ref' && (List.length [1] <? List.length ref'))
                 = false
                 /\ In (metadata n') (getFeaturesForLevel cinnamonDatabase level)).
Proof.
  assert (Hvalid : valid cinnamonDatabase)
    by (apply valid_by_size; vm_compute; reflexivity).
  assert (Hnode : deref (_topology cinnamonDatabase) [1] = Some enabledDatabaseNode)
    by (vm_compute; reflexivity).
  split; [exact Hvalid|]. split; [exact Hnode|]. split; [reflexivity|].
  apply (disable_hides_levels cinnamonDatabase (ById DATABASE) [1]
           enabledDatabaseNode Hvalid Hnode eq_refl).
Defined.

Lemma askUserForProjectFeatures_bounded_witness :
  askUserForProjectFeatures cinnamon tickedAnswers
  = (Ok (tickedQuestions, true), tickedForest)
  /\ List.length tickedQuestions <= Nat.max 1 (forest_height (_topology cinnamon)).
Proof.
  assert (Hrun : askUserForProjectFeatures cinnamon tickedAnswers
                 = (Ok (tickedQuestions, true), tickedForest))
    by (vm_compute; reflexivity).
  split; [exact Hrun|].
  exact (proj1 (askUserForProjectFeatures_bounded cinnamon tickedForest
                  tickedAnswers tickedQuestions true Hrun)).
Defined.

Lemma askUserForProjectFeatures_enables_witness :
  valid cinnamon
  /\ (forall ref n, deref (_topology cinnamon) ref = Some n -> enabled n = false)
  /\ askUserForProjectFeatures cinnamon tickedAnswers
     = (Ok (tickedQuestions, true), tickedForest)
  /\ (forall k question answer,
        nth_error tickedQuestions k = Some question ->
        nth_error tickedAnswers k = Some answer ->
        incl answer (map id question))
  /\ deref (_topology cinnamon) [1; 0] = Some authenticationNode
  /\ (In (metadata authenticationNode) (getAllEnabled tickedForest)
      <-> exists k answer,
            k < List.length tickedQuestions
            /\ nth_error tickedAnswers k = Some answer
            /\ In (id (metadata authenticationNode)) answer).
Proof.
  assert (Hvalid : valid cinnamon)
    by (apply valid_by_size; vm_compute; reflexivity).
  assert (Hfresh : forall ref n,
             deref (_topology cinnamon) ref = Some n -> enabled n = false).
  { intros ref n Hn.
    destruct ref as [|[|[|[|[|[|i]]]]] [|[|[|j]] [|[|k] [|l rest]]]];
      simpl in Hn;
      repeat match type of Hn with
             | context [nth_error [] ?x] => destruct x; simpl in Hn
             end;
      try discriminate; injection Hn as <-; reflexivity. }
  assert (Hrun : askUserForProjectFeatures cinnamon tickedAnswers
                 = (Ok (tickedQuestions, true), tickedForest))
    by (vm_compute; reflexivity).
  assert (Hchoices : forall k question answer,
             nth_error tickedQuestions k = Some question ->
             nth_error tickedAnswers k = Some answer ->
             incl answer (map id question)).
  { intros k question answer Hq Ha.
    unfold tickedQuestions, tickedAnswers in Hq, Ha.
    destruct k as [|[|[|k]]]; simpl in Hq, Ha;
      try (destruct k; discriminate);
      injection Hq as <-; injection Ha as <-;
      intros x [<-|[]]; in_list. }
  assert (Hnode : deref (_topology cinnamon) [1; 0] = Some authenticationNode)
    by reflexivity.
  split; [exact Hvalid|]. split; [exact Hfresh|]. split; [exact Hrun|].
  split; [exact Hchoices|]. split; [exact Hnode|].
  apply (askUserForProjectFeatures_enables cinnamon tickedForest tickedAnswers
           tickedQuestions true Hvalid Hfresh Hrun Hchoices [1; 0]
           authenticationNode Hnode).
Defined.

Lemma build_contents_outside_witness :
  Forall well_formed sampleDeletions
  /\ build_contents sampleContents (merge_deletions sampleDeletions) 0 []
     = outside 0 sampleContents sampleDeletions.
Proof.
  assert (Hwf : Forall well_formed sampleDeletions)
    by (repeat constructor; unfold well_formed; simpl; lia).
  split; [exact Hwf|].
  exact (proj1 (build_contents_outside sampleContents sampleDeletions Hwf)).
Defined.
